(** * guillotina_gcloudstorage: the resumable upload client, embedded

    A shallow embedding of [guillotina_gcloudstorage/storage.py]: the file
    manager ([GCloudFileManager]) and the blob store utility
    ([GCloudBlobStore]).  Coroutines become functions in a state-and-exception
    monad; the state holds the data manager ([dm]) and the log of the remote
    calls issued so far; the storage service, the token provider, the bucket
    resolver and the other collaborators of the host framework are fields of
    an environment record, so every theorem is about an arbitrary service.

    Exceptions keep their class only: the retry policy and every handler of
    the module dispatch on the class, never on the message. *)

From Stdlib Require Import String Ascii List ZArith Lia Bool DecimalString.
Import ListNotations.
Open Scope string_scope.
Open Scope Z_scope.

Set Implicit Arguments.
Set Warnings "-register-all".

(* ================================================================== *)
(** ** Python values and built-ins used by the module *)
(* ================================================================== *)

Module Py.

(** What [resp.json()] can return: the JSON fragment of Python's values. *)
Inductive value : Type :=
| VNone
| VBool (b : bool)
| VInt (n : Z)
| VStr (s : string)
| VList (l : list value)
| VDict (kv : list (string * value)).

(** The exception classes the module raises, catches or lets through. *)
Inductive exn : Type :=
| GoogleCloudException
| TransportError
| RefreshError
| ClientPayloadError
| ClientConnectorError
| ClientOSError
| HTTPGone
| HTTPNotFound
| HTTPPreconditionFailed
| FileNotFoundException
| AttributeError (msg : string)
| KeyError
| TypeError
| ValueError
| IndexError
| AssertionError.

Inductive Result (A : Type) : Type :=
| Ok (a : A)
| Raise (e : exn).
Arguments Ok {A} a.
Arguments Raise {A} e.

(** [str(n)] for an int. *)
Definition str (n : Z) : string := NilZero.string_of_int (Z.to_int n).

(** [len(x)] for [str] and [bytes]. *)
Definition len_str (s : string) : Z := Z.of_nat (String.length s).
Definition len {A} (l : list A) : Z := Z.of_nat (List.length l).

(** [sub in s] for two [str]. *)
Fixpoint str_in (sub s : string) : bool :=
  prefix sub s ||
  match s with
  | EmptyString => false
  | String _ s' => str_in sub s'
  end.

(** [s.split(sep)] for a non-empty [sep]: the pieces between the successive
    non-overlapping occurrences of [sep], scanned left to right.  [skip]
    counts the characters of an occurrence still to be passed over. *)
Fixpoint split_go (sep : string) (skip : nat) (s : string) : list string :=
  match s with
  | EmptyString => [EmptyString]
  | String c s' =>
      match skip with
      | S k => split_go sep k s'
      | O =>
          if prefix sep s
          then EmptyString :: split_go sep (Nat.pred (String.length sep)) s'
          else match split_go sep O s' with
               | h :: t => String c h :: t
               | [] => [String c EmptyString]
               end
      end
  end.

Definition split (s sep : string) : list string := split_go sep O s.

(** [l[0]] and [l[-1]] of the list [split] returns (it is never empty). *)
Definition first (l : list string) : string := hd EmptyString l.
Definition last (l : list string) : string := List.last l EmptyString.

Definition is_space (c : ascii) : bool :=
  let n := nat_of_ascii c in
  (Nat.eqb n 32 || (Nat.leb 9 n && Nat.leb n 13) || (Nat.leb 28 n && Nat.leb n 31))%bool.

Definition is_digit (c : ascii) : bool :=
  let n := nat_of_ascii c in (Nat.leb 48 n && Nat.leb n 57)%bool.

Fixpoint lstrip (s : string) : string :=
  match s with
  | String c s' => if is_space c then lstrip s' else s
  | EmptyString => EmptyString
  end.

Fixpoint all_space (s : string) : bool :=
  match s with
  | EmptyString => true
  | String c s' => is_space c && all_space s'
  end.

(** The digits of an int literal, most significant first: one or more
    digits, single underscores allowed between digits, then only white
    space.  [acc] is the value read so far, [seen] whether the previous
    character was a digit. *)
Fixpoint digits (s : string) (acc : Z) (seen : bool) : option Z :=
  match s with
  | EmptyString => if seen then Some acc else None
  | String c s' =>
      if is_digit c
      then digits s' (10 * acc + Z.of_nat (nat_of_ascii c - 48)) true
      else if Ascii.eqb c "_"
      then if seen
           then match s' with
                | String d _ => if is_digit d then digits s' acc false else None
                | EmptyString => None
                end
           else None
      else if seen && all_space s then Some acc else None
  end.

(** [int(s)] for a [str] of ASCII characters (an HTTP header value): [None]
    where Python raises [ValueError]. *)
Definition int_of_str (s : string) : option Z :=
  match lstrip s with
  | String "-" s' => option_map Z.opp (digits s' 0 false)
  | String "+" s' => digits s' 0 false
  | s' => digits s' 0 false
  end.

Definition int_str (s : string) : Result Z :=
  match int_of_str s with
  | Some n => Ok n
  | None => Raise ValueError
  end.

(** ASCII [str.lower()], as used for case-insensitive header names. *)
Definition lower_char (c : ascii) : ascii :=
  let n := nat_of_ascii c in
  if (Nat.leb 65 n && Nat.leb n 90)%bool then ascii_of_nat (n + 32) else c.

Fixpoint lower (s : string) : string :=
  match s with
  | EmptyString => EmptyString
  | String c s' => String (lower_char c) (lower s')
  end.

(** [urllib.parse.quote_plus] on the UTF-8 bytes of a [str]: letters,
    digits and [_.-~] pass, a space becomes [+], any other byte [%XX]. *)
Definition always_safe (c : ascii) : bool :=
  let n := nat_of_ascii c in
  ((Nat.leb 48 n && Nat.leb n 57) || (Nat.leb 65 n && Nat.leb n 90)
   || (Nat.leb 97 n && Nat.leb n 122)
   || Nat.eqb n 95 || Nat.eqb n 46 || Nat.eqb n 45 || Nat.eqb n 126)%bool.

Definition hex_digit (n : nat) : ascii :=
  if Nat.ltb n 10 then ascii_of_nat (48 + n) else ascii_of_nat (55 + n).

Fixpoint quote_plus (s : string) : string :=
  match s with
  | EmptyString => EmptyString
  | String c s' =>
      let n := nat_of_ascii c in
      if Nat.eqb n 32 then String "+" (quote_plus s')
      else if always_safe c then String c (quote_plus s')
      else String "%" (String (hex_digit (Nat.div n 16))
                         (String (hex_digit (Nat.modulo n 16)) (quote_plus s')))
  end.

(** A [dict] with [str] keys, in insertion order. *)
Definition dict (V : Type) : Type := list (string * V).

Fixpoint dict_get {V} (d : dict V) (k : string) : option V :=
  match d with
  | [] => None
  | (k', v) :: d' => if String.eqb k' k then Some v else dict_get d' k
  end.

(** [d[k] = v]. *)
Fixpoint dict_set {V} (d : dict V) (k : string) (v : V) : dict V :=
  match d with
  | [] => [(k, v)]
  | (k', v') :: d' =>
      if String.eqb k' k then (k', v) :: d' else (k', v') :: dict_set d' k v
  end.

(** [d.update(e)]. *)
Definition dict_update {V} (d e : dict V) : dict V :=
  fold_left (fun acc kv => dict_set acc (fst kv) (snd kv)) e d.

(** Truth value of a Python value. *)
Definition truthy (v : value) : bool :=
  match v with
  | VNone => false
  | VBool b => b
  | VInt n => negb (n =? 0)
  | VStr s => negb (String.eqb s EmptyString)
  | VList l => match l with [] => false | _ => true end
  | VDict kv => match kv with [] => false | _ => true end
  end.

Definition value_is_str (v : value) (s : string) : bool :=
  match v with
  | VStr s' => String.eqb s' s
  | _ => false
  end.

(** [v.get(k, default)]: only a dict has the method. *)
Definition get (v : value) (k : string) (default : value) : Result value :=
  match v with
  | VDict kv => Ok (match dict_get kv k with Some x => x | None => default end)
  | _ => Raise (AttributeError "get")
  end.

(** [v[k]] for a [str] key. *)
Definition getitem (v : value) (k : string) : Result value :=
  match v with
  | VDict kv => match dict_get kv k with Some x => Ok x | None => Raise KeyError end
  | _ => Raise TypeError
  end.

(** [v[0]]. *)
Definition getitem0 (v : value) : Result value :=
  match v with
  | VList (x :: _) => Ok x
  | VList [] => Raise IndexError
  | VStr (String c _) => Ok (VStr (String c EmptyString))
  | VStr EmptyString => Raise IndexError
  | VDict _ => Raise KeyError
  | _ => Raise TypeError
  end.

(** [len(v)]. *)
Definition len_value (v : value) : Result Z :=
  match v with
  | VStr s => Ok (len_str s)
  | VList l => Ok (len l)
  | VDict kv => Ok (len kv)
  | _ => Raise TypeError
  end.

(** [k in v] for a [str] [k]. *)
Definition contains (v : value) (k : string) : Result bool :=
  match v with
  | VStr s => Ok (str_in k s)
  | VList l => Ok (existsb (fun x => value_is_str x k) l)
  | VDict kv => Ok (match dict_get kv k with Some _ => true | None => false end)
  | _ => Raise TypeError
  end.

Fixpoint chars (s : string) : list value :=
  match s with
  | EmptyString => []
  | String c s' => VStr (String c EmptyString) :: chars s'
  end.

(** The elements [for x in v] goes through. *)
Definition iter (v : value) : Result (list value) :=
  match v with
  | VList l => Ok l
  | VStr s => Ok (chars s)
  | VDict kv => Ok (map (fun p => VStr (fst p)) kv)
  | _ => Raise TypeError
  end.

(** [int(v)]. *)
Definition int (v : value) : Result Z :=
  match v with
  | VInt n => Ok n
  | VBool b => Ok (if b then 1 else 0)
  | VStr s => int_str s
  | _ => Raise TypeError
  end.

End Py.

Import Py.

(* ================================================================== *)
(** ** Remote calls, the host environment and the state *)
(* ================================================================== *)

Definition bytes : Type := list Byte.byte.

Inductive method : Type := GET | POST | PUT | DELETE.

Inductive payload : Type :=
| NoData
| Text (s : string)
| Bytes (b : bytes).

(** One call on [util.session].  [url] is [None] when the code hands
    Python's [None] to the session. *)
Record request : Type := {
  meth : method;
  url : option string;
  headers : dict string;
  params : dict value;
  data : payload
}.

(** What the module looks at in an answer: [json] is what [resp.json()]
    does, [content] the non-final results of the successive
    [content.read(n)] (past them the stream is at its end and a read gives
    the empty bytes). *)
Record response : Type := {
  status : Z;
  resp_headers : dict string;
  text : string;
  json : Result value;
  content : list bytes
}.

Inductive reply : Type :=
| Response (r : response)
| Failure (e : exn).

(** A remote call: an HTTP request of the session, or one batch of
    [delete_blob] calls of the google client. *)
Inductive call : Type :=
| Http (r : request)
| Batch (bucket_name : string) (keys : list value).

(** The stored file of the field ([GCloudFile]). *)
Record GCloudFile : Type := {
  file_uri : option string;
  file_filename : option string
}.

(** The collaborators: the field and cleanup adapter of the manager, the
    name generator, the request context, the bucket resolver and token
    provider of the utility, the storage service behind the session and the
    google client.  The service answers a request knowing the calls made
    before it. *)
Record Env : Type := {
  field_get : option GCloudFile;
  cleanup : option (GCloudFile -> bool);
  generator : nat -> string;
  creator : value;
  request_str : string;
  container_id : string;
  dumps : value -> string;
  parse : value -> Result Z;
  get_bucket_name : Result string;
  get_access_token : Result (option string);
  get_client : Result unit;
  session : list call -> request -> reply;
  batch_responses : list call -> string -> list value -> Result (list Z)
}.

(** The upload data manager [dm]: the keys read with [dm.get] and written
    with [dm.update], and the attributes [dm.size], [dm.content_type]. *)
Record DataManager : Type := {
  upload_file_id : option string;
  resumable_uri : option string;
  current_upload : option Z;
  uri : option string;
  filename : option string;
  size : option Z;
  content_type : string
}.

Inductive level : Type := WARNING | ERROR.

Record State : Type := {
  dm : DataManager;
  calls : list call;
  generated : nat;
  logged : list (level * string)
}.

Definition RETRIABLE_EXCEPTIONS (e : exn) : bool :=
  match e with
  | GoogleCloudException | TransportError | RefreshError
  | ClientPayloadError | ClientConnectorError | ClientOSError => true
  | _ => false
  end.

Definition MAX_SIZE : Z := 1073741824.
Definition UPLOAD_URL (bucket : string) : string :=
  "https://www.googleapis.com/upload/storage/v1/b/" ++ bucket ++ "/o?uploadType=resumable".
Definition OBJECT_BASE_URL : string := "https://www.googleapis.com/storage/v1/b".
Definition CHUNK_SIZE : Z := 524288.
Definition MAX_RETRIES : Z := 5.

(* ================================================================== *)
(** ** Coroutines: state and exceptions *)
(* ================================================================== *)

Definition M (A : Type) : Type := State -> Result A * State.

Definition ret {A} (a : A) : M A := fun st => (Ok a, st).

Definition raise {A} (e : exn) : M A := fun st => (Raise e, st).

Definition bind {A B} (c : M A) (k : A -> M B) : M B :=
  fun st =>
    match c st with
    | (Ok a, st') => k a st'
    | (Raise e, st') => (Raise e, st')
    end.

Declare Scope coro_scope.
Delimit Scope coro_scope with coro.
Notation "x <- c ;; k" := (bind c (fun x => k))
  (at level 61, c at next level, right associativity) : coro_scope.
Notation "c ;;; k" := (bind c (fun _ => k))
  (at level 61, right associativity) : coro_scope.
Open Scope coro_scope.

(** A value or exception of a collaborator that makes no remote call. *)
Definition lift {A} (r : Result A) : M A := fun st => (r, st).

Definition record (c : call) (st : State) : State :=
  {| dm := dm st; calls := calls st ++ [c];
     generated := generated st; logged := logged st |}.

Definition log (l : level) (msg : string) : M unit :=
  fun st =>
    (Ok tt, {| dm := dm st; calls := calls st;
               generated := generated st; logged := logged st ++ [(l, msg)] |}).

(** [async with util.session.<method>(...) as resp]: the request goes in
    the log whether the service answers it or the call fails. *)
Definition http (env : Env) (r : request) : M response :=
  fun st =>
    match session env (calls st) r with
    | Response resp => (Ok resp, record (Http r) st)
    | Failure e => (Raise e, record (Http r) st)
    end.

(** [dm.update] with keyword arguments, as a function on the data. *)
Definition update (f : DataManager -> DataManager) : M unit :=
  fun st =>
    (Ok tt, {| dm := f (dm st); calls := calls st;
               generated := generated st; logged := logged st |}).

Definition get_dm : M DataManager := fun st => (Ok (dm st), st).

(** [backoff.on_exception(wait, RETRIABLE_EXCEPTIONS, max_tries=n)]: call
    the target again after an exception of a retriable class, at most [n]
    times in all; the last exception, and any exception of another class,
    is raised as it is.  The waits between tries are not modelled.
    [more] is the number of tries left after the current one. *)
Fixpoint retry {A} (more : nat) (target : M A) : M A :=
  fun st =>
    match target st with
    | (Raise e, st') =>
        if RETRIABLE_EXCEPTIONS e
        then match more with
             | S k => retry k target st'
             | O => (Raise e, st')
             end
        else (Raise e, st')
    | done => done
    end.

Definition on_exception {A} (max_tries : nat) (target : M A) : M A :=
  retry (Nat.pred max_tries) target.

Definition try_except {A} (c : M A) (catches : exn -> bool) (handler : exn -> M A) : M A :=
  fun st =>
    match c st with
    | (Raise e, st') => if catches e then handler e st' else (Raise e, st')
    | done => done
    end.

Definition is_GoogleCloudException (e : exn) : bool :=
  match e with GoogleCloudException => true | _ => false end.

(** [resp.headers[name]]: the headers of a response are looked up without
    regard to case. *)
Fixpoint header_get (h : dict string) (name : string) : option string :=
  match h with
  | [] => None
  | (k, v) :: h' => if String.eqb (lower k) (lower name) then Some v else header_get h' name
  end.

Definition header (resp : response) (name : string) : M string :=
  match header_get (resp_headers resp) name with
  | Some v => ret v
  | None => raise KeyError
  end.

Definition in_list (x : Z) (l : list Z) : bool := existsb (Z.eqb x) l.

Definition bearer (access_token : option string) : dict string :=
  match access_token with
  | Some t => if String.eqb t EmptyString then [] else [("AUTHORIZATION", "Bearer " ++ t)]
  | None => []
  end.

(** ** Async generators

    A generator run to its end: the items it yields, and how it ends.
    [Running] is the ending of a run cut at the bound put on the number of
    iterations of an unbounded loop. *)
Inductive ending : Type :=
| Done
| Raised (e : exn)
| Running.

Definition Gen (X : Type) : Type := State -> (list X * ending) * State.

Definition stop {X} : Gen X := fun st => (([], Done), st).

Definition cut {X} : Gen X := fun st => (([], Running), st).

Definition throw {X} (e : exn) : Gen X := fun st => (([], Raised e), st).

Definition await {A X} (c : M A) (k : A -> Gen X) : Gen X :=
  fun st =>
    match c st with
    | (Ok a, st') => k a st'
    | (Raise e, st') => (([], Raised e), st')
    end.

(** [for x in l: yield x], then the rest of the body. *)
Definition yield_each {X} (l : list X) (k : Gen X) : Gen X :=
  fun st =>
    match k st with
    | ((ys, e), st') => (((l ++ ys)%list, e), st')
    end.

(* ================================================================== *)
(** ** [GCloudBlobStore] *)
(* ================================================================== *)

Record BlobMetadata : Type := {
  blob_name : value;
  blob_bucket : value;
  blob_createdTime : Z;
  blob_size : Z
}.

Module GCloudBlobStore.

(** [iterate_bucket_page(page_token=None, prefix=None)]. *)
Definition iterate_bucket_page (env : Env) (page_token : value) (prefix : option string)
  : M value :=
  bucket <- lift (get_bucket_name env) ;;
  let url := OBJECT_BASE_URL ++ "/" ++ bucket ++ "/o" in
  let prefix :=
    match prefix with
    | Some p => if String.eqb p EmptyString then container_id env ++ "/" else p
    | None => container_id env ++ "/"
    end in
  let params := dict_update [] [("prefix", VStr prefix)] in
  let params := if truthy page_token then dict_set params "pageToken" page_token else params in
  access_token <- lift (get_access_token env) ;;
  let headers := bearer access_token in
  resp <- http env {| meth := GET; url := Some url; headers := headers;
                      params := params; data := NoData |} ;;
  if status resp =? 200 then lift (json resp) else raise AssertionError.

(** The [while page_token is not None] loop of [iterate_bucket], run for at
    most [fuel] iterations. *)
Fixpoint iterate_bucket_loop (env : Env) (fuel : nat) (page_token : value) : Gen value :=
  match page_token with
  | VNone => stop
  | _ =>
      match fuel with
      | O => cut
      | S fuel' =>
          await (iterate_bucket_page env page_token None) (fun data =>
          await (lift (get data "items" (VList []))) (fun items =>
          await (lift (len_value items)) (fun n =>
          if n =? 0 then stop
          else
            await (lift (iter items)) (fun l =>
            yield_each l (
            await (lift (get data "nextPageToken" VNone)) (fun page_token =>
            iterate_bucket_loop env fuel' page_token))))))
      end
  end.

Definition iterate_bucket (env : Env) (fuel : nat) : Gen value :=
  await (iterate_bucket_page env VNone None) (fun data =>
  await (lift (contains data "items")) (fun has_items =>
  if negb has_items then stop
  else
    await (lift (getitem data "items")) (fun items =>
    await (lift (iter items)) (fun l =>
    yield_each l (
    await (lift (get data "nextPageToken" VNone)) (fun page_token =>
    iterate_bucket_loop env fuel page_token)))))).

Definition blob_of (env : Env) (item : value) : Result BlobMetadata :=
  match get item "name" VNone with
  | Raise e => Raise e
  | Ok name =>
  match get item "bucket" VNone with
  | Raise e => Raise e
  | Ok bucket =>
  match get item "timeCreated" VNone with
  | Raise e => Raise e
  | Ok timeCreated =>
  match parse env timeCreated with
  | Raise e => Raise e
  | Ok createdTime =>
  match get item "size" VNone with
  | Raise e => Raise e
  | Ok sz =>
  match int sz with
  | Raise e => Raise e
  | Ok n => Ok {| blob_name := name; blob_bucket := bucket;
                  blob_createdTime := createdTime; blob_size := n |}
  end end end end end end.

(** [[f(x) for x in l]] where [f] can raise. *)
Fixpoint comprehension {A B} (f : A -> Result B) (l : list A) : Result (list B) :=
  match l with
  | [] => Ok []
  | x :: l' =>
      match f x with
      | Raise e => Raise e
      | Ok y => match comprehension f l' with
                | Raise e => Raise e
                | Ok ys => Ok (y :: ys)
                end
      end
  end.

(** [get_blobs(page_token=None, prefix=None, max_keys=1000)]. *)
Definition get_blobs (env : Env) (page_token : value) (prefix : option string)
  : M (list BlobMetadata * value) :=
  page <- iterate_bucket_page env page_token prefix ;;
  items <- lift (get page "items" (VList [])) ;;
  l <- lift (iter items) ;;
  blobs <- lift (comprehension (blob_of env) l) ;;
  next_page_token <- lift (get page "nextPageToken" VNone) ;;
  ret (blobs, next_page_token).

(** [with client.batch(raise_exception=False) as batch: for key in keys:
    bucket.delete_blob(key)]: one batch call, answered with one status code
    per deferred request ([batch._responses]). *)
Definition batch (env : Env) (bucket_name : string) (keys : list value) : M (list Z) :=
  fun st =>
    (batch_responses env (calls st) bucket_name keys, record (Batch bucket_name keys) st).

(** The [for idx, response in enumerate(batch._responses)] loop. *)
Fixpoint partition (keys : list value) (idx : nat) (responses : list Z)
    (success_keys failed_keys : list value) : Result (list value * list value) :=
  match responses with
  | [] => Ok (success_keys, failed_keys)
  | status_code :: rest =>
      match nth_error keys idx with
      | None => Raise IndexError
      | Some key =>
          if (200 <=? status_code) && (status_code <=? 300)
          then partition keys (S idx) rest (success_keys ++ [key])%list failed_keys
          else partition keys (S idx) rest success_keys (failed_keys ++ [key])%list
      end
  end.

Definition delete_blobs (env : Env) (keys : list value) (bucket_name : option string)
  : M (list value * list value) :=
  lift (get_client env) ;;;
  bucket_name <-
    match bucket_name with
    | Some b => if String.eqb b EmptyString then lift (get_bucket_name env) else ret b
    | None => lift (get_bucket_name env)
    end ;;
  responses <- batch env bucket_name keys ;;
  lift (partition keys O responses [] []).

End GCloudBlobStore.

(* ================================================================== *)
(** ** [GCloudFileManager] *)
(* ================================================================== *)

(** [file is not None and isinstance(file, GCloudFile) and file.uri is not
    None]; the field holds a [GCloudFile] or nothing. *)
Definition _is_uploaded_file (file : option GCloudFile) : bool :=
  match file with
  | Some f => match file_uri f with Some _ => true | None => false end
  | None => false
  end.

Module GCloudFileManager.

Definition finish_warning : string := "Could not delete existing google cloud file".

Definition should_clean (env : Env) (file : GCloudFile) : bool :=
  match cleanup env with
  | None => true
  | Some c => c file
  end.

Definition get_headers (env : Env) : M (dict string) :=
  access_token <- lift (get_access_token env) ;;
  ret (bearer access_token).

Definition object_url (bucket uri : string) : string :=
  OBJECT_BASE_URL ++ "/" ++ bucket ++ "/o/" ++ quote_plus uri.

(** The [while True] loop of [iter_data] over the reads of the body: it
    stops at the first empty read. *)
Fixpoint read_all (reads : list bytes) : list bytes :=
  match reads with
  | [] => []
  | chunk :: rest => if len chunk >? 0 then chunk :: read_all rest else []
  end.

(** [iter_data(uri=None, headers=None)].  The body never reads its
    [headers] argument. *)
Definition iter_data (env : Env) (uri : option string) (headers : option (dict string))
  : Gen bytes :=
  await
    (match uri with
     | None =>
         let file := field_get env in
         if negb (_is_uploaded_file file)
         then raise FileNotFoundException
         else match file with
              | Some f => ret (file_uri f)
              | None => ret None
              end
     | Some u => ret (Some u)
     end) (fun uri =>
  await (lift (get_bucket_name env)) (fun bucket =>
  let url := option_map (object_url bucket) uri in
  await (get_headers env) (fun hdrs =>
  await (http env {| meth := GET; url := url; headers := hdrs;
                     params := [("alt", VStr "media")]; data := NoData |}) (fun api_resp =>
  if negb (in_list (status api_resp) [200; 206])
  then
    if status api_resp =? 404 then throw HTTPNotFound
    else if status api_resp =? 401
    then await (log WARNING "Invalid google cloud credentials error")
           (fun _ => throw HTTPNotFound)
    else throw GoogleCloudException
  else yield_each (read_all (content api_resp)) stop)))).

Definition range_supported : M bool := ret true.

Definition read_range (env : Env) (start end_ : Z) : Gen bytes :=
  iter_data env None (Some [("Range", "bytes=" ++ str start ++ "-" ++ str (end_ - 1))]).

(** The body of [delete_upload], one try of the retry policy. *)
Definition delete_upload_try (env : Env) (uri : option string) : M unit :=
  match uri with
  | Some uri =>
      bucket <- lift (get_bucket_name env) ;;
      let url := object_url bucket uri in
      hdrs <- get_headers env ;;
      resp <- http env {| meth := DELETE; url := Some url; headers := hdrs;
                          params := []; data := NoData |} ;;
      let data :=
        match json resp with
        | Ok d => d
        | Raise _ => VDict [("text", VStr (text resp))]
        end in
      if negb (in_list (status resp) [200; 204; 404])
      then
        if status resp =? 404
        then log ERROR "Attempt to delete not found gcloud"
        else
          errors <-
            (if status resp =? 403
             then error <- lift (get data "error" (VDict [])) ;;
                  lift (get error "errors" (VList []))
             else ret (VBool false)) ;;
          if (status resp =? 403) && truthy errors
          then
            error <- lift (getitem data "error") ;;
            errors <- lift (getitem error "errors") ;;
            n <- lift (len_value errors) ;;
            if n >=? 1
            then
              error <- lift (getitem0 errors) ;;
              reason <- lift (getitem error "reason") ;;
              if value_is_str reason "retentionPolicyNotMet"
              then ret tt
              else ret tt
            else ret tt
          else raise GoogleCloudException
      else ret tt
  | None => raise (AttributeError "No valid uri")
  end.

Definition delete_upload (env : Env) (uri : option string) : M unit :=
  on_exception 10 (delete_upload_try env uri).

(** [await apply_coroutine(generator)]: a fresh name at each call. *)
Definition generate (env : Env) : M string :=
  fun st =>
    (Ok (generator env (generated st)),
     {| dm := dm st; calls := calls st;
        generated := S (generated st); logged := logged st |}).

Definition opt_str (s : option string) : value :=
  match s with Some x => VStr x | None => VNone end.

Definition str_opt (n : option Z) : string :=
  match n with Some x => str x | None => "None" end.

(** The body of [start]. *)
Definition start_try (env : Env) : M unit :=
  d <- get_dm ;;
  match upload_file_id d with
  | Some id => delete_upload env (Some id)
  | None => ret tt
  end ;;;
  upload_file_id <- generate env ;;
  bucket <- lift (get_bucket_name env) ;;
  let init_url := UPLOAD_URL bucket ++ "&name=" ++ quote_plus upload_file_id in
  d <- get_dm ;;
  let metadata :=
    dumps env (VDict [("CREATOR", creator env);
                      ("REQUEST", VStr (request_str env));
                      ("NAME", opt_str (filename d))]) in
  let call_size := len_str metadata in
  hdrs <- get_headers env ;;
  let hdrs :=
    dict_update hdrs
      [("X-Upload-Content-Type", content_type d);
       ("X-Upload-Content-Length", str_opt (size d));
       ("Content-Type", "application/json; charset=UTF-8");
       ("Content-Length", str call_size)] in
  call <- http env {| meth := POST; url := Some init_url; headers := hdrs;
                      params := []; data := Text metadata |} ;;
  if negb (status call =? 200)
  then raise GoogleCloudException
  else
    resumable_uri <- header call "Location" ;;
    update (fun d =>
      {| upload_file_id := Some upload_file_id;
         resumable_uri := Some resumable_uri;
         current_upload := Some 0;
         uri := uri d; filename := filename d;
         size := size d; content_type := content_type d |}).

Definition start (env : Env) : M unit := on_exception 10 (start_try env).

(** [[blob.name for blob in blobs if "::" in blob.name]]. *)
Fixpoint candidates (blobs : list BlobMetadata) : Result (list value) :=
  match blobs with
  | [] => Ok []
  | blob :: rest =>
      match contains (blob_name blob) "::" with
      | Raise e => Raise e
      | Ok c =>
          match candidates rest with
          | Raise e => Raise e
          | Ok ks => Ok (if c then blob_name blob :: ks else ks)
          end
      end
  end.

(** The body of [delete_by_prefix]. *)
Definition delete_by_prefix_try (env : Env) (uri : option string) : M bool :=
  match uri with
  | Some u =>
      if negb (String.eqb u EmptyString) && str_in "::" u
      then
        let prefix := first (split u "::") in
        r <- GCloudBlobStore.get_blobs env VNone (Some prefix) ;;
        let blobs := fst r in
        candidate_keys <- lift (candidates blobs) ;;
        match candidate_keys with
        | [] => ret false
        | _ :: _ =>
            bucket_name <- lift (get_bucket_name env) ;;
            r <- GCloudBlobStore.delete_blobs env candidate_keys (Some bucket_name) ;;
            match snd r with
            | _ :: _ => raise GoogleCloudException
            | [] => ret true
            end
        end
      else raise (AttributeError "No valid uri")
  | None => raise (AttributeError "No valid uri")
  end.

Definition delete_by_prefix (env : Env) (uri : option string) : M bool :=
  on_exception 10 (delete_by_prefix_try env uri).

(** The request [_append] sends: the PUT of [data] at [offset], with a
    [Content-Range] unless the chunk is the whole declared size.  ([size]
    is ["*"] when [dm.size] is [None], and no length equals it.) *)
Definition put_request (d : DataManager) (data : bytes) (offset : Z) : request :=
  let hdrs :=
    [("Content-Length", str (len data)); ("Content-Type", content_type d)] in
  let differs :=
    match size d with
    | Some n => negb (len data =? n)
    | None => true
    end in
  let total :=
    match size d with
    | Some n => str n
    | None => "*"
    end in
  let content_range :=
    "bytes " ++ str offset ++ "-" ++ str (offset + len data - 1) ++ "/" ++ total in
  let hdrs := if differs then dict_set hdrs "Content-Range" content_range else hdrs in
  {| meth := PUT; url := resumable_uri d; headers := hdrs;
     params := []; data := Bytes data |}.

(** The body of [_append]: one PUT of [data] at [offset]. *)
Definition _append_try (env : Env) (data : bytes) (offset : Z) : M response :=
  d <- get_dm ;;
  call <- http env (put_request d data offset) ;;
  if negb (in_list (status call) [200; 201; 308])
  then
    if status call =? 410
    then raise HTTPGone
    else raise GoogleCloudException
  else ret call.

Definition _append (env : Env) (data : bytes) (offset : Z) : M response :=
  on_exception 10 (_append_try env data offset).

(** The [async for chunk in iterable] loop of [append], on the locals
    [count] and [offset]; it returns them as they are when the loop ends. *)
Fixpoint append_loop (env : Env) (iterable : list bytes) (count offset : Z) : M (Z * Z) :=
  match iterable with
  | [] => ret (count, offset)
  | chunk :: rest =>
      resp <- _append env chunk offset ;;
      let size := len chunk in
      let count := count + size in
      let offset := offset + len chunk in
      if status resp =? 308
      then
        range_header <- header resp "Range" ;;
        upper <- lift (int_str (last (split range_header "-"))) ;;
        if negb (offset - 1 =? upper)
        then raise HTTPPreconditionFailed
        else append_loop env rest count offset
      else if in_list (status resp) [200; 201]
      then ret (count, offset)
      else append_loop env rest count offset
  end.

Definition append (env : Env) (iterable : list bytes) (offset : Z) : M Z :=
  locals <- append_loop env iterable 0 offset ;;
  ret (fst locals).

Definition finish (env : Env) : M unit :=
  let file := field_get env in
  match file with
  | Some f =>
      if _is_uploaded_file file
      then
        if should_clean env f
        then try_except (delete_upload env (file_uri f)) is_GoogleCloudException
               (fun _ => log WARNING finish_warning)
        else ret tt
      else ret tt
  | None => ret tt
  end ;;;
  d <- get_dm ;;
  update (fun d' =>
    {| upload_file_id := None;
       resumable_uri := resumable_uri d';
       current_upload := current_upload d';
       uri := upload_file_id d;
       filename := filename d'; size := size d'; content_type := content_type d' |}).

Definition delete (env : Env) : M bool :=
  match field_get env with
  | Some file => delete_by_prefix env (file_uri file)
  | None => raise (AttributeError "uri")
  end.

End GCloudFileManager.

Import GCloudFileManager.

(* ================================================================== *)
(** ** Vocabulary of the statements *)
(* ================================================================== *)

Definition method_eqb (a b : method) : bool :=
  match a, b with
  | GET, GET | POST, POST | PUT, PUT | DELETE, DELETE => true
  | _, _ => false
  end.

(** The number of requests of method [m] in a log of calls. *)
Definition count_method (m : method) (l : list call) : nat :=
  List.length
    (filter (fun c => match c with
                      | Http r => method_eqb (meth r) m
                      | Batch _ _ => false
                      end) l).

(** The service answers every request of method [m], whenever it is made,
    with a response that satisfies [P]. *)
Definition answers (env : Env) (m : method) (P : response -> Prop) : Prop :=
  forall h r, meth r = m -> exists resp, session env h r = Response resp /\ P resp.

(** [c] is the DELETE of the object [u] of the resolved bucket. *)
Definition deletes (env : Env) (u : string) (c : call) : Prop :=
  exists b hdrs,
    get_bucket_name env = Ok b /\
    c = Http {| meth := DELETE; url := Some (object_url b u); headers := hdrs;
                params := []; data := NoData |}.

(** From [st] to [st'] the data manager is untouched and every call made
    satisfies [P]. *)
Definition only_calls (P : call -> Prop) (st st' : State) : Prop :=
  dm st' = dm st /\
  exists new, calls st' = (calls st ++ new)%list /\ Forall P new.

(** The key [k] has the marker of a compound key: ["::" in k]. *)
Definition marked (k : value) : Prop := contains k "::" = Ok true.

(** [c] is a GET of the session, or a batch that deletes marked keys only. *)
Definition lists_or_deletes_marked (c : call) : Prop :=
  match c with
  | Http r => meth r = GET
  | Batch _ keys => Forall marked keys
  end.

(** The JSON of a page of the listing: its items and, unless it is the
    last, the token of the next page. *)
Definition page (items : list value) (next : option string) : value :=
  VDict (("items", VList items)
         :: match next with
            | Some token => [("nextPageToken", VStr token)]
            | None => []
            end).

(** The service serves the pages in order: once [base + k] calls were
    made, the next request is answered 200 with the page of rank [k]. *)
Definition serves (env : Env) (base : nat) (pages : list (list value * option string))
  : Prop :=
  forall k items next h r,
    nth_error pages k = Some (items, next) ->
    List.length h = (base + k)%nat ->
    exists resp,
      session env h r = Response resp /\
      status resp = 200 /\
      json resp = Ok (page items next).

(* ================================================================== *)
(** ** Scenarios: concrete services and sessions *)
(* ================================================================== *)

Module Scenario.

Definition answer (s : Z) (h : dict string) (body : Result value) : response :=
  {| status := s; resp_headers := h; text := "body"; json := body; content := [] |}.

(** A host with the stored file [file], the default cleanup (always
    clean), and the service [srv]. *)
Definition host (file : option GCloudFile) (srv : list call -> request -> reply) : Env :=
  {| field_get := file;
     cleanup := None;
     generator := fun k => "container/upload-" ++ str (Z.of_nat k);
     creator := VStr "root";
     request_str := "<Request PATCH>";
     container_id := "container";
     dumps := fun _ => "{}";
     parse := fun _ => Ok 0;
     get_bucket_name := Ok "container_bucket";
     get_access_token := Ok (Some "token");
     get_client := Ok tt;
     session := srv;
     batch_responses := fun _ _ keys => Ok (map (fun _ => 204) keys) |}.

Definition dm0 : DataManager :=
  {| upload_file_id := None;
     resumable_uri := Some "https://www.googleapis.com/upload/session-1";
     current_upload := Some 0;
     uri := None;
     filename := Some "report.bin";
     size := Some 6;
     content_type := "application/octet-stream" |}.

Definition st0 : State :=
  {| dm := dm0; calls := []; generated := O; logged := [] |}.

Definition abc : bytes := [Byte.x61; Byte.x62; Byte.x63].
Definition def : bytes := [Byte.x64; Byte.x65; Byte.x66].

(** Every PUT is answered 308 with [Range: bytes=0-5], whatever was sent. *)
Definition stuck_range : Env :=
  host None (fun _ _ => Response (answer 308 [("Range", "bytes=0-5")] (Raise ValueError))).

(** Every request is answered 410. *)
Definition gone : Env :=
  host None (fun _ _ => Response (answer 410 [] (Raise ValueError))).

(** The first PUT is answered 308 with [bytes=0-2], the next with
    [bytes=0-5]. *)
Definition two_chunks : Env :=
  host None (fun h _ =>
    match h with
    | [] => Response (answer 308 [("Range", "bytes=0-2")] (Raise ValueError))
    | _ => Response (answer 308 [("range", "bytes=0-5")] (Raise ValueError))
    end).

(** Every request is answered 500. *)
Definition failing : Env :=
  host None (fun _ _ => Response (answer 500 [] (Raise ValueError))).

(** A finished object [container/old] in the field, a new upload
    [container/new] ready to be promoted. *)
Definition old_file : GCloudFile :=
  {| file_uri := Some "container/old"; file_filename := Some "report.bin" |}.

Definition dm_new : DataManager :=
  {| upload_file_id := Some "container/new";
     resumable_uri := Some "https://www.googleapis.com/upload/session-2";
     current_upload := Some 6;
     uri := Some "container/old";
     filename := Some "report.bin";
     size := Some 6;
     content_type := "application/octet-stream" |}.

Definition st_new : State :=
  {| dm := dm_new; calls := []; generated := 1%nat; logged := [] |}.

(** The old object cannot be deleted: every request is answered 500. *)
Definition undeletable : Env :=
  host (Some old_file) (fun _ _ => Response (answer 500 [] (Raise ValueError))).

(** The service cannot be reached: every request fails to connect. *)
Definition unreachable : Env :=
  host (Some old_file) (fun _ _ => Failure ClientConnectorError).

(** A stored object of eight bytes; the service honours a [Range] header
    when it gets one (206 with the bytes asked for, here 2 to 4), and sends
    the whole object otherwise. *)
Definition doc_file : GCloudFile :=
  {| file_uri := Some "container/doc"; file_filename := Some "doc.txt" |}.

Definition doc : bytes :=
  [Byte.x61; Byte.x62; Byte.x63; Byte.x64; Byte.x65; Byte.x66; Byte.x67; Byte.x68].

Definition ranged : Env :=
  host (Some doc_file) (fun _ r =>
    match dict_get (headers r) "Range" with
    | Some _ =>
        Response {| status := 206; resp_headers := []; text := "";
                    json := Raise ValueError;
                    content := [[Byte.x63; Byte.x64; Byte.x65]] |}
    | None =>
        Response {| status := 200; resp_headers := []; text := "";
                    json := Raise ValueError; content := [doc] |}
    end).

(** Every request is answered 403 with the error body of a denied
    permission. *)
Definition error_body (reason : string) : value :=
  VDict [("error", VDict [("code", VInt 403);
                          ("errors", VList [VDict [("domain", VStr "global");
                                                   ("reason", VStr reason)]])])].

Definition forbidden : Env :=
  host None (fun _ _ => Response (answer 403 [] (Ok (error_body "forbidden")))).

(** Every request is answered 403 with a body that is not JSON. *)
Definition forbidden_plain : Env :=
  host None (fun _ _ => Response (answer 403 [] (Raise ValueError))).

(** The google client answers a batch with the given status codes. *)
Definition batch_host (codes : list Z) : Env :=
  {| field_get := None;
     cleanup := None;
     generator := fun k => "container/upload-" ++ str (Z.of_nat k);
     creator := VStr "root";
     request_str := "<Request DELETE>";
     container_id := "container";
     dumps := fun _ => "{}";
     parse := fun _ => Ok 0;
     get_bucket_name := Ok "container_bucket";
     get_access_token := Ok (Some "token");
     get_client := Ok tt;
     session := fun _ _ => Failure ClientConnectorError;
     batch_responses := fun _ _ _ => Ok codes |}.

(** A listing served page after page, whatever the request. *)
Definition listing (pages : list (list value * option string)) : Env :=
  host None (fun h _ =>
    match nth_error pages (List.length h) with
    | Some (items, next) => Response (answer 200 [] (Ok (page items next)))
    | None => Failure ClientConnectorError
    end).

Definition three_pages : list (list value * option string) :=
  [([VStr "container/a"; VStr "container/b"], Some "token-1");
   ([VStr "container/c"], Some "token-2");
   ([VStr "container/d"], None)].

(** Three pages of which the second is empty. *)
Definition sparse_pages : list (list value * option string) :=
  [([VStr "container/a"], Some "token-1");
   ([], Some "token-2");
   ([VStr "container/b"], None)].

(** A stored file whose uri is a compound key, and the listing of its
    prefix: two keys with the marker, one without. *)
Definition compound_file : GCloudFile :=
  {| file_uri := Some "container/x::1"; file_filename := Some "x.bin" |}.

Definition blob (name : string) : value :=
  VDict [("name", VStr name); ("bucket", VStr "container_bucket");
         ("timeCreated", VStr "2020-01-01T00:00:00Z"); ("size", VStr "6")].

Definition compound : Env :=
  host (Some compound_file) (fun _ _ =>
    Response (answer 200 []
      (Ok (page [blob "container/x::1"; blob "container/x::2"; blob "container/xy"]
             None)))).

(** A stored file whose uri has no marker. *)
Definition plain : Env :=
  host (Some doc_file) (fun _ _ => Response (answer 200 [] (Ok (page [] None)))).

End Scenario.

(* ================================================================== *)
(** ** Vocabulary of the statements on uploads *)
(* ================================================================== *)

(** The number of bytes of a sequence of chunks. *)
Fixpoint total (chunks : list bytes) : Z :=
  match chunks with
  | [] => 0
  | chunk :: rest => len chunk + total rest
  end.

(** The PUT requests of the chunks sent one after the other from [offset]. *)
Fixpoint puts (d : DataManager) (chunks : list bytes) (offset : Z) : list call :=
  match chunks with
  | [] => []
  | chunk :: rest => Http (put_request d chunk offset) :: puts d rest (offset + len chunk)
  end.

(** The service acknowledges the chunks one by one: once [base] calls and
    the chunks [before] went, the PUT of the next chunk is answered 308 with
    a [Range] header whose upper bound is the last byte received so far. *)
Definition acknowledges (env : Env) (d : DataManager) (base : nat) (offset : Z)
    (chunks : list bytes) : Prop :=
  forall before chunk after h,
    chunks = (before ++ chunk :: after)%list ->
    List.length h = (base + List.length before)%nat ->
    exists resp range_header,
      session env h (put_request d chunk (offset + total before)) = Response resp /\
      status resp = 308 /\
      header_get (resp_headers resp) "Range" = Some range_header /\
      int_of_str (last (split range_header "-")) = Some (offset + total before + len chunk - 1).

(** What a try can end with for the retry policy to call again: a response
    with a status [_append] turns into [GoogleCloudException], or a failure
    of the call with an exception of a retriable class. *)
Definition transient (r : reply) : Prop :=
  match r with
  | Response resp => ~ In (status resp) [200; 201; 308; 410]
  | Failure e => RETRIABLE_EXCEPTIONS e = true
  end.

Module Cases.

(** The first request is answered 503, the next ones 308 with
    [Range: bytes=0-2]. *)
Definition flaky : Env :=
  Scenario.host None (fun h _ =>
    match h with
    | [] => Response (Scenario.answer 503 [] (Raise ValueError))
    | _ => Response (Scenario.answer 308 [("Range", "bytes=0-2")] (Raise ValueError))
    end).

(** Every request is answered 201. *)
Definition created : Env :=
  Scenario.host None (fun _ _ => Response (Scenario.answer 201 [] (Raise ValueError))).

(** Every request is answered 308 without a [Range] header. *)
Definition no_range : Env :=
  Scenario.host None (fun _ _ => Response (Scenario.answer 308 [] (Raise ValueError))).

End Cases.

(* ================================================================== *)
(** ** Vocabulary of the statements on downloads *)
(* ================================================================== *)

(** The request [iter_data] makes for the object [u] of the bucket [b] with
    the token [t]. *)
Definition media_request (b : string) (t : option string) (u : string) : request :=
  {| meth := GET; url := Some (object_url b u); headers := bearer t;
     params := [("alt", VStr "media")]; data := NoData |}.

Module Downloads.

(** The object [container/doc] read in three pieces. *)
Definition pieces : Env :=
  Scenario.host (Some Scenario.doc_file) (fun _ _ =>
    Response {| status := 206; resp_headers := []; text := EmptyString;
                json := Raise ValueError;
                content := [[Byte.x61; Byte.x62]; [Byte.x63]; [Byte.x64; Byte.x65]] |}).

(** Every request is answered 401. *)
Definition unauthorized : Env :=
  Scenario.host (Some Scenario.doc_file) (fun _ _ =>
    Response (Scenario.answer 401 [] (Raise ValueError))).

End Downloads.

(* ================================================================== *)
(** ** Vocabulary of the statements on deletions and [start] *)
(* ================================================================== *)

(** The request [delete_upload] makes for the object [u] of the bucket [b]
    with the token [t]. *)
Definition delete_request (b : string) (t : option string) (u : string) : request :=
  {| meth := DELETE; url := Some (object_url b u); headers := bearer t;
     params := []; data := NoData |}.

(** The calls [start] makes before its initiate request: the DELETE of the
    prior unfinished upload, when the data manager holds one. *)
Definition prior_delete (b : string) (t : option string) (d : DataManager) : list call :=
  match upload_file_id d with
  | Some id => [Http (delete_request b t id)]
  | None => []
  end.

Module Deletions.

(** Every request is answered 404. *)
Definition absent : Env :=
  Scenario.host None (fun _ _ => Response (Scenario.answer 404 [] (Raise ValueError))).

(** Every request is answered 403 for a retention policy. *)
Definition retained : Env :=
  Scenario.host None (fun _ _ =>
    Response (Scenario.answer 403 [] (Ok (Scenario.error_body "retentionPolicyNotMet")))).

(** A session that holds an unfinished upload. *)
Definition dm_pending : DataManager :=
  {| upload_file_id := Some "container/upload-0";
     resumable_uri := Some "https://www.googleapis.com/upload/session-1";
     current_upload := Some 3;
     uri := None;
     filename := Some "report.bin";
     size := Some 6;
     content_type := "application/octet-stream" |}.

Definition st_pending : State :=
  {| dm := dm_pending; calls := []; generated := 1%nat; logged := [] |}.

(** A DELETE is answered 204; a POST 200 with the uri of a new session. *)
Definition ready : Env :=
  Scenario.host None (fun _ r =>
    match meth r with
    | POST => Response (Scenario.answer 200
                          [("Location", "https://www.googleapis.com/upload/session-2")]
                          (Raise ValueError))
    | _ => Response (Scenario.answer 204 [] (Raise ValueError))
    end).

(** A DELETE is answered 204; a POST 200 without a [Location] header. *)
Definition lost : Env :=
  Scenario.host None (fun _ r =>
    match meth r with
    | POST => Response (Scenario.answer 200 [] (Raise ValueError))
    | _ => Response (Scenario.answer 204 [] (Raise ValueError))
    end).

End Deletions.

(* ================================================================== *)
(** ** Vocabulary of the statements on listings and batches *)
(* ================================================================== *)

(** The number of batches in a log of calls. *)
Definition count_batches (l : list call) : nat :=
  List.length
    (filter (fun c => match c with
                      | Batch _ _ => true
                      | Http _ => false
                      end) l).

(** The test [delete_blobs] makes on the status code of an item. *)
Definition counted_success (status_code : Z) : bool :=
  (200 <=? status_code) && (status_code <=? 300).

(** [c] is a GET whose [prefix] parameter is not empty: it is the prefix
    given, or else the one of the container. *)
Definition scoped_listing (env : Env) (prefix : option string) (c : call) : Prop :=
  exists r p,
    c = Http r /\ meth r = GET /\
    dict_get (params r) "prefix" = Some (VStr p) /\
    p <> EmptyString /\
    (prefix = Some p \/ p = (container_id env ++ "/")%string).

Module Prefixes.

(** The listing of a prefix under which no key has the marker. *)
Definition unmarked : Env :=
  Scenario.host (Some Scenario.compound_file) (fun _ _ =>
    Response (Scenario.answer 200 []
      (Ok (page [Scenario.blob "container/xy"; Scenario.blob "container/xz"] None)))).

(** The listing of [Scenario.compound], with a google client whose batch
    answers 204 for the first key and 500 for the second. *)
Definition half_deleted : Env :=
  {| field_get := Some Scenario.compound_file;
     cleanup := None;
     generator := fun k => "container/upload-" ++ str (Z.of_nat k);
     creator := VStr "root";
     request_str := "<Request DELETE>";
     container_id := "container";
     dumps := fun _ => "{}";
     parse := fun _ => Ok 0;
     get_bucket_name := Ok "container_bucket";
     get_access_token := Ok (Some "token");
     get_client := Ok tt;
     session := fun _ _ =>
       Response (Scenario.answer 200 []
         (Ok (page [Scenario.blob "container/x::1"; Scenario.blob "container/x::2";
                    Scenario.blob "container/xy"] None)));
     batch_responses := fun _ _ _ => Ok [204; 500] |}.

(** A first page without the [items] key, but with the token of a next
    page. *)
Definition no_items : Env :=
  Scenario.host None (fun _ _ =>
    Response (Scenario.answer 200 []
      (Ok (VDict [("kind", VStr "storage#objects"); ("nextPageToken", VStr "token-1")])))).

End Prefixes.

(* ================================================================== *)
(** ** [GCloudFileManager.exists] and [GCloudFileManager.copy] *)
(* ================================================================== *)

(** The request of [exists] for the object [u]: a plain GET, with no
    parameter. *)
Definition probe_request (b : string) (t : option string) (u : string) : request :=
  {| meth := GET; url := Some (object_url b u); headers := bearer t;
     params := []; data := NoData |}.

(** The body of [exists] (the name is a keyword here, hence the
    underscore). *)
Definition exists_try (env : Env) : M bool :=
  let file := field_get env in
  if negb (_is_uploaded_file file)
  then ret false
  else
    match file with
    | Some f =>
        bucket <- lift (get_bucket_name env) ;;
        let url := option_map (object_url bucket) (file_uri f) in
        hdrs <- get_headers env ;;
        api_resp <- http env {| meth := GET; url := url; headers := hdrs;
                                params := []; data := NoData |} ;;
        ret (status api_resp =? 200)
    | None => ret false
    end.

Definition exists_ (env : Env) : M bool := on_exception 4 (exists_try env).

(** The values [copy] hands to [to_dm.finish]. *)
Record CopyValues : Type := {
  copy_content_type : value;
  copy_size : Z;
  copy_uri : string;
  copy_filename : string
}.

Definition copy_url (bucket_name uri new_uri : string) : string :=
  OBJECT_BASE_URL ++ "/" ++ bucket_name ++ "/o/" ++ quote_plus uri
    ++ "/copyTo/b/" ++ bucket_name ++ "/o/" ++ quote_plus new_uri.

Definition copy_warning : string := "Could not copy file".

(** [file.filename or "unknown"]. *)
Definition filename_or_unknown (file : GCloudFile) : string :=
  match file_filename file with
  | Some name => if String.eqb name EmptyString then "unknown" else name
  | None => "unknown"
  end.

(** The body of [copy].  Its last action is [to_dm.finish(values=...)] on
    the data manager of the destination, which is not part of the state
    here: the model returns the values it is called with. *)
Definition copy_try (env : Env) : M CopyValues :=
  let file := field_get env in
  if negb (_is_uploaded_file file)
  then raise HTTPNotFound
  else
    match file with
    | Some f =>
        new_uri <- generate env ;;
        bucket_name <- lift (get_bucket_name env) ;;
        let url := option_map (fun u => copy_url bucket_name u new_uri) (file_uri f) in
        hdrs <- get_headers env ;;
        let hdrs := dict_update hdrs [("Content-Type", "application/json")] in
        resp <- http env {| meth := POST; url := url; headers := hdrs;
                            params := []; data := NoData |} ;;
        if status resp =? 404
        then log WARNING copy_warning ;;; raise HTTPNotFound
        else
          data <- lift (json resp) ;;
          name <- lift (getitem data "name") ;;
          if negb (value_is_str name new_uri)
          then raise AssertionError
          else
            content_type <- lift (getitem data "contentType") ;;
            size <- lift (getitem data "size") ;;
            size <- lift (int size) ;;
            ret {| copy_content_type := content_type;
                   copy_size := size;
                   copy_uri := new_uri;
                   copy_filename := filename_or_unknown f |}
    | None => raise HTTPNotFound
    end.

Definition copy (env : Env) : M CopyValues := on_exception 10 (copy_try env).

Module Copies.

(** The service cannot be reached: every call fails with a connection
    error. *)
Definition offline : Env :=
  Scenario.host (Some Scenario.doc_file) (fun _ _ => Failure ClientConnectorError).

(** Every request is answered 500. *)
Definition broken : Env :=
  Scenario.host (Some Scenario.doc_file) (fun _ _ =>
    Response (Scenario.answer 500 [] (Raise ValueError))).

(** Every request is answered 404. *)
Definition missing : Env :=
  Scenario.host (Some Scenario.doc_file) (fun _ _ =>
    Response (Scenario.answer 404 [] (Raise ValueError))).

(** The copy of [container/doc] to the first generated name succeeds. *)
Definition copied : Env :=
  Scenario.host (Some Scenario.doc_file) (fun _ _ =>
    Response (Scenario.answer 200 []
      (Ok (VDict [("kind", VStr "storage#object");
                  ("name", VStr "container/upload-0");
                  ("contentType", VStr "text/plain");
                  ("size", VStr "8")])))).

End Copies.

(** The request of [copy] from the object [u] to the name [new_uri]. *)
Definition copy_request (b : string) (t : option string) (u new_uri : string) : request :=
  {| meth := POST; url := Some (copy_url b u new_uri);
     headers := dict_update (bearer t) [("Content-Type", "application/json")];
     params := []; data := NoData |}.

(* ================================================================== *)
(** ** Vocabulary of the statements on object URLs *)
(* ================================================================== *)

(** Every character of [s] satisfies [p]. *)
Fixpoint all_chars (p : ascii -> bool) (s : string) : bool :=
  match s with
  | EmptyString => true
  | String c s' => p c && all_chars p s'
  end.

(** The characters an encoded object name is made of: letters, digits,
    [_.-~], and the [+] and [%] of the encoding. *)
Definition encoded_char (c : ascii) : bool :=
  always_safe c || Ascii.eqb c "+" || Ascii.eqb c "%".

(* ================================================================== *)
(** ** The bucket resolver of [GCloudBlobStore] *)
(* ================================================================== *)

(** [get_bucket_name] and the methods it calls, on the google client.  The
    state is the cache of resolved names, the log of the calls made on the
    client and the log of messages. *)
Module Buckets.

(** The exceptions of [google.cloud.exceptions] and [google.api_core] the
    module names, and any other. *)
Inductive client_exn : Type :=
| NotFound
| Conflict
| Forbidden
| TooManyRequests
| ServiceUnavailable
| Unexpected.

Inductive failure : Type :=
| Framework (e : exn)
| Google (e : client_exn).

Inductive Outcome (A : Type) : Type :=
| Fine (a : A)
| Failed (f : failure).
Arguments Fine {A} a.
Arguments Failed {A} f.

(** What the module reads of a bucket: its labels ([None] when the object
    has no [labels] attribute) and the uniform access flag of its IAM
    configuration. *)
Record Bucket : Type := {
  labels : option (dict string);
  bucket_policy_only_enabled : bool
}.

Inductive client_call : Type :=
| GetBucket (name : string)
| Create (name : string) (with_project_and_location : bool)
| Patch (name : string) (new_labels : dict string) (policy : bool).

(** A piece of [bucket_name_format]: a literal, or one of the fields
    [{container}], [{delimiter}], [{base}]. *)
Inductive piece : Type :=
| Lit (s : string)
| Container
| Delimiter
| Base.

(** The settings of the utility. *)
Record Settings : Type := {
  _bucket_name : string;
  _bucket_name_format : list piece;
  _bucket_labels : dict string;
  _uniform_bucket_level_access : bool
}.

(** [task_vars.container.get()]: its id and [getattr(container,
    "bucket_override", None)]. *)
Record ContainerVar : Type := {
  id : string;
  bucket_override : option string
}.

(** The google client, which answers a call knowing the calls before it. *)
Record Client : Type := {
  get_client : Outcome unit;
  get_bucket : list client_call -> string -> Outcome Bucket;
  create : list client_call -> string -> bool -> Outcome Bucket;
  patch : list client_call -> string -> dict string -> bool -> Outcome unit
}.

Record RState : Type := {
  _cached_buckets : list string;
  client_calls : list client_call;
  messages : list (level * string)
}.

Definition R (A : Type) : Type := RState -> Outcome A * RState.

Definition pure {A} (a : A) : R A := fun st => (Fine a, st).

Definition fail {A} (f : failure) : R A := fun st => (Failed f, st).

Definition and_then {A B} (c : R A) (k : A -> R B) : R B :=
  fun st =>
    match c st with
    | (Fine a, st') => k a st'
    | (Failed f, st') => (Failed f, st')
    end.

(** [try: c except ...]: [handler] gives the body of the clause that
    catches the exception, if one does. *)
Definition rescue {A} (c : R A) (handler : failure -> option (R A)) : R A :=
  fun st =>
    match c st with
    | (Failed f, st') =>
        match handler f with
        | Some h => h st'
        | None => (Failed f, st')
        end
    | done => done
    end.

Definition said (l : level) (msg : string) : R unit :=
  fun st =>
    (Fine tt, {| _cached_buckets := _cached_buckets st;
                 client_calls := client_calls st;
                 messages := messages st ++ [(l, msg)] |}).

Definition called (c : client_call) (st : RState) : RState :=
  {| _cached_buckets := _cached_buckets st;
     client_calls := client_calls st ++ [c];
     messages := messages st |}.

(** A call on the client, logged. *)
Definition on_client {A} (c : client_call) (answer : list client_call -> Outcome A) : R A :=
  fun st => (answer (client_calls st), called c st).

(** [self.get_client()]. *)
Definition the_client (client : Client) : R unit := fun st => (get_client client, st).

(** [check_bucket_accessibility]: the client is fetched outside the [try];
    every exception of [client.get_bucket] gives [False]. *)
Definition check_bucket_accessibility (client : Client) (bucket_name : string) : R bool :=
  and_then (the_client client) (fun _ =>
  rescue
    (and_then (on_client (GetBucket bucket_name)
                 (fun h => get_bucket client h bucket_name))
       (fun _ => pure true))
    (fun f =>
       Some
         match f with
         | Google NotFound =>
             and_then (said WARNING "Bucket not found") (fun _ => pure false)
         | Google Forbidden =>
             and_then (said WARNING "Forbidden to access bucket") (fun _ => pure false)
         | _ =>
             and_then (said ERROR "Error checking accessibility for bucket")
               (fun _ => pure false)
         end)).

(** [_create_bucket]: a second [create], without project and location,
    when the first raises [TypeError]. *)
Definition _create_bucket (client : Client) (bucket_name : string) : R Bucket :=
  rescue
    (on_client (Create bucket_name true) (fun h => create client h bucket_name true))
    (fun f =>
       match f with
       | Framework TypeError =>
           Some (on_client (Create bucket_name false)
                   (fun h => create client h bucket_name false))
       | _ => None
       end).

(** Equality of two dicts, whatever the order of their keys. *)
Definition dict_eqb (a b : dict string) : bool :=
  Nat.eqb (List.length a) (List.length b) &&
  forallb (fun kv =>
             match dict_get b (fst kv) with
             | Some v => String.eqb v (snd kv)
             | None => false
             end) a.

(** The messages of the log, without the bucket and container names the
    source formats into them. *)
Definition create_warning : string := "We needed to create bucket".
Definition patch_warning : string := "Insufficient permission to update bucket labels".

(** The labels [_get_or_create_bucket] wants on the bucket: those it has,
    the id of the container, the labels of the settings. *)
Definition wanted_labels (settings : Settings) (container : ContainerVar) (bucket : Bucket)
  : dict string :=
  let labels := match labels bucket with Some l => l | None => [] end in
  dict_update (dict_set labels "container" (lower (id container)))
    (_bucket_labels settings).

Definition _get_or_create_bucket (settings : Settings) (client : Client)
    (container : ContainerVar) (bucket_name : string) : R Bucket :=
  and_then
    (rescue
       (on_client (GetBucket bucket_name) (fun h => get_bucket client h bucket_name))
       (fun f =>
          match f with
          | Google NotFound =>
              Some
                (rescue
                   (and_then (_create_bucket client bucket_name) (fun bucket =>
                    and_then (said WARNING create_warning) (fun _ => pure bucket)))
                   (fun f =>
                      match f with
                      | Google Conflict =>
                          Some (on_client (GetBucket bucket_name)
                                  (fun h => get_bucket client h bucket_name))
                      | _ => None
                      end))
          | _ => None
          end))
    (fun bucket =>
       let orig_labels := match labels bucket with Some l => l | None => [] end in
       let labels := wanted_labels settings container bucket in
       if negb (dict_eqb orig_labels labels) ||
          negb (Bool.eqb (bucket_policy_only_enabled bucket)
                  (_uniform_bucket_level_access settings))
       then
         let patched :=
           {| labels := Some labels;
              bucket_policy_only_enabled := _uniform_bucket_level_access settings |} in
         and_then
           (rescue
              (on_client
                 (Patch bucket_name labels (_uniform_bucket_level_access settings))
                 (fun h => patch client h bucket_name labels
                             (_uniform_bucket_level_access settings)))
              (fun f =>
                 match f with
                 | Google Conflict | Google TooManyRequests | Google ServiceUnavailable =>
                     Some (pure tt)
                 | Google Forbidden => Some (said WARNING patch_warning)
                 | _ => None
                 end))
           (fun _ => pure patched)
       else pure bucket).

(** [bucket_name_format.format(container=..., delimiter=..., base=...)]. *)
Fixpoint format (template : list piece) (container delimiter base : string) : string :=
  match template with
  | [] => EmptyString
  | Lit s :: rest => s ++ format rest container delimiter base
  | Container :: rest => container ++ format rest container delimiter base
  | Delimiter :: rest => delimiter ++ format rest container delimiter base
  | Base :: rest => base ++ format rest container delimiter base
  end.

Definition default_format : list piece := [Container; Delimiter; Base].

(** The name the settings give to the bucket of a container. *)
Definition formatted_name (settings : Settings) (container : ContainerVar) : string :=
  let char_delimiter := if str_in "." (_bucket_name settings) then "." else "_" in
  format (_bucket_name_format settings) (lower (id container)) char_delimiter
    (_bucket_name settings).

Definition override_error : string := "GCS bucket override is not accessible".

(** The body of [get_bucket_name]. *)
Definition get_bucket_name_try (settings : Settings) (client : Client)
    (container : ContainerVar) : R string :=
  let gcs_bucket_override :=
    match bucket_override container with
    | Some o => if String.eqb o EmptyString then None else Some o
    | None => None
    end in
  match gcs_bucket_override with
  | Some o =>
      and_then (check_bucket_accessibility client o) (fun accessible =>
      if negb accessible
      then and_then (said ERROR override_error)
             (fun _ => fail (Framework HTTPPreconditionFailed))
      else pure o)
  | None =>
      let bucket_name := formatted_name settings container in
      fun st =>
        if existsb (String.eqb bucket_name) (_cached_buckets st)
        then (Fine bucket_name, st)
        else
          and_then (the_client client) (fun _ =>
          and_then (_get_or_create_bucket settings client container bucket_name) (fun _ =>
          fun st' =>
            (Fine bucket_name,
             {| _cached_buckets := _cached_buckets st' ++ [bucket_name];
                client_calls := client_calls st';
                messages := messages st' |}))) st
  end.

(** [backoff.on_exception] on the resolver: only the exceptions of
    [RETRIABLE_EXCEPTIONS] are retried, none of which is an exception of
    the google client. *)
Definition retriable (f : failure) : bool :=
  match f with
  | Framework e => RETRIABLE_EXCEPTIONS e
  | Google _ => false
  end.

Fixpoint retrying {A} (more : nat) (target : R A) : R A :=
  fun st =>
    match target st with
    | (Failed f, st') =>
        if retriable f
        then match more with
             | S k => retrying k target st'
             | O => (Failed f, st')
             end
        else (Failed f, st')
    | done => done
    end.

Definition get_bucket_name (settings : Settings) (client : Client)
    (container : ContainerVar) : R string :=
  retrying (Nat.pred 10) (get_bucket_name_try settings client container).

End Buckets.

(* ================================================================== *)
(** ** Vocabulary and scenarios of the statements on buckets *)
(* ================================================================== *)

(** The bucket already has the labels and the access flag the settings
    want: [_get_or_create_bucket] finds nothing to patch. *)
Definition reconciled (settings : Buckets.Settings) (container : Buckets.ContainerVar)
    (bucket : Buckets.Bucket) : bool :=
  Buckets.dict_eqb
    (match Buckets.labels bucket with Some l => l | None => [] end)
    (Buckets.wanted_labels settings container bucket) &&
  Bool.eqb (Buckets.bucket_policy_only_enabled bucket)
    (Buckets._uniform_bucket_level_access settings).

(** The container has no usable override: none, or an empty one. *)
Definition no_override (container : Buckets.ContainerVar) : Prop :=
  Buckets.bucket_override container = None \/
  Buckets.bucket_override container = Some EmptyString.

Module Resolving.

Definition settings0 : Buckets.Settings :=
  {| Buckets._bucket_name := "files.example.com";
     Buckets._bucket_name_format := Buckets.default_format;
     Buckets._bucket_labels := [("team", "storage")];
     Buckets._uniform_bucket_level_access := true |}.

Definition container0 : Buckets.ContainerVar :=
  {| Buckets.id := "Container"; Buckets.bucket_override := None |}.

Definition overridden : Buckets.ContainerVar :=
  {| Buckets.id := "Container"; Buckets.bucket_override := Some "shared-bucket" |}.

Definition fresh : Buckets.RState :=
  {| Buckets._cached_buckets := []; Buckets.client_calls := []; Buckets.messages := [] |}.

Definition settled : Buckets.Bucket :=
  {| Buckets.labels := Some [("container", "container"); ("team", "storage")];
     Buckets.bucket_policy_only_enabled := true |}.

Definition bare : Buckets.Bucket :=
  {| Buckets.labels := Some []; Buckets.bucket_policy_only_enabled := false |}.

(** A client that knows every bucket, already settled. *)
Definition steady : Buckets.Client :=
  {| Buckets.get_client := Buckets.Fine tt;
     Buckets.get_bucket := fun _ _ => Buckets.Fine settled;
     Buckets.create := fun _ _ _ => Buckets.Failed (Buckets.Google Buckets.Conflict);
     Buckets.patch := fun _ _ _ _ => Buckets.Fine tt |}.

(** A client that may not see any bucket. *)
Definition denied : Buckets.Client :=
  {| Buckets.get_client := Buckets.Fine tt;
     Buckets.get_bucket := fun _ _ => Buckets.Failed (Buckets.Google Buckets.Forbidden);
     Buckets.create := fun _ _ _ => Buckets.Failed (Buckets.Google Buckets.Forbidden);
     Buckets.patch := fun _ _ _ _ => Buckets.Failed (Buckets.Google Buckets.Forbidden) |}.

(** The bucket is not there at first, and another process creates it
    before this one does. *)
Definition raced : Buckets.Client :=
  {| Buckets.get_client := Buckets.Fine tt;
     Buckets.get_bucket := fun h _ =>
       match h with
       | [] => Buckets.Failed (Buckets.Google Buckets.NotFound)
       | _ => Buckets.Fine settled
       end;
     Buckets.create := fun _ _ _ => Buckets.Failed (Buckets.Google Buckets.Conflict);
     Buckets.patch := fun _ _ _ _ => Buckets.Fine tt |}.

(** The bucket exists without labels, and may not be patched. *)
Definition unpatchable : Buckets.Client :=
  {| Buckets.get_client := Buckets.Fine tt;
     Buckets.get_bucket := fun _ _ => Buckets.Fine bare;
     Buckets.create := fun _ _ _ => Buckets.Failed (Buckets.Google Buckets.Conflict);
     Buckets.patch := fun _ _ _ _ => Buckets.Failed (Buckets.Google Buckets.Forbidden) |}.

End Resolving.

(** A step of the resolver that leaves the cache of bucket names as it
    finds it, whatever its outcome. *)
Definition keeps_cache {A} (c : Buckets.R A) : Prop :=
  forall st, Buckets._cached_buckets (snd (c st)) = Buckets._cached_buckets st.

(** The state after a resolution that put [name] in the cache, having
    made the calls [made] and logged [logged]. *)
Definition resolved (st : Buckets.RState) (name : string)
    (made : list Buckets.client_call) (logged : list (level * string)) : Buckets.RState :=
  {| Buckets._cached_buckets := Buckets._cached_buckets st ++ [name];
     Buckets.client_calls := Buckets.client_calls st ++ made;
     Buckets.messages := Buckets.messages st ++ logged |}.


(* ================================================================== *)
(** * Properties *)
(* ================================================================== *)

(** ** The retry policy *)

Section RetryPolicy.

Context {A : Type}.
Variable target : M A.

Lemma retry_returns more st a st' :
  target st = (Ok a, st') -> retry more target st = (Ok a, st').
Proof.
  intros H. destruct more; simpl; rewrite H; reflexivity.
Qed.

Lemma retry_not_retriable more st e st' :
  target st = (Raise e, st') ->
  RETRIABLE_EXCEPTIONS e = false ->
  retry more target st = (Raise e, st').
Proof.
  intros H He. destruct more; simpl; rewrite H, He; reflexivity.
Qed.

Lemma retry_again more st e st' :
  target st = (Raise e, st') ->
  RETRIABLE_EXCEPTIONS e = true ->
  retry (S more) target st = retry more target st'.
Proof.
  intros H He. simpl. rewrite H, He. reflexivity.
Qed.

(** A relation between states that every try respects, and that is
    reflexive and transitive, holds across the whole retried call. *)
Lemma retry_preserves (R : State -> State -> Prop) :
  (forall st, R st st) ->
  (forall a b c, R a b -> R b c -> R a c) ->
  (forall st, R st (snd (target st))) ->
  forall more st, R st (snd (retry more target st)).
Proof.
  intros Hrefl Htrans Hstep more.
  induction more as [|more IH]; intros st; simpl;
    specialize (Hstep st); destruct (target st) as [[a|e] st1]; simpl in *; auto;
    destruct (RETRIABLE_EXCEPTIONS e); simpl; auto.
  eapply Htrans; [exact Hstep | apply IH].
Qed.

End RetryPolicy.

Lemma len_nonneg {A} (l : list A) : 0 <= len l.
Proof. unfold len. lia. Qed.

(** ** [_append] and [append] *)

Lemma _append_try_answer env data offset st resp :
  session env (calls st) (put_request (dm st) data offset) = Response resp ->
  _append_try env data offset st =
    (if negb (in_list (status resp) [200; 201; 308])
     then if status resp =? 410 then Raise HTTPGone else Raise GoogleCloudException
     else Ok resp,
     record (Http (put_request (dm st) data offset)) st).
Proof.
  intros H. unfold _append_try, bind, get_dm, http. rewrite H.
  destruct (negb (in_list (status resp) [200; 201; 308])); [|reflexivity].
  destruct (status resp =? 410); reflexivity.
Qed.

Lemma _append_308 env data offset st resp :
  session env (calls st) (put_request (dm st) data offset) = Response resp ->
  status resp = 308 ->
  _append env data offset st =
    (Ok resp, record (Http (put_request (dm st) data offset)) st).
Proof.
  intros H Hs. unfold _append, on_exception. apply retry_returns.
  rewrite (_append_try_answer _ _ _ _ H), Hs. reflexivity.
Qed.

(** C1. When the service answers the PUT of a chunk with 308 and a [Range]
    header whose upper bound is not [offset + len(chunk) - 1], the loop of
    [append] raises [HTTPPreconditionFailed] at once: the chunk was sent
    exactly once (one more call in the log, nothing retried), the rest of
    the chunks is not sent, no count is returned and the data manager, with
    its [current_upload], is as it was.  This holds at every iteration of
    the loop, so in particular for a call of [append] on its first chunk. *)
Theorem append_range_mismatch env chunk rest count offset st resp range_header upper :
  session env (calls st) (put_request (dm st) chunk offset) = Response resp ->
  status resp = 308 ->
  header_get (resp_headers resp) "Range" = Some range_header ->
  int_of_str (last (split range_header "-")) = Some upper ->
  upper <> offset + len chunk - 1 ->
  let st' := record (Http (put_request (dm st) chunk offset)) st in
  RETRIABLE_EXCEPTIONS HTTPPreconditionFailed = false /\
  append_loop env (chunk :: rest) count offset st = (Raise HTTPPreconditionFailed, st') /\
  append env (chunk :: rest) offset st = (Raise HTTPPreconditionFailed, st') /\
  calls st' = (calls st ++ [Http (put_request (dm st) chunk offset)])%list /\
  dm st' = dm st.
Proof.
  intros H Hs Hh Hi Hne st'.
  assert (Hloop : forall c, append_loop env (chunk :: rest) c offset st =
                            (Raise HTTPPreconditionFailed, st')).
  { intros c. simpl. unfold bind at 1. rewrite (_append_308 _ _ _ _ H Hs).
    rewrite Hs. simpl. unfold bind at 1, header. rewrite Hh. unfold ret at 1.
    unfold bind at 1, lift, int_str. rewrite Hi.
    replace (offset + len chunk - 1 =? upper) with false
      by (symmetry; apply Z.eqb_neq; lia).
    reflexivity. }
  repeat split; auto.
  unfold append, bind. rewrite Hloop. reflexivity.
Qed.

(** C2. When the service answers the PUT with 410, [_append] raises
    [HTTPGone], an exception the retry policy does not absorb: the PUT was
    sent once and never again, and [append] lets the exception through
    without sending any further chunk to the resumable URI. *)
Theorem append_gone_is_terminal env chunk rest offset st resp :
  session env (calls st) (put_request (dm st) chunk offset) = Response resp ->
  status resp = 410 ->
  let st' := record (Http (put_request (dm st) chunk offset)) st in
  RETRIABLE_EXCEPTIONS HTTPGone = false /\
  _append env chunk offset st = (Raise HTTPGone, st') /\
  append env (chunk :: rest) offset st = (Raise HTTPGone, st') /\
  calls st' = (calls st ++ [Http (put_request (dm st) chunk offset)])%list.
Proof.
  intros H Hs st'.
  assert (Hput : _append env chunk offset st = (Raise HTTPGone, st')).
  { unfold _append, on_exception. apply retry_not_retriable; [|reflexivity].
    rewrite (_append_try_answer _ _ _ _ H), Hs. reflexivity. }
  repeat split; auto.
  unfold append, bind. simpl. unfold bind. rewrite Hput. reflexivity.
Qed.

Lemma append_loop_grows env iterable :
  forall count offset st c o st',
    append_loop env iterable count offset st = (Ok (c, o), st') ->
    count <= c /\ offset <= o /\ o - offset = c - count.
Proof.
  induction iterable as [|chunk rest IH]; intros count offset st c o st' H.
  - inversion H; subst. lia.
  - cbn [append_loop] in H. unfold bind at 1 in H.
    destruct (_append env chunk offset st) as [[resp|e] st1]; [|discriminate].
    pose proof (len_nonneg chunk) as Hlen.
    destruct (status resp =? 308).
    + unfold bind at 1, header in H.
      destruct (header_get (resp_headers resp) "Range"); [|discriminate].
      unfold ret at 1, bind at 1, lift, int_str in H.
      destruct (int_of_str _); [|discriminate].
      destruct (negb _); [discriminate|].
      apply IH in H. lia.
    + destruct (in_list (status resp) [200; 201]).
      * inversion H; subst. lia.
      * apply IH in H. lia.
Qed.

Lemma append_loop_prefix env sent :
  forall more count offset st c1 o1 st1 c2 o2 st2,
    append_loop env sent count offset st = (Ok (c1, o1), st1) ->
    append_loop env (sent ++ more) count offset st = (Ok (c2, o2), st2) ->
    c1 <= c2 /\ o1 <= o2.
Proof.
  induction sent as [|chunk rest IH]; intros more count offset st c1 o1 st1 c2 o2 st2 H1 H2.
  - inversion H1; subst. simpl in H2. apply append_loop_grows in H2. lia.
  - cbn [append_loop app] in H1, H2. unfold bind at 1 in H1. unfold bind at 1 in H2.
    destruct (_append env chunk offset st) as [[resp|e] st0]; [|discriminate].
    destruct (status resp =? 308).
    + unfold bind at 1, header in H1. unfold bind at 1, header in H2.
      destruct (header_get (resp_headers resp) "Range"); [|discriminate].
      unfold ret at 1, bind at 1, lift, int_str in H1.
      unfold ret at 1, bind at 1, lift, int_str in H2.
      destruct (int_of_str _); [|discriminate].
      destruct (negb _); [discriminate|].
      eapply IH; eauto.
    + destruct (in_list (status resp) [200; 201]).
      * inversion H1; inversion H2; subst. lia.
      * eapply IH; eauto.
Qed.

(** C3. The offset [append] tracks never decreases: the offset (and the
    count) the loop holds after one more chunk was sent with success is at
    least the offset after the chunks before it; and a call of [append]
    that returns gives a count of at least 0, so the offset its caller
    advances by that count does not decrease either. *)
Theorem append_offset_monotone env sent chunk count offset st c1 o1 st1 c2 o2 st2 :
  append_loop env sent count offset st = (Ok (c1, o1), st1) ->
  append_loop env (sent ++ [chunk]) count offset st = (Ok (c2, o2), st2) ->
  offset <= o1 /\ o1 <= o2 /\ c1 <= c2 /\
  (forall n st', append env (sent ++ [chunk]) offset st = (Ok n, st') ->
                 0 <= n /\ offset <= offset + n).
Proof.
  intros H1 H2.
  pose proof (append_loop_grows _ _ _ _ _ H1) as G1.
  pose proof (append_loop_prefix _ _ _ _ _ _ H1 H2) as G2.
  repeat split; try lia.
  - unfold append, bind in H.
    destruct (append_loop env (sent ++ [chunk]) 0 offset st) as [[[c o]|e] s] eqn:E;
      [|discriminate].
    apply append_loop_grows in E. inversion H; subst. simpl. lia.
  - unfold append, bind in H.
    destruct (append_loop env (sent ++ [chunk]) 0 offset st) as [[[c o]|e] s] eqn:E;
      [|discriminate].
    apply append_loop_grows in E. inversion H; subst. simpl. lia.
Qed.

(** ** [start] under the retry policy *)

Lemma count_method_record m c st :
  count_method m (calls (record c st)) =
    (count_method m (calls st) +
     count_method m [c])%nat.
Proof.
  unfold count_method. simpl. rewrite filter_app, length_app. reflexivity.
Qed.

Lemma delete_upload_accepted env uri st b t resp :
  get_bucket_name env = Ok b ->
  get_access_token env = Ok t ->
  session env (calls st)
    {| meth := DELETE; url := Some (object_url b uri); headers := bearer t;
       params := []; data := NoData |} = Response resp ->
  In (status resp) [200; 204; 404] ->
  delete_upload env (Some uri) st =
    (Ok tt,
     record (Http {| meth := DELETE; url := Some (object_url b uri);
                     headers := bearer t; params := []; data := NoData |}) st).
Proof.
  intros Hb Ht Hr Hs. unfold delete_upload, on_exception. apply retry_returns.
  unfold delete_upload_try, get_headers, bind, lift, ret, http.
  rewrite Hb. cbv beta iota. rewrite Ht. cbv beta iota. rewrite Hr.
  replace (in_list (status resp) [200; 204; 404]) with true; [reflexivity|].
  simpl in Hs. destruct Hs as [E|[E|[E|[]]]]; rewrite <- E; reflexivity.
Qed.

Lemma start_try_fails env st b t :
  get_bucket_name env = Ok b ->
  get_access_token env = Ok t ->
  answers env POST (fun resp => status resp <> 200) ->
  upload_file_id (dm st) = None \/
    answers env DELETE (fun resp => In (status resp) [200; 204; 404]) ->
  exists st',
    start_try env st = (Raise GoogleCloudException, st') /\
    count_method POST (calls st') = S (count_method POST (calls st)) /\
    dm st' = dm st.
Proof.
  intros Hb Ht Hpost Hprior.
  unfold start_try. unfold bind at 1, get_dm at 1.
  assert (Hdel : exists st1,
    (match upload_file_id (dm st) with
     | Some id => delete_upload env (Some id)
     | None => ret tt
     end) st = (Ok tt, st1) /\
    count_method POST (calls st1) = count_method POST (calls st) /\
    dm st1 = dm st).
  { destruct (upload_file_id (dm st)) as [id|] eqn:E.
    - destruct Hprior as [Hp|Hp]; [discriminate|].
      destruct (Hp (calls st)
                  {| meth := DELETE; url := Some (object_url b id);
                     headers := bearer t; params := []; data := NoData |}
                  eq_refl) as (resp & Hr & Hs).
      eexists. split; [apply (delete_upload_accepted _ _ _ Hb Ht Hr Hs)|].
      rewrite count_method_record. split; [|reflexivity].
      match goal with
      | |- context [count_method POST [?c]] =>
          change (count_method POST [c]) with O
      end. lia.
    - exists st. repeat split; reflexivity. }
  destruct Hdel as (st1 & Hd & Hc & Hdm).
  unfold bind at 1. rewrite Hd.
  unfold bind at 1, generate at 1. unfold bind at 1, lift at 1. rewrite Hb.
  unfold bind at 1, get_dm at 1. unfold bind at 1, get_headers at 1.
  unfold bind at 1, lift at 1. rewrite Ht. unfold ret at 1.
  match goal with
  | |- context [http env ?r] =>
      destruct (Hpost (calls st1) r eq_refl) as (resp & Hr & Hs);
      unfold bind at 1, http at 1; cbn [calls]; rewrite Hr
  end.
  replace (status resp =? 200) with false by (symmetry; apply Z.eqb_neq; exact Hs).
  cbn [negb]. eexists. split; [reflexivity|].
  rewrite count_method_record. cbn [calls dm record]. split; [|exact Hdm].
  rewrite <- Hc.
  match goal with
  | |- context [count_method POST [?c]] =>
      change (count_method POST [c]) with 1%nat
  end. lia.
Qed.

Section RetryExhaustion.

Context {A : Type}.
Variable target : M A.
Variable Inv : State -> Prop.
Variable tries : State -> nat.
Variable e : exn.
Hypothesis retriable : RETRIABLE_EXCEPTIONS e = true.
Hypothesis fails :
  forall st, Inv st ->
    exists st', target st = (Raise e, st') /\ Inv st' /\ tries st' = S (tries st).

(** A target that fails with a retriable exception at every try is
    called once more than the retries allowed, and its last exception
    is the one raised. *)
Lemma retry_exhausted more :
  forall st, Inv st ->
    exists st', retry more target st = (Raise e, st') /\ Inv st' /\
                tries st' = (tries st + S more)%nat.
Proof.
  induction more as [|more IH]; intros st Hst;
    destruct (fails Hst) as (st1 & H1 & I1 & T1).
  - exists st1. simpl. rewrite H1, retriable. repeat split; auto. lia.
  - destruct (IH st1 I1) as (st2 & H2 & I2 & T2).
    exists st2. rewrite (retry_again _ _ _ H1 retriable).
    repeat split; auto. lia.
Qed.

End RetryExhaustion.

(** C4, as the code has it.  A [start] whose initiate-upload request is
    answered with a status other than 200 at every try makes the request
    exactly 10 times (the [max_tries] of its retry policy), then raises the
    [GoogleCloudException] of the last try; the data manager is untouched.
    The prior unfinished upload, if any, is deleted with success at each
    try. *)
Theorem start_retry_exhaustion env st b t :
  get_bucket_name env = Ok b ->
  get_access_token env = Ok t ->
  answers env POST (fun resp => status resp <> 200) ->
  upload_file_id (dm st) = None \/
    answers env DELETE (fun resp => In (status resp) [200; 204; 404]) ->
  exists st',
    start env st = (Raise GoogleCloudException, st') /\
    count_method POST (calls st') = (count_method POST (calls st) + 10)%nat /\
    dm st' = dm st.
Proof.
  intros Hb Ht Hpost Hprior.
  destruct (@retry_exhausted unit (start_try env)
              (fun s => dm s = dm st) (fun s => count_method POST (calls s))
              GoogleCloudException eq_refl) with (more := 9%nat) (st := st)
    as (st' & H & I & T); [|reflexivity|].
  - intros s Hs.
    destruct (@start_try_fails env s b t Hb Ht Hpost) as (s' & H1 & H2 & H3).
    + rewrite Hs. exact Hprior.
    + exists s'. repeat split; auto. congruence.
  - exists st'. repeat split; auto.
Qed.

(** C4 as stated fails: against a service that answers every request with
    500, [start] makes the initiate-upload request 10 times, not 5, before
    it raises. *)
Lemma start_five_attempts_counterexample :
  fst (start Scenario.failing Scenario.st0) = Raise GoogleCloudException /\
  count_method POST (calls (snd (start Scenario.failing Scenario.st0))) = 10%nat /\
  count_method POST (calls (snd (start Scenario.failing Scenario.st0))) <> 5%nat.
Proof.
  assert (E : count_method POST (calls (snd (start Scenario.failing Scenario.st0))) = 10%nat)
    by (vm_compute; reflexivity).
  split; [vm_compute; reflexivity|].
  split; [exact E | rewrite E; discriminate].
Qed.

Lemma start_retry_exhaustion_witness :
  exists st',
    start Scenario.failing Scenario.st0 = (Raise GoogleCloudException, st') /\
    count_method POST (calls st') = 10%nat /\
    dm st' = Scenario.dm0.
Proof.
  apply (@start_retry_exhaustion Scenario.failing Scenario.st0
           "container_bucket" (Some "token") eq_refl eq_refl).
  - intros h r _. eexists. split; [reflexivity|]. simpl. lia.
  - left. reflexivity.
Defined.

Lemma append_range_mismatch_witness :
  append Scenario.stuck_range [Scenario.abc; Scenario.def] 0 Scenario.st0 =
    (Raise HTTPPreconditionFailed,
     record (Http (put_request Scenario.dm0 Scenario.abc 0)) Scenario.st0) /\
  dm (record (Http (put_request Scenario.dm0 Scenario.abc 0)) Scenario.st0) = Scenario.dm0.
Proof.
  destruct (@append_range_mismatch Scenario.stuck_range Scenario.abc [Scenario.def]
              0 0 Scenario.st0
              (Scenario.answer 308 [("Range", "bytes=0-5")] (Raise ValueError))
              "bytes=0-5" 5 eq_refl eq_refl eq_refl eq_refl)
    as (_ & _ & H & _ & D).
  - vm_compute. discriminate.
  - split; [exact H | exact D].
Defined.

Lemma append_gone_is_terminal_witness :
  append Scenario.gone [Scenario.abc; Scenario.def] 0 Scenario.st0 =
    (Raise HTTPGone,
     record (Http (put_request Scenario.dm0 Scenario.abc 0)) Scenario.st0).
Proof.
  destruct (@append_gone_is_terminal Scenario.gone Scenario.abc [Scenario.def]
              0 Scenario.st0
              (Scenario.answer 410 [] (Raise ValueError)) eq_refl eq_refl)
    as (_ & _ & H & _).
  exact H.
Defined.

Lemma append_offset_monotone_witness :
  (0 <= 3 /\ 3 <= 6 /\ 3 <= 6) /\
  fst (append Scenario.two_chunks [Scenario.abc; Scenario.def] 0 Scenario.st0) = Ok 6.
Proof.
  destruct (@append_offset_monotone Scenario.two_chunks [Scenario.abc] Scenario.def
              0 0 Scenario.st0
              3 3 (snd (append_loop Scenario.two_chunks [Scenario.abc] 0 0 Scenario.st0))
              6 6 (snd (append_loop Scenario.two_chunks [Scenario.abc; Scenario.def]
                          0 0 Scenario.st0))
              eq_refl eq_refl)
    as (A & B & C & _).
  split; [repeat split; assumption | reflexivity].
Defined.

(** ** [delete_upload] and [finish] *)

Lemma only_calls_refl P st : only_calls P st st.
Proof.
  split; [reflexivity|]. exists []. rewrite app_nil_r. auto.
Qed.

Lemma only_calls_trans P a b c :
  only_calls P a b -> only_calls P b c -> only_calls P a c.
Proof.
  intros (D1 & n1 & C1 & F1) (D2 & n2 & C2 & F2). split; [congruence|].
  exists (n1 ++ n2)%list. rewrite C2, C1, app_assoc. split; [reflexivity|].
  apply Forall_app; auto.
Qed.

Lemma only_calls_record (P : call -> Prop) c st :
  P c -> only_calls P st (record c st).
Proof.
  intros H. split; [reflexivity|]. exists [c]. split; [reflexivity|]. auto.
Qed.

(** One step of a case analysis along the run of a coroutine. *)
Ltac run_step :=
  match goal with
  | H : (_, _) = (_, _) |- _ => inversion H; subst; clear H
  | H : (match ?x with _ => _ end) = _ |- _ => destruct x eqn:?
  | H : (if ?x then _ else _) _ = _ |- _ => destruct x eqn:?
  | H : (match ?x with _ => _ end) _ = _ |- _ => destruct x eqn:?
  | H : (let (_, _) := ?x in _) = _ |- _ => destruct x eqn:?
  | |- context [snd ?t] =>
      match t with
      | (let (_, _) := ?x in _) => destruct x eqn:?
      | (match ?x with _ => _ end) => destruct x eqn:?
      | ((if ?x then _ else _) _) => destruct x eqn:?
      | ((match ?x with _ => _ end) _) => destruct x eqn:?
      end
  end.

(** Whatever the service does, a try of [delete_upload] issues at most the
    DELETE of the object it was given, and leaves the data manager alone. *)
Lemma delete_upload_try_only env u st :
  only_calls (deletes env u) st (snd (delete_upload_try env (Some u) st)).
Proof.
  unfold delete_upload_try, get_headers.
  unfold bind at 1, lift at 1.
  destruct (get_bucket_name env) as [b|e] eqn:Hb; [|apply only_calls_refl].
  unfold bind at 1. unfold bind at 1, lift at 1.
  destruct (get_access_token env) as [t|e]; [|apply only_calls_refl].
  unfold ret at 1. unfold bind at 1, http at 1.
  match goal with
  | |- context [record (Http ?r) st] =>
      assert (Hrec : only_calls (deletes env u) st (record (Http r) st))
        by (apply only_calls_record; exists b; eexists; split; [exact Hb|reflexivity])
  end.
  destruct (session env (calls st) _) as [resp|e]; [|exact Hrec].
  destruct (negb (in_list (status resp) [200; 204; 404])); [|exact Hrec].
  destruct (status resp =? 404); [exact Hrec|].
  unfold bind, lift, ret, raise.
  destruct (status resp =? 403); cbn [andb]; [|exact Hrec].
  repeat first [exact Hrec | run_step].
Qed.

Lemma delete_upload_only env u st :
  only_calls (deletes env u) st (snd (delete_upload env (Some u) st)).
Proof.
  unfold delete_upload, on_exception.
  apply retry_preserves;
    [apply only_calls_refl | apply only_calls_trans | intro; apply delete_upload_try_only].
Qed.

(** When the bucket and the token resolve, a try of [delete_upload] makes
    exactly one call, the DELETE of the object. *)
Lemma delete_upload_try_calls env u st b t :
  get_bucket_name env = Ok b ->
  get_access_token env = Ok t ->
  calls (snd (delete_upload_try env (Some u) st)) =
    (calls st ++ [Http {| meth := DELETE; url := Some (object_url b u);
                          headers := bearer t; params := []; data := NoData |}])%list.
Proof.
  intros Hb Ht.
  unfold delete_upload_try, get_headers.
  unfold bind at 1, lift at 1. rewrite Hb.
  unfold bind at 1. unfold bind at 1, lift at 1. rewrite Ht.
  unfold ret at 1. unfold bind at 1, http at 1.
  match goal with
  | |- context [record (Http ?r) st] =>
      assert (Hrec : calls (snd (Ok tt, record (Http r) st)) = (calls st ++ [Http r])%list)
        by reflexivity
  end.
  destruct (session env (calls st) _) as [resp|e]; [|exact Hrec].
  destruct (negb (in_list (status resp) [200; 204; 404])); [|exact Hrec].
  destruct (status resp =? 404); [exact Hrec|].
  unfold bind, lift, ret, raise.
  destruct (status resp =? 403); cbn [andb]; [|exact Hrec].
  repeat first [exact Hrec | run_step].
Qed.

Section RetryFirstTry.

Context {A : Type}.
Variable target : M A.
Variable R : State -> State -> Prop.
Hypothesis R_refl : forall st, R st st.
Hypothesis R_trans : forall a b c, R a b -> R b c -> R a c.
Hypothesis R_step : forall st, R st (snd (target st)).

(** The state a retried call ends in follows the state its first try
    ended in. *)
Lemma retry_after_first_try more st :
  R (snd (target st)) (snd (retry more target st)).
Proof.
  destruct more as [|more]; simpl;
    destruct (target st) as [[a|e] st1]; simpl; auto;
    destruct (RETRIABLE_EXCEPTIONS e); simpl; auto.
  apply retry_preserves; auto.
Qed.

End RetryFirstTry.

(** [delete_upload] starts with the DELETE of the object it was given. *)
Lemma delete_upload_attempts env u st b t :
  get_bucket_name env = Ok b ->
  get_access_token env = Ok t ->
  exists more,
    calls (snd (delete_upload env (Some u) st)) =
      (calls st ++ Http {| meth := DELETE; url := Some (object_url b u);
                           headers := bearer t; params := []; data := NoData |}
                   :: more)%list.
Proof.
  intros Hb Ht.
  pose proof (@retry_after_first_try unit (delete_upload_try env (Some u))
                (fun a c => exists new, calls c = (calls a ++ new)%list)) as H.
  destruct (H ltac:(intros s; exists []; rewrite app_nil_r; reflexivity)
              ltac:(intros a c d (n1 & E1) (n2 & E2); exists (n1 ++ n2)%list;
                    rewrite E2, E1, app_assoc; reflexivity)
              ltac:(intros s; eexists; apply (delete_upload_try_calls _ _ _ Hb Ht))
              9%nat st) as (new & E).
  exists new. unfold delete_upload, on_exception. cbn [Nat.pred].
  rewrite E, (delete_upload_try_calls _ _ _ Hb Ht), <- app_assoc. reflexivity.
Qed.

(** C5, as the code has it.  A [finish] that returns has cleared
    [upload_file_id] and set [uri] to the upload id the session held.
    With no finished object in the field, or a cleanup predicate that
    refuses, it makes no call.  With a finished object [old] and a cleanup
    predicate that allows, it calls [delete_upload] on [old], the uri of the
    stored file, whatever the new upload id is: every request made is the
    DELETE of [old] and, when the bucket and the token resolve, at least one
    is made.  When that deletion returns, or fails with
    [GoogleCloudException] once its tries are used up, [finish] returns all
    the same, and in the second case a warning is logged. *)
Theorem finish_promotes env st :
  (_is_uploaded_file (field_get env) = false \/
   (exists f, field_get env = Some f /\ should_clean env f = false) ->
   exists st',
     finish env st = (Ok tt, st') /\
     upload_file_id (dm st') = None /\
     uri (dm st') = upload_file_id (dm st) /\
     calls st' = calls st) /\
  (forall file old r st1,
     field_get env = Some file ->
     file_uri file = Some old ->
     should_clean env file = true ->
     delete_upload env (Some old) st = (r, st1) ->
     r = Ok tt \/ r = Raise GoogleCloudException ->
     exists st',
       finish env st = (Ok tt, st') /\
       upload_file_id (dm st') = None /\
       uri (dm st') = upload_file_id (dm st) /\
       calls st' = calls st1 /\
       only_calls (deletes env old) st st1 /\
       (forall b t,
          get_bucket_name env = Ok b ->
          get_access_token env = Ok t ->
          exists more,
            calls st' =
              (calls st ++ Http {| meth := DELETE; url := Some (object_url b old);
                                   headers := bearer t; params := [];
                                   data := NoData |} :: more)%list) /\
       (r = Raise GoogleCloudException ->
        logged st' = (logged st1 ++ [(WARNING, finish_warning)])%list)).
Proof.
  split.
  - intros H. unfold finish.
    assert (E : (match field_get env with
                 | Some f =>
                     if _is_uploaded_file (field_get env)
                     then if should_clean env f
                          then try_except (delete_upload env (file_uri f))
                                 is_GoogleCloudException
                                 (fun _ => log WARNING finish_warning)
                          else ret tt
                     else ret tt
                 | None => ret tt
                 end) st = (Ok tt, st)).
    { destruct H as [H|(f & Hf & Hc)].
      - rewrite H. destruct (field_get env); reflexivity.
      - rewrite Hf, Hc. destruct (_is_uploaded_file (Some f)); reflexivity. }
    unfold bind at 1. rewrite E. eexists. split; [reflexivity|].
    repeat split.
  - intros file old r st1 Hf Hu Hc Hd Hr.
    pose proof (delete_upload_only env old st) as Honly.
    rewrite Hd in Honly. cbn [snd] in Honly.
    assert (Hatt : forall b t,
               get_bucket_name env = Ok b ->
               get_access_token env = Ok t ->
               exists more,
                 calls st1 =
                   (calls st ++ Http {| meth := DELETE; url := Some (object_url b old);
                                        headers := bearer t; params := [];
                                        data := NoData |} :: more)%list).
    { intros b t Hb Ht. destruct (@delete_upload_attempts env old st b t Hb Ht) as (more & E).
      rewrite Hd in E. exists more. exact E. }
    pose proof (proj1 Honly) as Hdm.
    unfold finish. rewrite Hf. unfold _is_uploaded_file. rewrite Hu, Hc.
    unfold bind at 1, try_except. rewrite Hd.
    destruct Hr as [-> | ->].
    + eexists. split; [reflexivity|]. cbn [dm calls logged].
      rewrite Hdm.
      split; [reflexivity|]. split; [reflexivity|]. split; [reflexivity|].
      split; [exact Honly|]. split; [exact Hatt|]. intros; discriminate.
    + cbn [is_GoogleCloudException]. eexists. split; [reflexivity|].
      cbn [dm calls logged]. rewrite Hdm.
      split; [reflexivity|]. split; [reflexivity|]. split; [reflexivity|].
      split; [exact Honly|]. split; [exact Hatt|]. reflexivity.
Qed.

(** C5 as stated fails where the deletion of the old object fails with an
    error of another class: when the service cannot be reached, the
    [ClientConnectorError] of the last try comes out of [finish], and the
    upload id is not promoted. *)
Lemma finish_delete_error_counterexample :
  fst (finish Scenario.unreachable Scenario.st_new) = Raise ClientConnectorError /\
  upload_file_id (dm (snd (finish Scenario.unreachable Scenario.st_new))) =
    Some "container/new" /\
  uri (dm (snd (finish Scenario.unreachable Scenario.st_new))) = Some "container/old" /\
  logged (snd (finish Scenario.unreachable Scenario.st_new)) = [].
Proof.
  vm_compute. repeat split.
Qed.

Lemma finish_promotes_witness :
  exists st',
    finish Scenario.undeletable Scenario.st_new = (Ok tt, st') /\
    upload_file_id (dm st') = None /\
    uri (dm st') = Some "container/new" /\
    logged st' = [(WARNING, finish_warning)] /\
    count_method DELETE (calls st') = 10%nat.
Proof.
  destruct (finish_promotes Scenario.undeletable Scenario.st_new) as (_ & H).
  destruct (H Scenario.old_file "container/old"
              (fst (delete_upload Scenario.undeletable (Some "container/old") Scenario.st_new))
              (snd (delete_upload Scenario.undeletable (Some "container/old") Scenario.st_new))
              eq_refl eq_refl eq_refl eq_refl (or_intror eq_refl))
    as (st' & F & U & P & C & _ & _ & L).
  exists st'.
  split; [exact F|]. split; [exact U|]. split; [exact P|].
  split; [rewrite (L eq_refl); reflexivity | rewrite C; reflexivity].
Defined.

(** ** [read_range] *)

(** [iter_data] never reads its [headers] argument: a ranged read is the
    plain read of the whole object. *)
Lemma read_range_is_iter_data env start end_ st :
  read_range env start end_ st = iter_data env None None st.
Proof. reflexivity. Qed.

(** C6, at a failing input.  [read_range(2, 5)] on a stored object of eight
    bytes, against a service that honours [Range]: the one GET request made
    carries the authorization header only, no [Range], so the chunks
    returned hold all eight bytes of the object, not the bytes 2 to 4. *)
Theorem read_range_sends_no_range :
  read_range Scenario.ranged 2 5 Scenario.st0 =
    (([Scenario.doc], Done),
     record
       (Http {| meth := GET;
                url := Some "https://www.googleapis.com/storage/v1/b/container_bucket/o/container%2Fdoc";
                headers := [("AUTHORIZATION", "Bearer token")];
                params := [("alt", VStr "media")];
                data := NoData |})
       Scenario.st0) /\
  concat (fst (fst (read_range Scenario.ranged 2 5 Scenario.st0))) <>
    [Byte.x63; Byte.x64; Byte.x65].
Proof.
  split; [vm_compute; reflexivity | vm_compute; discriminate].
Qed.

(** ** [delete_upload] on a 403 *)

(** A 403 whose first error has the reason [retentionPolicyNotMet] is not
    an error: [delete_upload] returns after that one request. *)
Lemma delete_upload_retention env u st b t resp kv kv_error error more :
  get_bucket_name env = Ok b ->
  get_access_token env = Ok t ->
  session env (calls st)
    {| meth := DELETE; url := Some (object_url b u); headers := bearer t;
       params := []; data := NoData |} = Response resp ->
  status resp = 403 ->
  json resp = Ok (VDict kv) ->
  dict_get kv "error" = Some (VDict kv_error) ->
  dict_get kv_error "errors" = Some (VList (VDict error :: more)) ->
  dict_get error "reason" = Some (VStr "retentionPolicyNotMet") ->
  delete_upload env (Some u) st =
    (Ok tt,
     record (Http {| meth := DELETE; url := Some (object_url b u);
                     headers := bearer t; params := []; data := NoData |}) st).
Proof.
  intros Hb Ht Hr Hs Hj H1 H2 H3. unfold delete_upload, on_exception.
  apply retry_returns.
  unfold delete_upload_try, get_headers, bind, lift, ret, http.
  rewrite Hb. cbv beta iota. rewrite Ht. cbv beta iota. rewrite Hr, Hs, Hj.
  unfold get, getitem, getitem0, len_value.
  rewrite H1, H2. cbn -[record object_url bearer]. rewrite H3.
  destruct (_ >=? 1); reflexivity.
Qed.

(** A status other than 200, 204, 404 and 403 is an error at every try:
    [delete_upload] asks 10 times, then raises [GoogleCloudException]. *)
Lemma delete_upload_other_status env u st b t :
  get_bucket_name env = Ok b ->
  get_access_token env = Ok t ->
  answers env DELETE (fun resp => ~ In (status resp) [200; 204; 404; 403]) ->
  exists st',
    delete_upload env (Some u) st = (Raise GoogleCloudException, st') /\
    count_method DELETE (calls st') = (count_method DELETE (calls st) + 10)%nat.
Proof.
  intros Hb Ht Hans.
  destruct (@retry_exhausted unit (delete_upload_try env (Some u))
              (fun _ => True) (fun s => count_method DELETE (calls s))
              GoogleCloudException eq_refl) with (more := 9%nat) (st := st)
    as (st' & H & _ & T); [|exact I|].
  - intros s _.
    unfold delete_upload_try, get_headers, bind, lift, ret, http, raise.
    rewrite Hb. cbv beta iota. rewrite Ht. cbv beta iota.
    match goal with
    | |- context [session env (calls s) ?r] =>
        destruct (Hans (calls s) r eq_refl) as (resp & Hr & Hs); rewrite Hr
    end.
    assert (E1 : in_list (status resp) [200; 204; 404] = false).
    { unfold in_list. cbn [existsb].
      destruct (status resp =? 200) eqn:E200;
        [apply Z.eqb_eq in E200; exfalso; apply Hs; rewrite E200; simpl; auto|].
      destruct (status resp =? 204) eqn:E204;
        [apply Z.eqb_eq in E204; exfalso; apply Hs; rewrite E204; simpl; auto|].
      destruct (status resp =? 404) eqn:E404;
        [apply Z.eqb_eq in E404; exfalso; apply Hs; rewrite E404; simpl; auto|].
      reflexivity. }
    assert (E2 : (status resp =? 404) = false).
    { apply Z.eqb_neq. intros E. apply Hs. rewrite E. simpl. auto. }
    assert (E3 : (status resp =? 403) = false).
    { apply Z.eqb_neq. intros E. apply Hs. rewrite E. simpl. auto. }
    rewrite E1, E2, E3. cbn [negb andb].
    eexists. split; [reflexivity|]. split; [exact I|].
    rewrite count_method_record.
    match goal with
    | |- context [count_method DELETE [?c]] =>
        change (count_method DELETE [c]) with 1%nat
    end. lia.
  - exists st'. split; [exact H | exact T].
Qed.

(** C7, at a failing input.  A DELETE answered 403 with the error body of a
    denied permission (first reason [forbidden], not
    [retentionPolicyNotMet]): [delete_upload] returns without raising, after
    that one request.  The same 403 with a body that is not JSON raises
    [GoogleCloudException], at each of the 10 tries. *)
Theorem delete_upload_forbidden_is_silent :
  delete_upload Scenario.forbidden (Some "container/old") Scenario.st0 =
    (Ok tt,
     record
       (Http {| meth := DELETE;
                url := Some "https://www.googleapis.com/storage/v1/b/container_bucket/o/container%2Fold";
                headers := [("AUTHORIZATION", "Bearer token")];
                params := [];
                data := NoData |})
       Scenario.st0) /\
  fst (delete_upload Scenario.forbidden_plain (Some "container/old") Scenario.st0) =
    Raise GoogleCloudException /\
  count_method DELETE
    (calls (snd (delete_upload Scenario.forbidden_plain (Some "container/old")
                   Scenario.st0))) = 10%nat.
Proof.
  split; [vm_compute; reflexivity|].
  split; vm_compute; reflexivity.
Qed.

(** ** [delete_blobs] *)

(** The loop over the responses never raises when there is one response
    per key: the keys go to the two lists in order, by the test
    [200 <= status_code <= 300]. *)
Lemma partition_by_status responses :
  forall before after success_keys failed_keys,
    List.length after = List.length responses ->
    GCloudBlobStore.partition (before ++ after) (List.length before) responses
      success_keys failed_keys =
    Ok ((success_keys ++
         map fst (filter (fun kr => (200 <=? snd kr) && (snd kr <=? 300))
                    (combine after responses)))%list,
        (failed_keys ++
         map fst (filter (fun kr => negb ((200 <=? snd kr) && (snd kr <=? 300)))
                    (combine after responses)))%list).
Proof.
  induction responses as [|code rest IH]; intros before after s f Hlen.
  - destruct after; [|discriminate]. simpl. rewrite !app_nil_r. reflexivity.
  - destruct after as [|key after]; [discriminate|].
    cbn [GCloudBlobStore.partition].
    rewrite nth_error_app2, Nat.sub_diag by lia. cbn [nth_error].
    replace (before ++ key :: after)%list with ((before ++ [key]) ++ after)%list
      by (rewrite <- app_assoc; reflexivity).
    replace (S (List.length before)) with (List.length (before ++ [key])%list)
      by (rewrite length_app; simpl; lia).
    cbn [combine filter snd].
    destruct ((200 <=? code) && (code <=? 300)); cbn [negb map fst];
      rewrite IH by (simpl in Hlen; lia); rewrite <- !app_assoc; reflexivity.
Qed.

(** [delete_blobs] makes one batch call and returns the two lists without
    raising, whatever the status codes of the items. *)
Lemma delete_blobs_partitions env keys bucket_name st responses :
  get_client env = Ok tt ->
  bucket_name <> EmptyString ->
  batch_responses env (calls st) bucket_name keys = Ok responses ->
  List.length responses = List.length keys ->
  GCloudBlobStore.delete_blobs env keys (Some bucket_name) st =
    (Ok (map fst (filter (fun kr => (200 <=? snd kr) && (snd kr <=? 300))
                    (combine keys responses)),
         map fst (filter (fun kr => negb ((200 <=? snd kr) && (snd kr <=? 300)))
                    (combine keys responses))),
     record (Batch bucket_name keys) st).
Proof.
  intros Hc Hb Hr Hlen.
  unfold GCloudBlobStore.delete_blobs, bind, lift, ret, GCloudBlobStore.batch.
  rewrite Hc. apply String.eqb_neq in Hb. rewrite Hb, Hr.
  pose proof (partition_by_status responses [] keys [] [] (eq_sym Hlen)) as Hp.
  cbn [app List.length] in Hp. unfold lift. rewrite Hp. reflexivity.
Qed.

(** The partition of the specification's example: the keys [a, b, c] answered
    [200, 404, 200]. *)
Lemma delete_blobs_example :
  fst (GCloudBlobStore.delete_blobs (Scenario.batch_host [200; 404; 200])
         [VStr "a"; VStr "b"; VStr "c"] None Scenario.st0) =
    Ok ([VStr "a"; VStr "c"], [VStr "b"]) /\
  calls (snd (GCloudBlobStore.delete_blobs (Scenario.batch_host [200; 404; 200])
                [VStr "a"; VStr "b"; VStr "c"] None Scenario.st0)) =
    [Batch "container_bucket" [VStr "a"; VStr "b"; VStr "c"]].
Proof.
  split; vm_compute; reflexivity.
Qed.

(** C8, at a failing input.  A key whose deletion is answered 300, which is
    not a 2xx status, is returned among the successful keys: the test is
    [200 <= status_code <= 300]. *)
Theorem delete_blobs_300_is_success :
  GCloudBlobStore.delete_blobs (Scenario.batch_host [300]) [VStr "a"] None Scenario.st0 =
    (Ok ([VStr "a"], []),
     record (Batch "container_bucket" [VStr "a"]) Scenario.st0).
Proof.
  vm_compute. reflexivity.
Qed.

(** ** [iterate_bucket] *)

Lemma iterate_bucket_page_served env st b t page_token data :
  get_bucket_name env = Ok b ->
  get_access_token env = Ok t ->
  (forall r, exists resp,
     session env (calls st) r = Response resp /\
     status resp = 200 /\ json resp = Ok data) ->
  exists r,
    GCloudBlobStore.iterate_bucket_page env page_token None st =
      (Ok data, record (Http r) st).
Proof.
  intros Hb Ht Hr.
  unfold GCloudBlobStore.iterate_bucket_page, bind, lift, http.
  rewrite Hb. cbv beta iota zeta. rewrite Ht. cbv beta iota zeta.
  match goal with
  | |- context [session env (calls st) ?r] =>
      destruct (Hr r) as (resp & Hq & Hs & Hj); rewrite Hq, Hs, Hj
  end.
  eexists. reflexivity.
Qed.

Lemma serves_head env base items next pages :
  serves env base ((items, next) :: pages) ->
  forall h,
    List.length h = base ->
    forall r, exists resp,
      session env h r = Response resp /\
      status resp = 200 /\ json resp = Ok (page items next).
Proof.
  intros H h Hh r. apply (H O items next h r eq_refl). lia.
Qed.

Lemma serves_tail env base p pages :
  serves env base (p :: pages) -> serves env (S base) pages.
Proof.
  intros H k items next h r Hn Hl.
  apply (H (S k) items next h r); [exact Hn | lia].
Qed.

Lemma length_record c st :
  List.length (calls (record c st)) = S (List.length (calls st)).
Proof.
  simpl. rewrite length_app. simpl. lia.
Qed.

Lemma len_zero_nil {A} (l : list A) : (len l =? 0) = true -> l = [].
Proof.
  destruct l; [reflexivity|]. unfold len. intros H.
  apply Z.eqb_eq in H. cbn [List.length] in H. lia.
Qed.

Lemma len_pos_cons {A} (l : list A) : l <> [] -> (len l =? 0) = false.
Proof.
  destruct l; [congruence|]. intros _. unfold len.
  apply Z.eqb_neq. cbn [List.length]. lia.
Qed.

Lemma iterate_bucket_loop_done env fuel :
  GCloudBlobStore.iterate_bucket_loop env fuel VNone = stop.
Proof. destruct fuel; reflexivity. Qed.

Section Enumeration.

Variable env : Env.
Variable b : string.
Variable t : option string.
Hypothesis bucket_resolves : get_bucket_name env = Ok b.
Hypothesis token_resolves : get_access_token env = Ok t.
Variable last_items : list value.

(** The loop over the pages after the first: served the pages that remain,
    all of them but the last with items and a token, it yields their items
    in order and ends after one request per page. *)
Lemma iterate_bucket_loop_all pages :
  forall fuel token st,
    Forall (fun p => fst p <> [] /\ snd p <> None) pages ->
    serves env (List.length (calls st)) (pages ++ [(last_items, None)]) ->
    (List.length pages < fuel)%nat ->
    exists st',
      GCloudBlobStore.iterate_bucket_loop env fuel (VStr token) st =
        (((concat (map fst pages) ++ last_items)%list, Done), st') /\
      List.length (calls st') = (List.length (calls st) + List.length pages + 1)%nat.
Proof.
  induction pages as [|[items next] rest IH]; intros fuel token st Hmid Hserves Hfuel;
    (destruct fuel as [|fuel]; [simpl in Hfuel; lia|]).
  - cbn [app] in Hserves.
    destruct (@iterate_bucket_page_served env st b t (VStr token) (page last_items None)
                bucket_resolves token_resolves
                (serves_head Hserves (calls st) eq_refl)) as (r & Hpage).
    cbn [GCloudBlobStore.iterate_bucket_loop]. unfold await at 1. rewrite Hpage.
    unfold await at 1, lift at 1. cbn [page get dict_get String.eqb Ascii.eqb Bool.eqb].
    unfold await at 1, lift at 1. cbn [len_value].
    destruct (len last_items =? 0) eqn:E.
    + apply len_zero_nil in E. subst. eexists. split; [reflexivity|].
      rewrite length_record. simpl. lia.
    + unfold await at 1, lift at 1. cbn [iter].
      eexists. split.
      * unfold yield_each, await, lift.
        cbn [get dict_get String.eqb Ascii.eqb Bool.eqb].
        rewrite iterate_bucket_loop_done. unfold stop.
        rewrite app_nil_r. reflexivity.
      * rewrite length_record. simpl. lia.
  - cbn [app] in Hserves. inversion Hmid as [|p ps [Hitems Hnext] Hrest]; subst.
    cbn [fst snd] in Hitems, Hnext.
    destruct next as [next|]; [|congruence].
    destruct (@iterate_bucket_page_served env st b t (VStr token) (page items (Some next))
                bucket_resolves token_resolves
                (serves_head Hserves (calls st) eq_refl)) as (r & Hpage).
    cbn [GCloudBlobStore.iterate_bucket_loop]. unfold await at 1. rewrite Hpage.
    unfold await at 1, lift at 1. cbn [page get dict_get String.eqb Ascii.eqb Bool.eqb].
    unfold await at 1, lift at 1. cbn [len_value].
    rewrite (len_pos_cons Hitems).
    unfold await at 1, lift at 1. cbn [iter].
    destruct (IH fuel next (record (Http r) st) Hrest) as (st' & Hloop & Hlen).
    + rewrite length_record. apply (serves_tail Hserves).
    + simpl in Hfuel. lia.
    + exists st'. split.
      * unfold yield_each at 1. unfold await at 1, lift at 1.
        cbn [get dict_get String.eqb Ascii.eqb Bool.eqb].
        rewrite Hloop. cbn [map concat fst]. rewrite app_assoc. reflexivity.
      * rewrite Hlen, length_record. simpl. lia.
Qed.

End Enumeration.

(** C9, as the code has it.  Over a finite sequence of pages served in
    order, of which every page before the last carries a token and at least
    one item, and the last carries no token, [iterate_bucket] yields the
    items of all the pages, each once and in order, makes one request per
    page and ends: a bound on the loop of at least the number of pages
    before the last is never reached. *)
Theorem iterate_bucket_all_pages env st b t pages last_items fuel :
  get_bucket_name env = Ok b ->
  get_access_token env = Ok t ->
  Forall (fun p => fst p <> [] /\ snd p <> None) pages ->
  serves env (List.length (calls st)) (pages ++ [(last_items, None)]) ->
  (List.length pages <= fuel)%nat ->
  exists st',
    GCloudBlobStore.iterate_bucket env fuel st =
      (((concat (map fst pages) ++ last_items)%list, Done), st') /\
    List.length (calls st') = (List.length (calls st) + List.length pages + 1)%nat.
Proof.
  intros Hb Ht Hmid Hserves Hfuel.
  destruct pages as [|[items next] rest].
  - cbn [app] in Hserves.
    destruct (@iterate_bucket_page_served env st b t VNone (page last_items None)
                Hb Ht (serves_head Hserves (calls st) eq_refl)) as (r & Hpage).
    unfold GCloudBlobStore.iterate_bucket. unfold await at 1. rewrite Hpage.
    unfold await, lift, yield_each.
    cbn [page contains getitem iter get dict_get String.eqb Ascii.eqb Bool.eqb negb].
    rewrite iterate_bucket_loop_done. unfold stop.
    eexists. split.
    + cbn [map concat app]. rewrite app_nil_r. reflexivity.
    + rewrite length_record. simpl. lia.
  - cbn [app] in Hserves. inversion Hmid as [|p ps [Hitems Hnext] Hrest]; subst.
    cbn [fst snd] in Hitems, Hnext.
    destruct next as [next|]; [|congruence].
    destruct (@iterate_bucket_page_served env st b t VNone (page items (Some next))
                Hb Ht (serves_head Hserves (calls st) eq_refl)) as (r & Hpage).
    destruct (@iterate_bucket_loop_all env b t Hb Ht last_items rest fuel next
                (record (Http r) st) Hrest) as (st' & Hloop & Hlen).
    + rewrite length_record. apply (serves_tail Hserves).
    + simpl in Hfuel. lia.
    + exists st'. split.
      * unfold GCloudBlobStore.iterate_bucket. unfold await at 1. rewrite Hpage.
        unfold await, lift, yield_each.
        cbn [page contains getitem iter get dict_get String.eqb Ascii.eqb Bool.eqb negb].
        rewrite Hloop. cbn [map concat fst]. rewrite app_assoc. reflexivity.
      * rewrite Hlen, length_record. simpl. lia.
Qed.

(** C9 as stated fails on a sequence with an empty page before the last:
    of three pages of which the first two carry a token and the second has
    no item, the items of the third are never yielded, the third page is
    never asked for. *)
Lemma iterate_bucket_empty_page_counterexample :
  GCloudBlobStore.iterate_bucket (Scenario.listing Scenario.sparse_pages) 5 Scenario.st0
    = (([VStr "container/a"], Done),
       snd (GCloudBlobStore.iterate_bucket (Scenario.listing Scenario.sparse_pages) 5
              Scenario.st0)) /\
  List.length
    (calls (snd (GCloudBlobStore.iterate_bucket (Scenario.listing Scenario.sparse_pages) 5
                   Scenario.st0))) = 2%nat /\
  concat (map fst Scenario.sparse_pages) = [VStr "container/a"; VStr "container/b"].
Proof.
  split; [vm_compute; reflexivity|]. split; vm_compute; reflexivity.
Qed.

Lemma iterate_bucket_all_pages_witness :
  exists st',
    GCloudBlobStore.iterate_bucket (Scenario.listing Scenario.three_pages) 2 Scenario.st0 =
      (([VStr "container/a"; VStr "container/b"; VStr "container/c"; VStr "container/d"],
        Done), st') /\
    List.length (calls st') = 3%nat.
Proof.
  apply (@iterate_bucket_all_pages (Scenario.listing Scenario.three_pages) Scenario.st0
           "container_bucket" (Some "token")
           [([VStr "container/a"; VStr "container/b"], Some "token-1");
            ([VStr "container/c"], Some "token-2")]
           [VStr "container/d"] 2%nat eq_refl eq_refl).
  - repeat constructor; simpl; discriminate.
  - intros k items next h r Hk Hh. simpl in Hh. subst k. simpl.
    unfold Scenario.three_pages.
    destruct h as [|c1 [|c2 [|c3 [|c4 h]]]]; simpl in Hk |- *;
      try discriminate; inversion Hk; subst;
      (eexists; split; [reflexivity|]; split; reflexivity).
  - simpl. lia.
Defined.

(** ** [delete] and [delete_by_prefix] *)

Section OnlyCalls.

Variable P : call -> Prop.

Lemma only_calls_bind {A B} (c : M A) (k : A -> M B) st :
  only_calls P st (snd (c st)) ->
  (forall a st1, c st = (Ok a, st1) -> only_calls P st1 (snd (k a st1))) ->
  only_calls P st (snd (bind c k st)).
Proof.
  unfold bind. destruct (c st) as [[a|e] st1]; simpl; intros H1 H2.
  - eapply only_calls_trans; [exact H1 | apply H2; reflexivity].
  - exact H1.
Qed.

Lemma only_calls_lift {A} (r : Result A) st : only_calls P st (snd (lift r st)).
Proof. apply only_calls_refl. Qed.

Lemma only_calls_ret {A} (a : A) st : only_calls P st (snd (ret a st)).
Proof. apply only_calls_refl. Qed.

Lemma only_calls_raise {A} e st : only_calls P st (snd (@raise A e st)).
Proof. apply only_calls_refl. Qed.

Lemma only_calls_http env r st :
  P (Http r) -> only_calls P st (snd (http env r st)).
Proof.
  intros H. unfold http. destruct (session env (calls st) r); simpl;
    apply only_calls_record; exact H.
Qed.

End OnlyCalls.

Lemma candidates_marked blobs :
  forall keys, candidates blobs = Ok keys -> Forall marked keys.
Proof.
  induction blobs as [|blob rest IH]; intros keys H; simpl in H.
  - inversion H. constructor.
  - destruct (contains (blob_name blob) "::") as [c|e] eqn:E; [|discriminate].
    destruct (candidates rest) as [ks|e]; [|discriminate].
    inversion H; subst. destruct c; [constructor|]; auto.
Qed.

Lemma iterate_bucket_page_lists env page_token prefix st :
  only_calls lists_or_deletes_marked st
    (snd (GCloudBlobStore.iterate_bucket_page env page_token prefix st)).
Proof.
  unfold GCloudBlobStore.iterate_bucket_page.
  apply only_calls_bind; [apply only_calls_lift|]. intros bucket st1 _.
  cbv zeta.
  apply only_calls_bind; [apply only_calls_lift|]. intros access_token st2 _.
  apply only_calls_bind; [apply only_calls_http; reflexivity|]. intros resp st3 _.
  destruct (status resp =? 200); [apply only_calls_lift | apply only_calls_raise].
Qed.

Lemma delete_by_prefix_try_marked env uri st :
  only_calls lists_or_deletes_marked st (snd (delete_by_prefix_try env uri st)).
Proof.
  unfold delete_by_prefix_try.
  destruct uri as [u|]; [|apply only_calls_raise].
  destruct (negb (String.eqb u EmptyString) && str_in "::" u);
    [|apply only_calls_raise].
  cbv zeta.
  apply only_calls_bind.
  { unfold GCloudBlobStore.get_blobs.
    apply only_calls_bind; [apply iterate_bucket_page_lists|]. intros page st1 _.
    repeat (apply only_calls_bind; [apply only_calls_lift|]; intros ? ? _).
    apply only_calls_ret. }
  intros r st1 _.
  apply only_calls_bind; [apply only_calls_lift|]. intros keys st2 Hkeys.
  assert (Hmarked : Forall marked keys).
  { unfold lift in Hkeys. inversion Hkeys as [Hk]. apply (candidates_marked _ Hk). }
  destruct keys as [|key keys]; [apply only_calls_ret|].
  apply only_calls_bind; [apply only_calls_lift|]. intros bucket_name st3 _.
  apply only_calls_bind.
  { unfold GCloudBlobStore.delete_blobs.
    apply only_calls_bind; [apply only_calls_lift|]. intros _ st4 _.
    apply only_calls_bind.
    { destruct (String.eqb bucket_name EmptyString);
        [apply only_calls_lift | apply only_calls_ret]. }
    intros bn st5 _.
    apply only_calls_bind; [|intros; apply only_calls_lift].
    unfold GCloudBlobStore.batch. cbn [snd].
    apply only_calls_record. exact Hmarked. }
  intros r2 st4 _.
  destruct (snd r2); [apply only_calls_ret | apply only_calls_raise].
Qed.

(** C10.  When the uri of the stored file is [None], empty or without
    ["::"], [delete] raises [AttributeError("No valid uri")] and has made
    no call at all; and whatever the uri and the service, every call
    [delete] makes is a GET of the listing or a batch that deletes keys
    containing ["::"] only (it issues no other deletion). *)
Theorem delete_needs_marker env st file :
  field_get env = Some file ->
  (file_uri file = None \/
   (exists u, file_uri file = Some u /\ str_in "::" u = false) ->
   delete env st = (Raise (AttributeError "No valid uri"), st)) /\
  only_calls lists_or_deletes_marked st (snd (delete env st)) /\
  (forall bucket_name keys key,
     In (Batch bucket_name keys) (calls (snd (delete env st))) ->
     In key keys ->
     In (Batch bucket_name keys) (calls st) \/ contains key "::" = Ok true).
Proof.
  intros Hf.
  assert (Honly : only_calls lists_or_deletes_marked st (snd (delete env st))).
  { unfold delete. rewrite Hf. unfold delete_by_prefix, on_exception.
    apply retry_preserves;
      [apply only_calls_refl | apply only_calls_trans
      | intro; apply delete_by_prefix_try_marked]. }
  split; [|split; [exact Honly|]].
  - intros H. unfold delete. rewrite Hf. unfold delete_by_prefix, on_exception.
    apply retry_not_retriable; [|reflexivity].
    unfold delete_by_prefix_try.
    destruct H as [H|(u & H & Hu)]; rewrite H; [reflexivity|].
    rewrite Hu, andb_false_r. reflexivity.
  - intros bucket_name keys key Hin Hkey.
    destruct Honly as (_ & new & Hcalls & Hnew).
    rewrite Hcalls in Hin. apply in_app_or in Hin. destruct Hin as [Hin|Hin].
    + left. exact Hin.
    + right. rewrite Forall_forall in Hnew. specialize (Hnew _ Hin).
      simpl in Hnew. rewrite Forall_forall in Hnew. apply Hnew. exact Hkey.
Qed.

Lemma delete_needs_marker_witness :
  delete Scenario.plain Scenario.st0 =
    (Raise (AttributeError "No valid uri"), Scenario.st0) /\
  calls (snd (delete Scenario.compound Scenario.st0)) =
    [Http {| meth := GET;
             url := Some "https://www.googleapis.com/storage/v1/b/container_bucket/o";
             headers := [("AUTHORIZATION", "Bearer token")];
             params := [("prefix", VStr "container/x")];
             data := NoData |};
     Batch "container_bucket" [VStr "container/x::1"; VStr "container/x::2"]] /\
  only_calls lists_or_deletes_marked Scenario.st0
    (snd (delete Scenario.compound Scenario.st0)).
Proof.
  destruct (@delete_needs_marker Scenario.plain Scenario.st0 Scenario.doc_file eq_refl)
    as (H1 & _).
  destruct (@delete_needs_marker Scenario.compound Scenario.st0 Scenario.compound_file
              eq_refl) as (_ & H2 & _).
  split; [|split; [reflexivity | exact H2]].
  apply H1. right. exists "container/doc". split; reflexivity.
Defined.

(* ================================================================== *)
(** * Further properties *)
(* ================================================================== *)

(** ** [_append] under its retry policy *)

Lemma in_list_false s l : ~ In s l -> in_list s l = false.
Proof.
  unfold in_list. induction l as [|x l IH]; intros H; [reflexivity|].
  cbn [existsb]. rewrite IH by (intros K; apply H; right; exact K).
  replace (s =? x) with false; [reflexivity|].
  symmetry. apply Z.eqb_neq. intros E. apply H. left. congruence.
Qed.

Lemma in_list_true s l : In s l -> in_list s l = true.
Proof.
  unfold in_list. intros H. apply existsb_exists. exists s. split; [exact H|].
  apply Z.eqb_refl.
Qed.

(** One try of [_append] that the policy calls again. *)
Lemma _append_try_transient env data offset st :
  transient (session env (calls st) (put_request (dm st) data offset)) ->
  exists e,
    RETRIABLE_EXCEPTIONS e = true /\
    _append_try env data offset st =
      (Raise e, record (Http (put_request (dm st) data offset)) st).
Proof.
  intros H. unfold _append_try, bind, get_dm, http.
  destruct (session env (calls st) _) as [resp|e]; simpl in H.
  - exists GoogleCloudException. split; [reflexivity|].
    rewrite (@in_list_false (status resp) [200; 201; 308])
      by (intros K; apply H; simpl in *; tauto).
    replace (status resp =? 410) with false; [reflexivity|].
    symmetry. apply Z.eqb_neq. intros E. apply H. rewrite E. simpl. tauto.
  - exists e. split; [exact H | reflexivity].
Qed.

Lemma _append_accepted env data offset st resp :
  session env (calls st) (put_request (dm st) data offset) = Response resp ->
  In (status resp) [200; 201; 308] ->
  _append env data offset st =
    (Ok resp, record (Http (put_request (dm st) data offset)) st).
Proof.
  intros H Hs. unfold _append, on_exception. apply retry_returns.
  rewrite (_append_try_answer _ _ _ _ H), (in_list_true _ _ Hs). reflexivity.
Qed.

(** X1. A PUT that the service answers, at every try, with a status other
    than 200, 201, 308 and 410 is sent 10 times, each time the same request
    (the same bytes at the same offset), and no more; then [_append] raises
    [GoogleCloudException].  The data manager is untouched. *)
Theorem append_retry_exhausted env data offset st :
  answers env PUT (fun resp => ~ In (status resp) [200; 201; 308; 410]) ->
  exists st',
    _append env data offset st = (Raise GoogleCloudException, st') /\
    calls st' = (calls st ++ repeat (Http (put_request (dm st) data offset)) 10)%list /\
    dm st' = dm st.
Proof.
  intros Hans.
  set (req := put_request (dm st) data offset).
  destruct (@retry_exhausted response (_append_try env data offset)
              (fun s => dm s = dm st /\
                        exists k, calls s = (calls st ++ repeat (Http req) k)%list)
              (fun s => List.length (calls s))
              GoogleCloudException eq_refl) with (more := 9%nat) (st := st)
    as (st' & H & (Hdm & k & Hk) & T).
  - intros s (Hs & k & Hk).
    destruct (Hans (calls s) (put_request (dm s) data offset) eq_refl)
      as (resp & Hr & Hbad).
    rewrite (_append_try_answer _ _ _ _ Hr).
    rewrite (@in_list_false (status resp) [200; 201; 308])
      by (intros K; apply Hbad; simpl in *; tauto).
    replace (status resp =? 410) with false
      by (symmetry; apply Z.eqb_neq; intros E; apply Hbad; rewrite E; simpl; tauto).
    eexists. split; [reflexivity|]. cbn [negb dm calls record]. split.
    + split; [exact Hs|]. exists (S k). rewrite Hk, Hs, <- app_assoc.
      fold req. f_equal. change [Http req] with (repeat (Http req) 1).
      rewrite <- repeat_app. f_equal. lia.
    + rewrite length_app. simpl. lia.
  - split; [reflexivity|]. exists O. simpl. rewrite app_nil_r. reflexivity.
  - exists st'. split; [exact H|]. split; [|exact Hdm].
    rewrite Hk in T |- *. rewrite length_app, repeat_length in T.
    replace k with 10%nat by lia. reflexivity.
Qed.

Lemma append_retry_exhausted_witness :
  exists st',
    _append Scenario.failing Scenario.abc 0 Scenario.st0 =
      (Raise GoogleCloudException, st') /\
    calls st' = repeat (Http (put_request Scenario.dm0 Scenario.abc 0)) 10 /\
    dm st' = Scenario.dm0.
Proof.
  apply (@append_retry_exhausted Scenario.failing Scenario.abc 0 Scenario.st0).
  intros h r _. eexists. split; [reflexivity|]. simpl. lia.
Defined.

(** X2. A try that fails in a way the policy retries (a status it turns
    into [GoogleCloudException], or a connection failure of a retriable
    class), followed by a try the service answers 200, 201 or 308: [_append]
    returns that answer, having sent the same request twice. *)
Theorem append_retry_recovers env data offset st resp :
  transient (session env (calls st) (put_request (dm st) data offset)) ->
  session env (calls st ++ [Http (put_request (dm st) data offset)])%list
    (put_request (dm st) data offset) = Response resp ->
  In (status resp) [200; 201; 308] ->
  exists st',
    _append env data offset st = (Ok resp, st') /\
    calls st' = (calls st ++ [Http (put_request (dm st) data offset);
                              Http (put_request (dm st) data offset)])%list /\
    dm st' = dm st.
Proof.
  intros H1 H2 Hs.
  destruct (_append_try_transient env data offset st H1) as (e & He & Htry).
  unfold _append, on_exception. cbn [Nat.pred].
  rewrite (retry_again _ _ _ Htry He).
  eexists. split.
  - apply retry_returns.
    assert (Hd : dm (record (Http (put_request (dm st) data offset)) st) = dm st)
      by reflexivity.
    pose proof (@_append_try_answer env data offset
                  (record (Http (put_request (dm st) data offset)) st) resp) as Ha.
    rewrite Hd in Ha. cbn [calls record] in Ha. specialize (Ha H2).
    rewrite (in_list_true _ _ Hs) in Ha. exact Ha.
  - split; [|reflexivity]. cbn [calls record]. rewrite <- app_assoc. reflexivity.
Qed.

Lemma append_retry_recovers_witness :
  exists st',
    _append Cases.flaky Scenario.abc 0 Scenario.st0 =
      (Ok (Scenario.answer 308 [("Range", "bytes=0-2")] (Raise ValueError)), st') /\
    calls st' = [Http (put_request Scenario.dm0 Scenario.abc 0);
                 Http (put_request Scenario.dm0 Scenario.abc 0)] /\
    dm st' = Scenario.dm0.
Proof.
  apply (@append_retry_recovers Cases.flaky Scenario.abc 0 Scenario.st0
           (Scenario.answer 308 [("Range", "bytes=0-2")] (Raise ValueError))).
  - simpl. lia.
  - reflexivity.
  - simpl. tauto.
Defined.

(** ** The loop of [append] *)

(** X3. When the service answers the PUT of a chunk with 200 or 201, the
    loop of [append] ends there: the count returned includes that chunk,
    the chunk was sent once, and none of the chunks after it is sent. *)
Theorem append_stops_when_complete env chunk rest count offset st resp :
  session env (calls st) (put_request (dm st) chunk offset) = Response resp ->
  In (status resp) [200; 201] ->
  let st' := record (Http (put_request (dm st) chunk offset)) st in
  append_loop env (chunk :: rest) count offset st =
    (Ok (count + len chunk, offset + len chunk), st') /\
  append env (chunk :: rest) offset st = (Ok (len chunk), st') /\
  calls st' = (calls st ++ [Http (put_request (dm st) chunk offset)])%list.
Proof.
  intros H Hs st'.
  assert (Hput : _append env chunk offset st = (Ok resp, st')).
  { apply _append_accepted; [exact H|]. simpl in *. tauto. }
  assert (H308 : (status resp =? 308) = false).
  { apply Z.eqb_neq. intros E. rewrite E in Hs. simpl in Hs.
    destruct Hs as [K|[K|[]]]; discriminate. }
  assert (Hloop : forall c, append_loop env (chunk :: rest) c offset st =
                            (Ok (c + len chunk, offset + len chunk), st')).
  { intros c. cbn [append_loop]. unfold bind at 1. rewrite Hput, H308.
    rewrite (in_list_true _ _ Hs). reflexivity. }
  split; [apply Hloop|]. split; [|reflexivity].
  unfold append, bind. rewrite Hloop. reflexivity.
Qed.

Lemma append_stops_when_complete_witness :
  append Cases.created [Scenario.abc; Scenario.def] 0 Scenario.st0 =
    (Ok 3, record (Http (put_request Scenario.dm0 Scenario.abc 0)) Scenario.st0).
Proof.
  destruct (@append_stops_when_complete Cases.created Scenario.abc [Scenario.def]
              0 0 Scenario.st0 (Scenario.answer 201 [] (Raise ValueError)) eq_refl)
    as (_ & H & _).
  - simpl. tauto.
  - exact H.
Defined.

Lemma total_app a b : total (a ++ b) = total a + total b.
Proof.
  induction a as [|c a IH]; simpl; [reflexivity|]. rewrite IH. lia.
Qed.

Lemma acknowledges_head env d base offset chunk rest :
  acknowledges env d base offset (chunk :: rest) ->
  forall h, List.length h = base ->
    exists resp range_header,
      session env h (put_request d chunk offset) = Response resp /\
      status resp = 308 /\
      header_get (resp_headers resp) "Range" = Some range_header /\
      int_of_str (last (split range_header "-")) = Some (offset + len chunk - 1).
Proof.
  intros H h Hh.
  destruct (H [] chunk rest h eq_refl) as (resp & rh & H1 & H2 & H3 & H4).
  - simpl. lia.
  - cbn [total] in H1, H4. rewrite Z.add_0_r in H1, H4.
    exists resp, rh. auto.
Qed.

Lemma acknowledges_tail env d base offset chunk rest :
  acknowledges env d base offset (chunk :: rest) ->
  acknowledges env d (S base) (offset + len chunk) rest.
Proof.
  intros H before c after h Hc Hh.
  destruct (H (chunk :: before) c after h) as (resp & rh & H1 & H2 & H3 & H4).
  - rewrite Hc. reflexivity.
  - simpl. lia.
  - cbn [total] in H1, H4.
    replace (offset + (len chunk + total before))
      with (offset + len chunk + total before) in H1, H4 by lia.
    exists resp, rh. auto.
Qed.

Lemma append_loop_acknowledged env chunks :
  forall count offset st,
    acknowledges env (dm st) (List.length (calls st)) offset chunks ->
    exists st',
      append_loop env chunks count offset st =
        (Ok (count + total chunks, offset + total chunks), st') /\
      calls st' = (calls st ++ puts (dm st) chunks offset)%list /\
      dm st' = dm st.
Proof.
  induction chunks as [|chunk rest IH]; intros count offset st Hack.
  - exists st. cbn [append_loop total puts]. rewrite !Z.add_0_r, app_nil_r.
    repeat split; reflexivity.
  - destruct (acknowledges_head Hack (calls st) eq_refl)
      as (resp & rh & H1 & H2 & H3 & H4).
    set (st1 := record (Http (put_request (dm st) chunk offset)) st).
    destruct (IH (count + len chunk) (offset + len chunk) st1) as (st' & L & C & D).
    { unfold st1. rewrite length_record. cbn [dm record].
      apply (acknowledges_tail Hack). }
    exists st'. split; [|split].
    + cbn [append_loop]. unfold bind at 1. rewrite (_append_308 _ _ _ _ H1 H2).
      rewrite H2. cbn [Z.eqb Pos.eqb]. unfold bind at 1, header. rewrite H3.
      unfold ret at 1. unfold bind at 1, lift, int_str. rewrite H4.
      rewrite Z.eqb_refl. cbn [negb]. fold st1. rewrite L.
      cbn [total]. f_equal. f_equal. f_equal; lia.
    + rewrite C. unfold st1. cbn [calls record dm puts].
      rewrite <- app_assoc. reflexivity.
    + rewrite D. reflexivity.
Qed.

(** X4. When the service acknowledges every chunk (308, with a [Range]
    upper bound at the last byte sent so far), [append] returns the number
    of bytes of all the chunks; it has sent one PUT per chunk, in order, each
    at the offset the chunks before it add up to, and nothing else. *)
Theorem append_sends_every_chunk env chunks offset st :
  acknowledges env (dm st) (List.length (calls st)) offset chunks ->
  exists st',
    append env chunks offset st = (Ok (total chunks), st') /\
    calls st' = (calls st ++ puts (dm st) chunks offset)%list /\
    dm st' = dm st.
Proof.
  intros Hack.
  destruct (@append_loop_acknowledged env chunks 0 offset st Hack) as (st' & L & C & D).
  exists st'. split; [|split; assumption].
  unfold append, bind. rewrite L. reflexivity.
Qed.

Lemma append_sends_every_chunk_witness :
  exists st',
    append Scenario.two_chunks [Scenario.abc; Scenario.def] 0 Scenario.st0 = (Ok 6, st') /\
    calls st' = [Http (put_request Scenario.dm0 Scenario.abc 0);
                 Http (put_request Scenario.dm0 Scenario.def 3)] /\
    dm st' = Scenario.dm0.
Proof.
  apply (@append_sends_every_chunk Scenario.two_chunks [Scenario.abc; Scenario.def]
           0 Scenario.st0).
  intros before chunk after h Hc Hh.
  destruct before as [|b1 [|b2 [|b3 before]]]; simpl in Hc; inversion Hc; subst.
  - destruct h; [|discriminate]. do 2 eexists. repeat split; reflexivity.
  - destruct h as [|c1 [|c2 h]]; try discriminate.
    do 2 eexists. repeat split; reflexivity.
Defined.

(** X5. A 308 that cannot be checked is an error of its own, not a
    precondition failure and not retried: without a [Range] header the loop
    of [append] raises [KeyError], with a [Range] header whose last
    [-]-separated piece is not an int literal it raises [ValueError]; in both
    cases after the one PUT of the chunk. *)
Theorem append_range_unusable env chunk rest count offset st resp :
  session env (calls st) (put_request (dm st) chunk offset) = Response resp ->
  status resp = 308 ->
  let st' := record (Http (put_request (dm st) chunk offset)) st in
  (header_get (resp_headers resp) "Range" = None ->
   append_loop env (chunk :: rest) count offset st = (Raise KeyError, st')) /\
  (forall range_header,
     header_get (resp_headers resp) "Range" = Some range_header ->
     int_of_str (last (split range_header "-")) = None ->
     append_loop env (chunk :: rest) count offset st = (Raise ValueError, st')) /\
  RETRIABLE_EXCEPTIONS KeyError = false /\
  RETRIABLE_EXCEPTIONS ValueError = false.
Proof.
  intros H Hs st'. split; [|split; [|split; reflexivity]].
  - intros Hh. cbn [append_loop]. unfold bind at 1.
    rewrite (_append_308 _ _ _ _ H Hs), Hs. cbn [Z.eqb Pos.eqb].
    unfold bind at 1, header. rewrite Hh. reflexivity.
  - intros rh Hh Hi. cbn [append_loop]. unfold bind at 1.
    rewrite (_append_308 _ _ _ _ H Hs), Hs. cbn [Z.eqb Pos.eqb].
    unfold bind at 1, header. rewrite Hh. unfold ret at 1.
    unfold bind at 1, lift, int_str. rewrite Hi. reflexivity.
Qed.

Lemma append_range_unusable_witness :
  append_loop Cases.no_range [Scenario.abc; Scenario.def] 0 0 Scenario.st0 =
    (Raise KeyError, record (Http (put_request Scenario.dm0 Scenario.abc 0)) Scenario.st0).
Proof.
  destruct (@append_range_unusable Cases.no_range Scenario.abc [Scenario.def] 0 0
              Scenario.st0 (Scenario.answer 308 [] (Raise ValueError)) eq_refl eq_refl)
    as (H & _).
  apply H. reflexivity.
Defined.

(** ** [iter_data] *)

Lemma read_all_nonempty reads : Forall (fun chunk => chunk <> []) (read_all reads).
Proof.
  induction reads as [|chunk rest IH]; cbn [read_all]; [constructor|].
  destruct (len chunk >? 0) eqn:E; [|constructor].
  constructor; [|exact IH]. intros ->. discriminate.
Qed.

Lemma read_all_whole reads :
  Forall (fun chunk => chunk <> []) reads -> read_all reads = reads.
Proof.
  induction 1 as [|chunk rest Hc _ IH]; cbn [read_all]; [reflexivity|].
  replace (len chunk >? 0) with true; [rewrite IH; reflexivity|].
  symmetry. apply Z.gtb_lt. destruct chunk; [congruence|]. unfold len. simpl. lia.
Qed.

Lemma read_all_prefix reads :
  exists rest, reads = (read_all reads ++ rest)%list.
Proof.
  induction reads as [|chunk reads [rest IH]]; cbn [read_all]; [exists []; reflexivity|].
  destruct (len chunk >? 0).
  - exists rest. simpl. rewrite <- IH. reflexivity.
  - exists (chunk :: reads). reflexivity.
Qed.

(** X6. A read of a stored object the service answers 200 or 206 makes one
    GET and yields the successive reads of the body up to the first empty
    one: no chunk yielded is empty, the chunks are a prefix of the reads,
    and when no read is empty their bytes are all the bytes of the body. *)
Theorem iter_data_streams_body env st file u b t hdrs resp :
  field_get env = Some file ->
  file_uri file = Some u ->
  get_bucket_name env = Ok b ->
  get_access_token env = Ok t ->
  session env (calls st) (media_request b t u) = Response resp ->
  In (status resp) [200; 206] ->
  iter_data env None hdrs st =
    ((read_all (content resp), Done), record (Http (media_request b t u)) st) /\
  Forall (fun chunk => chunk <> []) (read_all (content resp)) /\
  (exists rest, content resp = (read_all (content resp) ++ rest)%list) /\
  (Forall (fun chunk => chunk <> []) (content resp) ->
   concat (read_all (content resp)) = concat (content resp)).
Proof.
  intros Hf Hu Hb Ht Hr Hs.
  split; [|split; [apply read_all_nonempty|split; [apply read_all_prefix|]]].
  - unfold iter_data, await, get_headers, bind, lift, ret, http, yield_each, stop.
    rewrite Hf. unfold _is_uploaded_file. rewrite Hu. cbn [negb].
    rewrite Hb. cbv beta iota. rewrite Ht. cbv beta iota.
    cbn [option_map]. fold (media_request b t u). rewrite Hr.
    rewrite (in_list_true _ _ Hs). cbn [negb]. rewrite app_nil_r. reflexivity.
  - intros Hall. rewrite (read_all_whole Hall). reflexivity.
Qed.

Lemma iter_data_streams_body_witness :
  fst (iter_data Downloads.pieces None None Scenario.st0) =
    ([[Byte.x61; Byte.x62]; [Byte.x63]; [Byte.x64; Byte.x65]], Done).
Proof.
  destruct (@iter_data_streams_body Downloads.pieces Scenario.st0 Scenario.doc_file
              "container/doc" "container_bucket" (Some "token") None
              {| status := 206; resp_headers := []; text := EmptyString;
                 json := Raise ValueError;
                 content := [[Byte.x61; Byte.x62]; [Byte.x63]; [Byte.x64; Byte.x65]] |}
              eq_refl eq_refl eq_refl eq_refl eq_refl) as (H & _).
  - simpl. tauto.
  - rewrite H. reflexivity.
Defined.

(** X7. A read the service answers with another status yields nothing and
    raises after that one GET, which is never retried: [HTTPNotFound] on a
    404, [HTTPNotFound] again on a 401, with a warning in the log, and
    [GoogleCloudException] on any other status.  With no uploaded file in
    the field and no uri given, it raises [FileNotFoundException] before any
    request. *)
Theorem iter_data_translates_status env st hdrs :
  (_is_uploaded_file (field_get env) = false ->
   iter_data env None hdrs st = (([], Raised FileNotFoundException), st)) /\
  (forall file u b t resp,
     field_get env = Some file ->
     file_uri file = Some u ->
     get_bucket_name env = Ok b ->
     get_access_token env = Ok t ->
     session env (calls st) (media_request b t u) = Response resp ->
     ~ In (status resp) [200; 206] ->
     exists e st',
       iter_data env None hdrs st = (([], Raised e), st') /\
       e = (if (status resp =? 404) || (status resp =? 401)
            then HTTPNotFound else GoogleCloudException) /\
       calls st' = (calls st ++ [Http (media_request b t u)])%list /\
       logged st' =
         (if status resp =? 401
          then logged st ++ [(WARNING, "Invalid google cloud credentials error")]
          else logged st)%list).
Proof.
  split.
  - intros H. unfold iter_data, await. rewrite H. reflexivity.
  - intros file u b t resp Hf Hu Hb Ht Hr Hs.
    unfold iter_data, await, get_headers, bind, lift, ret, http, throw, log, raise.
    rewrite Hf. unfold _is_uploaded_file. rewrite Hu. cbn [negb].
    rewrite Hb. cbv beta iota. rewrite Ht. cbv beta iota.
    cbn [option_map]. fold (media_request b t u). rewrite Hr.
    rewrite (@in_list_false _ _ Hs). cbn [negb].
    destruct (status resp =? 404) eqn:E404.
    + do 2 eexists. split; [reflexivity|]. split; [reflexivity|].
      apply Z.eqb_eq in E404. rewrite E404. split; reflexivity.
    + destruct (status resp =? 401) eqn:E401.
      * do 2 eexists. split; [reflexivity|]. repeat split; reflexivity.
      * do 2 eexists. split; [reflexivity|]. repeat split; reflexivity.
Qed.

Lemma iter_data_translates_status_witness :
  exists st',
    iter_data Downloads.unauthorized None None Scenario.st0 = (([], Raised HTTPNotFound), st') /\
    logged st' = [(WARNING, "Invalid google cloud credentials error")].
Proof.
  destruct (iter_data_translates_status Downloads.unauthorized Scenario.st0 None)
    as (_ & H).
  destruct (H Scenario.doc_file "container/doc" "container_bucket" (Some "token")
              (Scenario.answer 401 [] (Raise ValueError))
              eq_refl eq_refl eq_refl eq_refl eq_refl)
    as (e & st' & H1 & H2 & _ & H4).
  - simpl. lia.
  - exists st'. subst e. split; [exact H1 | exact H4].
Defined.

(** ** [delete_upload] *)

(** X8. [delete_upload] takes 200, 204 and 404 for a success: it returns
    after the one DELETE of the object, so deleting an object that does not
    exist is not an error.  Without a uri it raises
    [AttributeError("No valid uri")] and makes no request. *)
Theorem delete_upload_accepts_absent env st :
  delete_upload env None st = (Raise (AttributeError "No valid uri"), st) /\
  (forall u b t resp,
     get_bucket_name env = Ok b ->
     get_access_token env = Ok t ->
     session env (calls st) (delete_request b t u) = Response resp ->
     In (status resp) [200; 204; 404] ->
     delete_upload env (Some u) st = (Ok tt, record (Http (delete_request b t u)) st)).
Proof.
  split.
  - unfold delete_upload, on_exception. apply retry_not_retriable; reflexivity.
  - intros u b t resp Hb Ht Hr Hs. apply (delete_upload_accepted _ _ _ Hb Ht Hr Hs).
Qed.

Lemma delete_upload_accepts_absent_witness :
  delete_upload Deletions.absent (Some "container/old") Scenario.st0 =
    (Ok tt,
     record (Http (delete_request "container_bucket" (Some "token") "container/old"))
       Scenario.st0).
Proof.
  destruct (delete_upload_accepts_absent Deletions.absent Scenario.st0) as (_ & H).
  apply (H "container/old" "container_bucket" (Some "token")
           (Scenario.answer 404 [] (Raise ValueError)) eq_refl eq_refl eq_refl).
  simpl. tauto.
Defined.

(** X9. A 403 whose JSON body gives [retentionPolicyNotMet] as the reason
    of the first error of [error.errors] is not an error either:
    [delete_upload] returns after that one DELETE, without a retry. *)
Theorem delete_upload_tolerates_retention env u st b t resp kv kv_error error more :
  get_bucket_name env = Ok b ->
  get_access_token env = Ok t ->
  session env (calls st) (delete_request b t u) = Response resp ->
  status resp = 403 ->
  json resp = Ok (VDict kv) ->
  dict_get kv "error" = Some (VDict kv_error) ->
  dict_get kv_error "errors" = Some (VList (VDict error :: more)) ->
  dict_get error "reason" = Some (VStr "retentionPolicyNotMet") ->
  delete_upload env (Some u) st = (Ok tt, record (Http (delete_request b t u)) st).
Proof.
  intros Hb Ht Hr Hs Hj H1 H2 H3.
  apply (@delete_upload_retention env u st b t resp kv kv_error error more
           Hb Ht Hr Hs Hj H1 H2 H3).
Qed.

Lemma delete_upload_tolerates_retention_witness :
  delete_upload Deletions.retained (Some "container/old") Scenario.st0 =
    (Ok tt,
     record (Http (delete_request "container_bucket" (Some "token") "container/old"))
       Scenario.st0).
Proof.
  apply (@delete_upload_tolerates_retention Deletions.retained "container/old"
           Scenario.st0 "container_bucket" (Some "token")
           (Scenario.answer 403 [] (Ok (Scenario.error_body "retentionPolicyNotMet")))
           [("error", VDict [("code", VInt 403);
                             ("errors", VList [VDict [("domain", VStr "global");
                                                      ("reason", VStr "retentionPolicyNotMet")]])])]
           [("code", VInt 403);
            ("errors", VList [VDict [("domain", VStr "global");
                                     ("reason", VStr "retentionPolicyNotMet")]])]
           [("domain", VStr "global"); ("reason", VStr "retentionPolicyNotMet")] []
           eq_refl eq_refl eq_refl eq_refl eq_refl eq_refl eq_refl eq_refl).
Defined.

Section RetryExhaustionWeighted.

Context {A : Type}.
Variable target : M A.
Variable Inv : State -> Prop.
Variable measure : State -> nat.
Variable weight : nat.
Variable e : exn.
Hypothesis retriable : RETRIABLE_EXCEPTIONS e = true.
Hypothesis fails :
  forall st, Inv st ->
    exists st', target st = (Raise e, st') /\ Inv st' /\
                measure st' = (measure st + weight)%nat.

Lemma retry_exhausted_weighted more :
  forall st, Inv st ->
    exists st', retry more target st = (Raise e, st') /\ Inv st' /\
                measure st' = (measure st + S more * weight)%nat.
Proof.
  induction more as [|more IH]; intros st Hst;
    destruct (fails Hst) as (st1 & H1 & I1 & T1).
  - exists st1. simpl. rewrite H1, retriable. repeat split; auto. lia.
  - destruct (IH st1 I1) as (st2 & H2 & I2 & T2).
    exists st2. rewrite (retry_again _ _ _ H1 retriable).
    repeat split; auto. lia.
Qed.

End RetryExhaustionWeighted.

(** What 10 refused tries of [delete_upload] leave behind. *)
Lemma delete_upload_refused env u st b t :
  get_bucket_name env = Ok b ->
  get_access_token env = Ok t ->
  answers env DELETE (fun resp => ~ In (status resp) [200; 204; 404; 403]) ->
  exists st',
    delete_upload env (Some u) st = (Raise GoogleCloudException, st') /\
    calls st' = (calls st ++ repeat (Http (delete_request b t u)) 10)%list /\
    dm st' = dm st /\ generated st' = generated st /\ logged st' = logged st.
Proof.
  intros Hb Ht Hans.
  set (req := delete_request b t u).
  destruct (@retry_exhausted unit (delete_upload_try env (Some u))
              (fun s => dm s = dm st /\ generated s = generated st /\
                        logged s = logged st /\
                        exists k, calls s = (calls st ++ repeat (Http req) k)%list)
              (fun s => List.length (calls s))
              GoogleCloudException eq_refl) with (more := 9%nat) (st := st)
    as (st' & H & (Hdm & Hg & Hl & k & Hk) & T).
  - intros s (Hs1 & Hs2 & Hs3 & k & Hk).
    unfold delete_upload_try, get_headers, bind, lift, ret, http, raise.
    rewrite Hb. cbv beta iota. rewrite Ht. cbv beta iota.
    fold (delete_request b t u). fold req.
    destruct (Hans (calls s) req eq_refl) as (resp & Hr & Hbad). rewrite Hr.
    rewrite (@in_list_false (status resp) [200; 204; 404])
      by (intros K; apply Hbad; simpl in *; tauto).
    replace (status resp =? 404) with false
      by (symmetry; apply Z.eqb_neq; intros E; apply Hbad; rewrite E; simpl; tauto).
    replace (status resp =? 403) with false
      by (symmetry; apply Z.eqb_neq; intros E; apply Hbad; rewrite E; simpl; tauto).
    cbn [negb andb]. eexists. split; [reflexivity|].
    cbn [dm calls generated logged record]. split.
    + repeat split; auto. exists (S k). rewrite Hk, <- app_assoc. f_equal.
      change [Http req] with (repeat (Http req) 1).
      rewrite <- repeat_app. f_equal. lia.
    + rewrite length_app. simpl. lia.
  - repeat split; auto. exists O. simpl. rewrite app_nil_r. reflexivity.
  - exists st'. split; [exact H|]. repeat split; auto.
    rewrite Hk in T |- *. rewrite length_app, repeat_length in T.
    replace k with 10%nat by lia. reflexivity.
Qed.

(** X10. A DELETE that the service answers, at every try, with a status
    other than 200, 204, 404 and 403 is sent 10 times, each time the same
    request; then [delete_upload] raises [GoogleCloudException].  Nothing
    else changes: the data manager and the log of messages are as they
    were. *)
Theorem delete_upload_retry_exhausted env u st b t :
  get_bucket_name env = Ok b ->
  get_access_token env = Ok t ->
  answers env DELETE (fun resp => ~ In (status resp) [200; 204; 404; 403]) ->
  exists st',
    delete_upload env (Some u) st = (Raise GoogleCloudException, st') /\
    calls st' = (calls st ++ repeat (Http (delete_request b t u)) 10)%list /\
    dm st' = dm st /\ logged st' = logged st.
Proof.
  intros Hb Ht Hans.
  destruct (@delete_upload_refused env u st b t Hb Ht Hans) as (st' & H & C & D & _ & L).
  exists st'. auto.
Qed.

Lemma delete_upload_retry_exhausted_witness :
  exists st',
    delete_upload Scenario.failing (Some "container/old") Scenario.st0 =
      (Raise GoogleCloudException, st') /\
    calls st' =
      repeat (Http (delete_request "container_bucket" (Some "token") "container/old")) 10 /\
    dm st' = Scenario.dm0 /\ logged st' = [].
Proof.
  apply (@delete_upload_retry_exhausted Scenario.failing "container/old" Scenario.st0
           "container_bucket" (Some "token") eq_refl eq_refl).
  intros h r _. eexists. split; [reflexivity|]. simpl. lia.
Defined.

(** ** [start] *)

Lemma count_method_app m a b :
  count_method m (a ++ b) = (count_method m a + count_method m b)%nat.
Proof.
  unfold count_method. rewrite filter_app, length_app. reflexivity.
Qed.

Lemma count_method_repeat_other m r k :
  method_eqb (meth r) m = false -> count_method m (repeat (Http r) k) = O.
Proof.
  intros H. induction k as [|k IH]; [reflexivity|].
  unfold count_method in *. cbn [repeat filter]. rewrite H. exact IH.
Qed.

Lemma count_method_repeat_same m r k :
  method_eqb (meth r) m = true -> count_method m (repeat (Http r) k) = k.
Proof.
  intros H. induction k as [|k IH]; [reflexivity|].
  unfold count_method in *. cbn [repeat filter]. rewrite H. cbn [List.length].
  rewrite IH. reflexivity.
Qed.

(** The first step of a try of [start]: the prior unfinished upload, if
    there is one, is deleted with one DELETE. *)
Lemma start_deletes_prior env st b t :
  get_bucket_name env = Ok b ->
  get_access_token env = Ok t ->
  upload_file_id (dm st) = None \/
    answers env DELETE (fun resp => In (status resp) [200; 204; 404]) ->
  exists st1,
    (match upload_file_id (dm st) with
     | Some id => delete_upload env (Some id)
     | None => ret tt
     end) st = (Ok tt, st1) /\
    calls st1 = (calls st ++ prior_delete b t (dm st))%list /\
    dm st1 = dm st /\ generated st1 = generated st /\ logged st1 = logged st.
Proof.
  intros Hb Ht Hprior. unfold prior_delete.
  destruct (upload_file_id (dm st)) as [id|] eqn:E.
  - destruct Hprior as [Hp|Hp]; [discriminate|].
    destruct (Hp (calls st) (delete_request b t id) eq_refl) as (resp & Hr & Hs).
    eexists. split; [apply (delete_upload_accepted _ _ _ Hb Ht Hr Hs)|].
    repeat split; reflexivity.
  - exists st. rewrite app_nil_r. repeat split; reflexivity.
Qed.

(** X11. A [start] whose initiate request is answered 200 with a
    [Location] header returns at the first try.  It has deleted the prior
    unfinished upload first, if the session held one, and then made one POST
    to the upload endpoint for a freshly generated name; the data manager
    now holds that name as [upload_file_id], the [Location] as
    [resumable_uri] and 0 as [current_upload], its other fields as before. *)
Theorem start_opens_session env st b t location :
  get_bucket_name env = Ok b ->
  get_access_token env = Ok t ->
  upload_file_id (dm st) = None \/
    answers env DELETE (fun resp => In (status resp) [200; 204; 404]) ->
  answers env POST (fun resp =>
    status resp = 200 /\ header_get (resp_headers resp) "Location" = Some location) ->
  exists st' r,
    start env st = (Ok tt, st') /\
    calls st' = (calls st ++ prior_delete b t (dm st) ++ [Http r])%list /\
    meth r = POST /\
    url r = Some (UPLOAD_URL b ++ "&name=" ++ quote_plus (generator env (generated st))) /\
    dm st' =
      {| upload_file_id := Some (generator env (generated st));
         resumable_uri := Some location;
         current_upload := Some 0;
         uri := uri (dm st); filename := filename (dm st);
         size := size (dm st); content_type := content_type (dm st) |}.
Proof.
  intros Hb Ht Hprior Hpost.
  destruct (@start_deletes_prior env st b t Hb Ht Hprior) as (st1 & Hd & Hc & Hdm & Hg & _).
  unfold start, on_exception.
  match goal with
  | |- exists st' r, retry _ _ _ = _ /\ _ =>
      assert (Htry : exists st' r,
                 start_try env st = (Ok tt, st') /\
                 calls st' = (calls st ++ prior_delete b t (dm st) ++ [Http r])%list /\
                 meth r = POST /\
                 url r = Some (UPLOAD_URL b ++ "&name=" ++
                               quote_plus (generator env (generated st))) /\
                 dm st' =
                   {| upload_file_id := Some (generator env (generated st));
                      resumable_uri := Some location;
                      current_upload := Some 0;
                      uri := uri (dm st); filename := filename (dm st);
                      size := size (dm st); content_type := content_type (dm st) |})
  end.
  { unfold start_try. unfold bind at 1, get_dm at 1.
    unfold bind at 1. rewrite Hd.
    unfold bind at 1, generate at 1. unfold bind at 1, lift at 1. rewrite Hb.
    unfold bind at 1, get_dm at 1. unfold bind at 1, get_headers at 1.
    unfold bind at 1, lift at 1. rewrite Ht. unfold ret at 1.
    cbn [dm calls generated logged]. rewrite Hg, Hdm.
    match goal with
    | |- context [http env ?r] =>
        destruct (Hpost (calls st1) r eq_refl) as (resp & Hr & Hs & Hl);
        unfold bind at 1, http at 1; cbn [calls]; rewrite Hr, Hs;
        cbn [Z.eqb Pos.eqb negb]; unfold bind at 1, header; rewrite Hl;
        unfold ret at 1, update; eexists; exists r
    end.
    split; [reflexivity|]. cbn [calls dm record].
    split; [rewrite Hc, <- app_assoc; reflexivity|].
    split; [reflexivity|]. split; reflexivity. }
  destruct Htry as (st' & r & H & rest).
  exists st', r. split; [apply retry_returns; exact H | exact rest].
Qed.

Lemma start_opens_session_witness :
  exists st' r,
    start Deletions.ready Deletions.st_pending = (Ok tt, st') /\
    calls st' =
      [Http (delete_request "container_bucket" (Some "token") "container/upload-0");
       Http r] /\
    upload_file_id (dm st') = Some "container/upload-1" /\
    resumable_uri (dm st') = Some "https://www.googleapis.com/upload/session-2" /\
    current_upload (dm st') = Some 0.
Proof.
  destruct (@start_opens_session Deletions.ready Deletions.st_pending
              "container_bucket" (Some "token")
              "https://www.googleapis.com/upload/session-2" eq_refl eq_refl)
    as (st' & r & H & C & _ & _ & D).
  - right. intros h r Hm. eexists. split; [simpl; rewrite Hm; reflexivity|].
    simpl. tauto.
  - intros h r Hm. eexists. split; [simpl; rewrite Hm; reflexivity|].
    split; reflexivity.
  - exists st', r. rewrite D. repeat split; auto.
Defined.

(** X12. The retries of [start] and of [delete_upload] nest.  When the
    session holds an unfinished upload whose DELETE the service answers, at
    every try, with a status other than 200, 204, 404 and 403, [start] sends
    that DELETE 100 times (10 tries of [start], each with the 10 tries of
    [delete_upload]) and raises [GoogleCloudException]; it never generates a
    name, never makes the initiate request, and leaves the data manager as
    it was. *)
Theorem start_prior_undeletable env st id b t :
  upload_file_id (dm st) = Some id ->
  get_bucket_name env = Ok b ->
  get_access_token env = Ok t ->
  answers env DELETE (fun resp => ~ In (status resp) [200; 204; 404; 403]) ->
  exists st',
    start env st = (Raise GoogleCloudException, st') /\
    calls st' = (calls st ++ repeat (Http (delete_request b t id)) 100)%list /\
    count_method POST (calls st') = count_method POST (calls st) /\
    generated st' = generated st /\
    dm st' = dm st.
Proof.
  intros Hid Hb Ht Hans.
  set (req := delete_request b t id).
  destruct (@retry_exhausted_weighted unit (start_try env)
              (fun s => dm s = dm st /\ generated s = generated st /\
                        exists k, calls s = (calls st ++ repeat (Http req) k)%list)
              (fun s => List.length (calls s)) 10%nat
              GoogleCloudException eq_refl) with (more := 9%nat) (st := st)
    as (st' & H & (Hdm & Hg & k & Hk) & T).
  - intros s (Hs1 & Hs2 & k & Hk).
    destruct (@delete_upload_refused env id s b t Hb Ht Hans)
      as (s' & Hd & Hc & Hd1 & Hd2 & _).
    exists s'. split; [|split].
    + unfold start_try. unfold bind at 1, get_dm at 1. rewrite Hs1, Hid.
      unfold bind at 1. rewrite Hd. reflexivity.
    + split; [congruence|]. split; [congruence|].
      exists (k + 10)%nat. rewrite Hc, Hk, <- app_assoc, repeat_app. reflexivity.
    + rewrite Hc, length_app, repeat_length. reflexivity.
  - split; [reflexivity|]. split; [reflexivity|].
    exists O. simpl. rewrite app_nil_r. reflexivity.
  - exists st'. split; [exact H|].
    rewrite Hk in T. rewrite length_app, repeat_length in T.
    replace k with 100%nat in Hk by lia.
    split; [exact Hk|]. split; [|split; assumption].
    rewrite Hk, count_method_app, count_method_repeat_other by reflexivity. lia.
Qed.

Lemma start_prior_undeletable_witness :
  exists st',
    start Scenario.failing Deletions.st_pending = (Raise GoogleCloudException, st') /\
    calls st' =
      repeat (Http (delete_request "container_bucket" (Some "token") "container/upload-0"))
        100 /\
    dm st' = Deletions.dm_pending.
Proof.
  destruct (@start_prior_undeletable Scenario.failing Deletions.st_pending
              "container/upload-0" "container_bucket" (Some "token")
              eq_refl eq_refl eq_refl)
    as (st' & H & C & _ & _ & D).
  - intros h r _. eexists. split; [reflexivity|]. simpl. lia.
  - exists st'. repeat split; assumption.
Defined.

(** X13. A 200 answer to the initiate request that has no [Location]
    header makes [start] raise [KeyError] at once (the class is not
    retriable): one POST was made, after the DELETE of the prior upload if
    there was one, and the data manager is as it was, so it still names the
    prior upload. *)
Theorem start_without_location env st b t :
  get_bucket_name env = Ok b ->
  get_access_token env = Ok t ->
  upload_file_id (dm st) = None \/
    answers env DELETE (fun resp => In (status resp) [200; 204; 404]) ->
  answers env POST (fun resp =>
    status resp = 200 /\ header_get (resp_headers resp) "Location" = None) ->
  exists st' r,
    start env st = (Raise KeyError, st') /\
    calls st' = (calls st ++ prior_delete b t (dm st) ++ [Http r])%list /\
    meth r = POST /\
    dm st' = dm st.
Proof.
  intros Hb Ht Hprior Hpost.
  destruct (@start_deletes_prior env st b t Hb Ht Hprior) as (st1 & Hd & Hc & Hdm & Hg & _).
  assert (Htry : exists st' r,
             start_try env st = (Raise KeyError, st') /\
             calls st' = (calls st ++ prior_delete b t (dm st) ++ [Http r])%list /\
             meth r = POST /\ dm st' = dm st).
  { unfold start_try. unfold bind at 1, get_dm at 1.
    unfold bind at 1. rewrite Hd.
    unfold bind at 1, generate at 1. unfold bind at 1, lift at 1. rewrite Hb.
    unfold bind at 1, get_dm at 1. unfold bind at 1, get_headers at 1.
    unfold bind at 1, lift at 1. rewrite Ht. unfold ret at 1.
    cbn [dm calls generated logged].
    match goal with
    | |- context [http env ?r] =>
        destruct (Hpost (calls st1) r eq_refl) as (resp & Hr & Hs & Hl);
        unfold bind at 1, http at 1; cbn [calls]; rewrite Hr, Hs;
        cbn [Z.eqb Pos.eqb negb]; unfold bind at 1, header; rewrite Hl;
        unfold raise; eexists; exists r
    end.
    split; [reflexivity|]. cbn [calls dm record].
    split; [rewrite Hc, <- app_assoc; reflexivity|].
    split; [reflexivity | exact Hdm]. }
  destruct Htry as (st' & r & H & rest).
  exists st', r. split; [|exact rest].
  unfold start, on_exception. apply retry_not_retriable; [exact H | reflexivity].
Qed.

Lemma start_without_location_witness :
  exists st' r,
    start Deletions.lost Deletions.st_pending = (Raise KeyError, st') /\
    calls st' =
      [Http (delete_request "container_bucket" (Some "token") "container/upload-0");
       Http r] /\
    upload_file_id (dm st') = Some "container/upload-0".
Proof.
  destruct (@start_without_location Deletions.lost Deletions.st_pending
              "container_bucket" (Some "token") eq_refl eq_refl)
    as (st' & r & H & C & _ & D).
  - right. intros h r Hm. eexists. split; [simpl; rewrite Hm; reflexivity|].
    simpl. tauto.
  - intros h r Hm. eexists. split; [simpl; rewrite Hm; reflexivity|].
    split; reflexivity.
  - exists st', r. rewrite D. repeat split; auto.
Defined.

(** ** Listings: [iterate_bucket_page], [get_blobs], [iterate_bucket] *)

Lemma append_slash_nonempty s : (s ++ "/")%string <> EmptyString.
Proof. destruct s; discriminate. Qed.

Lemma iterate_bucket_page_scoped env page_token prefix st :
  only_calls (scoped_listing env prefix) st
    (snd (GCloudBlobStore.iterate_bucket_page env page_token prefix st)).
Proof.
  unfold GCloudBlobStore.iterate_bucket_page.
  apply only_calls_bind; [apply only_calls_lift|]. intros bucket st1 _.
  cbv zeta.
  apply only_calls_bind; [apply only_calls_lift|]. intros access_token st2 _.
  apply only_calls_bind.
  - apply only_calls_http.
    set (p := match prefix with
              | Some p => if String.eqb p EmptyString
                          then (container_id env ++ "/")%string else p
              | None => (container_id env ++ "/")%string
              end).
    assert (Hp : p <> EmptyString /\
                 (prefix = Some p \/ p = (container_id env ++ "/")%string)).
    { unfold p. destruct prefix as [q|].
      - destruct (String.eqb q EmptyString) eqn:E.
        + split; [apply append_slash_nonempty | right; reflexivity].
        + apply String.eqb_neq in E. split; [exact E | left; reflexivity].
      - split; [apply append_slash_nonempty | right; reflexivity]. }
    eexists. exists p. split; [reflexivity|]. split; [reflexivity|].
    split; [|exact Hp].
    destruct (truthy page_token); reflexivity.
  - intros resp st3 _.
    destruct (status resp =? 200); [apply only_calls_lift | apply only_calls_raise].
Qed.

Lemma get_blobs_scoped env page_token prefix st :
  only_calls (scoped_listing env prefix) st
    (snd (GCloudBlobStore.get_blobs env page_token prefix st)).
Proof.
  unfold GCloudBlobStore.get_blobs.
  apply only_calls_bind; [apply iterate_bucket_page_scoped|]. intros page st1 _.
  repeat (apply only_calls_bind; [apply only_calls_lift|]; intros ? ? _).
  apply only_calls_ret.
Qed.

Lemma split_leading_marker suffix : first (split ("::" ++ suffix) "::") = EmptyString.
Proof. destruct suffix; reflexivity. Qed.

(** X14. A listing is always scoped.  Every request [iterate_bucket_page]
    makes is a GET whose [prefix] parameter is not empty: the prefix given
    or, when none or an empty one is given, the one of the container
    ([container.id + "/"]); and it makes no other call.  So the empty prefix
    of a compound key that starts with ["::"] lists the whole container. *)
Theorem listing_is_scoped env page_token prefix st :
  only_calls (scoped_listing env prefix) st
    (snd (GCloudBlobStore.iterate_bucket_page env page_token prefix st)) /\
  only_calls (scoped_listing env prefix) st
    (snd (GCloudBlobStore.get_blobs env page_token prefix st)) /\
  (forall suffix,
     GCloudBlobStore.get_blobs env page_token
       (Some (first (split ("::" ++ suffix) "::"))) st =
     GCloudBlobStore.get_blobs env page_token None st).
Proof.
  split; [apply iterate_bucket_page_scoped|].
  split; [apply get_blobs_scoped|].
  intros suffix. rewrite split_leading_marker. reflexivity.
Qed.

(** X15. A first page without the [items] key ends the enumeration at
    once, whatever else the page holds: [iterate_bucket] yields nothing and
    makes no second request, even when the page carries the token of a next
    page. *)
Theorem iterate_bucket_without_items env st b t fuel kv :
  get_bucket_name env = Ok b ->
  get_access_token env = Ok t ->
  (forall r, exists resp,
     session env (calls st) r = Response resp /\
     status resp = 200 /\ json resp = Ok (VDict kv)) ->
  dict_get kv "items" = None ->
  exists r,
    GCloudBlobStore.iterate_bucket env fuel st = (([], Done), record (Http r) st).
Proof.
  intros Hb Ht Hr Hk.
  destruct (@iterate_bucket_page_served env st b t VNone (VDict kv) Hb Ht Hr)
    as (r & Hpage).
  exists r. unfold GCloudBlobStore.iterate_bucket. unfold await at 1. rewrite Hpage.
  unfold await at 1, lift at 1. cbn [contains]. rewrite Hk. reflexivity.
Qed.

Lemma iterate_bucket_without_items_witness :
  exists r,
    GCloudBlobStore.iterate_bucket Prefixes.no_items 5 Scenario.st0 =
      (([], Done), record (Http r) Scenario.st0).
Proof.
  apply (@iterate_bucket_without_items Prefixes.no_items Scenario.st0
           "container_bucket" (Some "token") 5%nat
           [("kind", VStr "storage#objects"); ("nextPageToken", VStr "token-1")]
           eq_refl eq_refl).
  - intros r. eexists. split; [reflexivity|]. split; reflexivity.
  - reflexivity.
Defined.

(** ** [delete_blobs] and [delete_by_prefix] *)

Lemma count_batches_app a b :
  count_batches (a ++ b) = (count_batches a + count_batches b)%nat.
Proof.
  unfold count_batches. rewrite filter_app, length_app. reflexivity.
Qed.

Lemma scoped_no_batch env prefix st st1 :
  only_calls (scoped_listing env prefix) st st1 ->
  count_batches (calls st1) = count_batches (calls st).
Proof.
  intros (_ & new & Hc & Hnew). rewrite Hc, count_batches_app. clear Hc.
  assert (E : count_batches new = O).
  { induction Hnew as [|c l (r & p & Hcall & _) _ IH]; [reflexivity|].
    subst c. exact IH. }
  lia.
Qed.

Lemma marker_condition u :
  str_in "::" u = true ->
  negb (String.eqb u EmptyString) && str_in "::" u = true.
Proof.
  intros H. rewrite H. destruct u; [discriminate H | reflexivity].
Qed.

Lemma filter_lengths {A} (f : A -> bool) l :
  (List.length (filter f l) + List.length (filter (fun x => negb (f x)) l))%nat =
  List.length l.
Proof.
  induction l as [|x l IH]; [reflexivity|]. cbn [filter].
  destruct (f x); cbn [negb List.length]; lia.
Qed.

(** The bucket [delete_blobs] works on, when [delete_by_prefix] hands it
    the resolved name. *)
Lemma delete_blobs_resolved env keys b st responses :
  get_client env = Ok tt ->
  get_bucket_name env = Ok b ->
  batch_responses env (calls st) b keys = Ok responses ->
  List.length responses = List.length keys ->
  GCloudBlobStore.delete_blobs env keys (Some b) st =
    (Ok (map fst (filter (fun kr => counted_success (snd kr)) (combine keys responses)),
         map fst (filter (fun kr => negb (counted_success (snd kr)))
                    (combine keys responses))),
     record (Batch b keys) st).
Proof.
  intros Hc Hb Hr Hlen.
  destruct (String.eqb b EmptyString) eqn:E.
  - unfold GCloudBlobStore.delete_blobs, bind, lift, ret, GCloudBlobStore.batch.
    rewrite Hc, E, Hb, Hr.
    pose proof (partition_by_status responses [] keys [] [] (eq_sym Hlen)) as Hp.
    cbn [app List.length] in Hp. rewrite Hp. reflexivity.
  - apply String.eqb_neq in E.
    apply (@delete_blobs_partitions env keys b st responses Hc E Hr Hlen).
Qed.

(** X16. With one response per key, [delete_blobs] makes a single batch
    call and returns without raising, whatever the status codes: the keys
    answered with a code from 200 to 300 in the first list, the others in
    the second, both in the order of the keys, and every key in one of the
    two. *)
Theorem delete_blobs_splits_keys env keys b st responses :
  get_client env = Ok tt ->
  get_bucket_name env = Ok b ->
  batch_responses env (calls st) b keys = Ok responses ->
  List.length responses = List.length keys ->
  exists success_keys failed_keys,
    GCloudBlobStore.delete_blobs env keys (Some b) st =
      (Ok (success_keys, failed_keys), record (Batch b keys) st) /\
    success_keys =
      map fst (filter (fun kr => counted_success (snd kr)) (combine keys responses)) /\
    failed_keys =
      map fst (filter (fun kr => negb (counted_success (snd kr)))
                 (combine keys responses)) /\
    (List.length success_keys + List.length failed_keys)%nat = List.length keys.
Proof.
  intros Hc Hb Hr Hlen. do 2 eexists.
  split; [apply (@delete_blobs_resolved env keys b st responses Hc Hb Hr Hlen)|].
  split; [reflexivity|]. split; [reflexivity|].
  rewrite !length_map, filter_lengths, length_combine. lia.
Qed.

Lemma delete_blobs_splits_keys_witness :
  exists success_keys failed_keys,
    GCloudBlobStore.delete_blobs (Scenario.batch_host [204; 503; 200; 404])
      [VStr "a"; VStr "b"; VStr "c"; VStr "d"] (Some "container_bucket") Scenario.st0 =
      (Ok (success_keys, failed_keys),
       record (Batch "container_bucket" [VStr "a"; VStr "b"; VStr "c"; VStr "d"])
         Scenario.st0) /\
    success_keys = [VStr "a"; VStr "c"] /\
    failed_keys = [VStr "b"; VStr "d"].
Proof.
  destruct (@delete_blobs_splits_keys (Scenario.batch_host [204; 503; 200; 404])
              [VStr "a"; VStr "b"; VStr "c"; VStr "d"] "container_bucket" Scenario.st0
              [204; 503; 200; 404] eq_refl eq_refl eq_refl eq_refl)
    as (s & f & H & Hs & Hf & _).
  exists s, f. split; [exact H|]. split; [rewrite Hs | rewrite Hf]; reflexivity.
Defined.

Lemma delete_by_prefix_try_listed env u st blobs next st1 keys :
  str_in "::" u = true ->
  GCloudBlobStore.get_blobs env VNone (Some (first (split u "::"))) st =
    (Ok (blobs, next), st1) ->
  candidates blobs = Ok keys ->
  delete_by_prefix_try env (Some u) st =
    match keys with
    | [] => (Ok false, st1)
    | _ :: _ =>
        (bucket_name <- lift (get_bucket_name env) ;;
         r <- GCloudBlobStore.delete_blobs env keys (Some bucket_name) ;;
         match snd r with
         | _ :: _ => raise GoogleCloudException
         | [] => ret true
         end) st1
    end.
Proof.
  intros Hu Hg Hk. unfold delete_by_prefix_try.
  rewrite (marker_condition _ Hu). cbv zeta.
  unfold bind at 1. rewrite Hg. cbn [fst].
  unfold bind at 1, lift at 1. rewrite Hk.
  destruct keys; reflexivity.
Qed.

(** X17. When the listing of the prefix of a compound key has no name with
    the marker, [delete_by_prefix] returns [False]: it has made the calls of
    the listing and no batch, so nothing was deleted. *)
Theorem delete_by_prefix_nothing_to_delete env u st blobs next st1 :
  str_in "::" u = true ->
  GCloudBlobStore.get_blobs env VNone (Some (first (split u "::"))) st =
    (Ok (blobs, next), st1) ->
  candidates blobs = Ok [] ->
  delete_by_prefix env (Some u) st = (Ok false, st1) /\
  count_batches (calls st1) = count_batches (calls st).
Proof.
  intros Hu Hg Hk. split.
  - unfold delete_by_prefix, on_exception. apply retry_returns.
    apply (@delete_by_prefix_try_listed env u st blobs next st1 [] Hu Hg Hk).
  - pose proof (get_blobs_scoped env VNone (Some (first (split u "::"))) st) as H.
    rewrite Hg in H. apply (@scoped_no_batch env _ st st1 H).
Qed.

Lemma delete_by_prefix_nothing_to_delete_witness :
  fst (delete_by_prefix Prefixes.unmarked (Some "container/x::1") Scenario.st0) = Ok false /\
  count_batches
    (calls (snd (delete_by_prefix Prefixes.unmarked (Some "container/x::1") Scenario.st0)))
    = O.
Proof.
  destruct (@delete_by_prefix_nothing_to_delete Prefixes.unmarked "container/x::1"
              Scenario.st0
              (fst (match fst (GCloudBlobStore.get_blobs Prefixes.unmarked VNone
                                 (Some "container/x") Scenario.st0) with
                    | Ok r => r
                    | Raise _ => ([], VNone)
                    end))
              VNone
              (snd (GCloudBlobStore.get_blobs Prefixes.unmarked VNone
                      (Some "container/x") Scenario.st0))
              eq_refl eq_refl eq_refl) as (H & C).
  rewrite H. split; [reflexivity | exact C].
Defined.

(** X18. When the listing has names with the marker and the batch answers
    a code from 200 to 300 for each of them, [delete_by_prefix] returns
    [True] at the first try: after the listing it has made one batch, on
    the resolved bucket, of exactly the marked names, in the order of the
    listing. *)
Theorem delete_by_prefix_deletes_marked env u st blobs next st1 key keys b responses :
  str_in "::" u = true ->
  GCloudBlobStore.get_blobs env VNone (Some (first (split u "::"))) st =
    (Ok (blobs, next), st1) ->
  candidates blobs = Ok (key :: keys) ->
  get_client env = Ok tt ->
  get_bucket_name env = Ok b ->
  batch_responses env (calls st1) b (key :: keys) = Ok responses ->
  List.length responses = List.length (key :: keys) ->
  Forall (fun code => counted_success code = true) responses ->
  delete_by_prefix env (Some u) st = (Ok true, record (Batch b (key :: keys)) st1).
Proof.
  intros Hu Hg Hk Hc Hb Hr Hlen Hall.
  unfold delete_by_prefix, on_exception. apply retry_returns.
  rewrite (@delete_by_prefix_try_listed env u st blobs next st1 (key :: keys) Hu Hg Hk).
  unfold bind at 1, lift at 1. rewrite Hb.
  unfold bind at 1.
  rewrite (@delete_blobs_resolved env (key :: keys) b st1 responses Hc Hb Hr Hlen).
  cbn [snd].
  replace (filter (fun kr => negb (counted_success (snd kr)))
             (combine (key :: keys) responses)) with (@nil (value * Z)); [reflexivity|].
  symmetry. clear Hr Hlen. revert Hall. generalize (key :: keys).
  induction responses as [|code rest IH]; intros l Hall.
  - destruct l; reflexivity.
  - destruct l as [|k l]; [reflexivity|]. inversion Hall; subst.
    cbn [combine filter snd]. rewrite H1. cbn [negb]. apply IH. assumption.
Qed.

Lemma delete_by_prefix_deletes_marked_witness :
  delete_by_prefix Scenario.compound (Some "container/x::1") Scenario.st0 =
    (Ok true,
     record (Batch "container_bucket" [VStr "container/x::1"; VStr "container/x::2"])
       (snd (GCloudBlobStore.get_blobs Scenario.compound VNone (Some "container/x")
               Scenario.st0))).
Proof.
  apply (@delete_by_prefix_deletes_marked Scenario.compound "container/x::1" Scenario.st0
           (fst (match fst (GCloudBlobStore.get_blobs Scenario.compound VNone
                              (Some "container/x") Scenario.st0) with
                 | Ok r => r
                 | Raise _ => ([], VNone)
                 end))
           VNone
           (snd (GCloudBlobStore.get_blobs Scenario.compound VNone (Some "container/x")
                   Scenario.st0))
           (VStr "container/x::1") [VStr "container/x::2"] "container_bucket" [204; 204]
           eq_refl eq_refl eq_refl eq_refl eq_refl eq_refl eq_refl).
  repeat constructor.
Defined.

Lemma failed_keys_nonempty responses :
  forall keys,
    List.length responses = List.length keys ->
    Exists (fun code => counted_success code = false) responses ->
    filter (fun kr : value * Z => negb (counted_success (snd kr)))
      (combine keys responses) <> [].
Proof.
  induction responses as [|code rest IH]; intros keys Hlen Hex.
  - inversion Hex.
  - destruct keys as [|k keys]; [discriminate|]. cbn [combine filter snd].
    destruct (counted_success code) eqn:E; cbn [negb]; [|discriminate].
    inversion Hex as [? ? H|? ? H]; subst; [congruence|].
    apply IH; [simpl in Hlen; lia | exact H].
Qed.

(** X19. When the batch of [delete_by_prefix] leaves a key undeleted, the
    try raises [GoogleCloudException], which the policy retries: against a
    listing and a batch that keep answering the same, [delete_by_prefix]
    makes the whole batch 10 times, deleting again the keys it had deleted,
    and then raises. *)
Theorem delete_by_prefix_failure_is_retried env u st blobs next key keys b responses :
  str_in "::" u = true ->
  (forall s, fst (GCloudBlobStore.get_blobs env VNone (Some (first (split u "::"))) s) =
             Ok (blobs, next)) ->
  candidates blobs = Ok (key :: keys) ->
  get_client env = Ok tt ->
  get_bucket_name env = Ok b ->
  (forall h, batch_responses env h b (key :: keys) = Ok responses) ->
  List.length responses = List.length (key :: keys) ->
  Exists (fun code => counted_success code = false) responses ->
  exists st',
    delete_by_prefix env (Some u) st = (Raise GoogleCloudException, st') /\
    count_batches (calls st') = (count_batches (calls st) + 10)%nat /\
    (forall bucket_name ks,
       In (Batch bucket_name ks) (calls st') ->
       In (Batch bucket_name ks) (calls st) \/ (bucket_name = b /\ ks = key :: keys)).
Proof.
  intros Hu Hg Hk Hc Hb Hr Hlen Hex.
  destruct (@retry_exhausted bool (delete_by_prefix_try env (Some u))
              (fun s => forall bucket_name ks,
                          In (Batch bucket_name ks) (calls s) ->
                          In (Batch bucket_name ks) (calls st) \/
                          (bucket_name = b /\ ks = key :: keys))
              (fun s => count_batches (calls s))
              GoogleCloudException eq_refl) with (more := 9%nat) (st := st)
    as (st' & H & I & T).
  - intros s Hs.
    destruct (GCloudBlobStore.get_blobs env VNone (Some (first (split u "::"))) s)
      as [r s1] eqn:Eg.
    pose proof (Hg s) as Hg1. rewrite Eg in Hg1. cbn [fst] in Hg1. subst r.
    pose proof (get_blobs_scoped env VNone (Some (first (split u "::"))) s) as Hsc.
    rewrite Eg in Hsc. cbn [snd] in Hsc.
    exists (record (Batch b (key :: keys)) s1). split; [|split].
    + rewrite (@delete_by_prefix_try_listed env u s blobs next s1 (key :: keys) Hu Eg Hk).
      unfold bind at 1, lift at 1. rewrite Hb. unfold bind at 1.
      rewrite (@delete_blobs_resolved env (key :: keys) b s1 responses Hc Hb (Hr _) Hlen).
      cbn [snd].
      destruct (filter (fun kr : value * Z => negb (counted_success (snd kr)))
                  (combine (key :: keys) responses)) eqn:Ef.
      * exfalso. apply (@failed_keys_nonempty responses (key :: keys) Hlen Hex Ef).
      * reflexivity.
    + intros bn ks Hin. cbn [calls record] in Hin.
      apply in_app_or in Hin. destruct Hin as [Hin|[Hin|[]]].
      * destruct Hsc as (_ & new & Hcalls & Hnew). rewrite Hcalls in Hin.
        apply in_app_or in Hin. destruct Hin as [Hin|Hin]; [apply Hs; exact Hin|].
        rewrite Forall_forall in Hnew. destruct (Hnew _ Hin) as (r & p & Hbad & _).
        discriminate.
      * inversion Hin; subst. right. split; reflexivity.
    + cbn [calls record]. rewrite count_batches_app, (@scoped_no_batch env _ s s1 Hsc).
      change (count_batches [Batch b (key :: keys)]) with 1%nat. lia.
  - intros bn ks Hin. left. exact Hin.
  - exists st'. split; [exact H|]. split; [exact T | exact I].
Qed.

Lemma delete_by_prefix_failure_is_retried_witness :
  exists st',
    delete_by_prefix Prefixes.half_deleted (Some "container/x::1") Scenario.st0 =
      (Raise GoogleCloudException, st') /\
    count_batches (calls st') = 10%nat.
Proof.
  destruct (@delete_by_prefix_failure_is_retried Prefixes.half_deleted "container/x::1"
              Scenario.st0
              (fst (match fst (GCloudBlobStore.get_blobs Prefixes.half_deleted VNone
                                 (Some "container/x") Scenario.st0) with
                    | Ok r => r
                    | Raise _ => ([], VNone)
                    end))
              VNone (VStr "container/x::1") [VStr "container/x::2"]
              "container_bucket" [204; 500] eq_refl)
    as (st' & H & C & _).
  - intros s. reflexivity.
  - reflexivity.
  - reflexivity.
  - reflexivity.
  - intros h. reflexivity.
  - reflexivity.
  - right. left. reflexivity.
  - exists st'. split; [exact H | exact C].
Defined.

(** ** [exists] *)

(** X20. [exists] returns whether the status of its one GET is 200, and
    never raises on a status: any other answer, be it 404, 403 or 500, gives
    [False] without a retry.  With no uploaded file in the field it returns
    [False] without any request. *)
Theorem exists_reports_status env st :
  (_is_uploaded_file (field_get env) = false -> exists_ env st = (Ok false, st)) /\
  (forall file u b t resp,
     field_get env = Some file ->
     file_uri file = Some u ->
     get_bucket_name env = Ok b ->
     get_access_token env = Ok t ->
     session env (calls st) (probe_request b t u) = Response resp ->
     exists_ env st =
       (Ok (status resp =? 200), record (Http (probe_request b t u)) st)).
Proof.
  split.
  - intros H. unfold exists_, on_exception. apply retry_returns.
    unfold exists_try. rewrite H. reflexivity.
  - intros file u b t resp Hf Hu Hb Ht Hr.
    unfold exists_, on_exception. apply retry_returns.
    unfold exists_try, get_headers, bind, lift, ret, http.
    rewrite Hf. unfold _is_uploaded_file. rewrite Hu. cbn [negb].
    rewrite Hb. cbv beta iota. rewrite Ht. cbv beta iota zeta.
    cbn [option_map]. fold (probe_request b t u). rewrite Hr. reflexivity.
Qed.

Lemma exists_reports_status_witness :
  exists_ Copies.broken Scenario.st0 =
    (Ok false,
     record (Http (probe_request "container_bucket" (Some "token") "container/doc"))
       Scenario.st0).
Proof.
  destruct (exists_reports_status Copies.broken Scenario.st0) as (_ & H).
  apply (H Scenario.doc_file "container/doc" "container_bucket" (Some "token")
           (Scenario.answer 500 [] (Raise ValueError))
           eq_refl eq_refl eq_refl eq_refl eq_refl).
Defined.

(** X21. When the GET of [exists] fails at every try with an exception of
    a retriable class, it is made 4 times, the [max_tries] of [exists], and
    that exception is then raised. *)
Theorem exists_retry_exhausted env st file u b t e :
  field_get env = Some file ->
  file_uri file = Some u ->
  get_bucket_name env = Ok b ->
  get_access_token env = Ok t ->
  RETRIABLE_EXCEPTIONS e = true ->
  (forall h r, session env h r = Failure e) ->
  exists st',
    exists_ env st = (Raise e, st') /\
    calls st' = (calls st ++ repeat (Http (probe_request b t u)) 4)%list.
Proof.
  intros Hf Hu Hb Ht He Hfail.
  set (req := probe_request b t u).
  destruct (@retry_exhausted bool (exists_try env)
              (fun s => exists k, calls s = (calls st ++ repeat (Http req) k)%list)
              (fun s => List.length (calls s)) e He) with (more := 3%nat) (st := st)
    as (st' & H & (k & Hk) & T).
  - intros s (k & Hk).
    unfold exists_try, get_headers, bind, lift, ret, http.
    rewrite Hf. unfold _is_uploaded_file. rewrite Hu. cbn [negb].
    rewrite Hb. cbv beta iota. rewrite Ht. cbv beta iota zeta.
    cbn [option_map]. fold (probe_request b t u). fold req. rewrite Hfail.
    eexists. split; [reflexivity|]. cbn [calls record]. split.
    + exists (S k). rewrite Hk, <- app_assoc. f_equal.
      change [Http req] with (repeat (Http req) 1).
      rewrite <- repeat_app. f_equal. lia.
    + rewrite length_app. simpl. lia.
  - exists O. simpl. rewrite app_nil_r. reflexivity.
  - exists st'. split; [exact H|].
    rewrite Hk in T |- *. rewrite length_app, repeat_length in T.
    replace k with 4%nat by lia. reflexivity.
Qed.

Lemma exists_retry_exhausted_witness :
  exists st',
    exists_ Copies.offline Scenario.st0 = (Raise ClientConnectorError, st') /\
    calls st' =
      repeat (Http (probe_request "container_bucket" (Some "token") "container/doc")) 4.
Proof.
  apply (@exists_retry_exhausted Copies.offline Scenario.st0 Scenario.doc_file
           "container/doc" "container_bucket" (Some "token") ClientConnectorError
           eq_refl eq_refl eq_refl eq_refl eq_refl).
  intros h r. reflexivity.
Defined.

(** ** [copy] *)

Lemma copy_try_request env st file u b t :
  field_get env = Some file ->
  file_uri file = Some u ->
  get_bucket_name env = Ok b ->
  get_access_token env = Ok t ->
  copy_try env st =
    (let new_uri := generator env (generated st) in
     let st1 := {| dm := dm st; calls := calls st;
                   generated := S (generated st); logged := logged st |} in
     (resp <- http env (copy_request b t u new_uri) ;;
      if status resp =? 404
      then log WARNING copy_warning ;;; raise HTTPNotFound
      else
        data <- lift (json resp) ;;
        name <- lift (getitem data "name") ;;
        if negb (value_is_str name new_uri)
        then raise AssertionError
        else
          content_type <- lift (getitem data "contentType") ;;
          size <- lift (getitem data "size") ;;
          size <- lift (int size) ;;
          ret {| copy_content_type := content_type;
                 copy_size := size;
                 copy_uri := new_uri;
                 copy_filename := filename_or_unknown file |}) st1).
Proof.
  intros Hf Hu Hb Ht. unfold copy_try.
  rewrite Hf. unfold _is_uploaded_file. rewrite Hu. cbn [negb].
  unfold bind at 1, generate at 1. unfold bind at 1, lift at 1. rewrite Hb.
  unfold bind at 1, get_headers at 1. unfold bind at 1, lift at 1. rewrite Ht.
  unfold ret at 1. reflexivity.
Qed.

(** X22. [copy] needs a finished source.  With no uploaded file in the
    field it raises [HTTPNotFound] before any request and before a name is
    generated.  When the service answers its POST with 404 it raises
    [HTTPNotFound] as well, after that one POST and a warning in the log;
    this is not retried. *)
Theorem copy_needs_source env st :
  (_is_uploaded_file (field_get env) = false ->
   copy env st = (Raise HTTPNotFound, st)) /\
  (forall file u b t resp,
     field_get env = Some file ->
     file_uri file = Some u ->
     get_bucket_name env = Ok b ->
     get_access_token env = Ok t ->
     session env (calls st)
       (copy_request b t u (generator env (generated st))) = Response resp ->
     status resp = 404 ->
     copy env st =
       (Raise HTTPNotFound,
        {| dm := dm st;
           calls := calls st ++
                      [Http (copy_request b t u (generator env (generated st)))];
           generated := S (generated st);
           logged := logged st ++ [(WARNING, copy_warning)] |})).
Proof.
  split.
  - intros H. unfold copy, on_exception. apply retry_not_retriable; [|reflexivity].
    unfold copy_try. rewrite H. reflexivity.
  - intros file u b t resp Hf Hu Hb Ht Hr Hs.
    unfold copy, on_exception. apply retry_not_retriable; [|reflexivity].
    rewrite (@copy_try_request env st file u b t Hf Hu Hb Ht). cbv zeta.
    unfold bind at 1, http. cbn [calls]. rewrite Hr, Hs. reflexivity.
Qed.

Lemma copy_needs_source_witness :
  fst (copy Copies.missing Scenario.st0) = Raise HTTPNotFound /\
  logged (snd (copy Copies.missing Scenario.st0)) = [(WARNING, copy_warning)] /\
  count_method POST (calls (snd (copy Copies.missing Scenario.st0))) = 1%nat.
Proof.
  destruct (copy_needs_source Copies.missing Scenario.st0) as (_ & H).
  rewrite (H Scenario.doc_file "container/doc" "container_bucket" (Some "token")
             (Scenario.answer 404 [] (Raise ValueError))
             eq_refl eq_refl eq_refl eq_refl eq_refl eq_refl).
  repeat split.
Defined.

(** X23. [copy] reads the answer to its POST as the metadata of the new
    object whenever the status is not 404, whatever else it is.  When the
    JSON body names the generated name, [copy] hands to the destination the
    content type of the body, its size read as an int, the generated name
    as uri and the file name of the source, or ["unknown"] when it has none;
    it has made one POST and has not touched the data manager of the
    source.  When the body names another object it raises
    [AssertionError]. *)
Theorem copy_hands_over_metadata env st file u b t resp kv :
  field_get env = Some file ->
  file_uri file = Some u ->
  get_bucket_name env = Ok b ->
  get_access_token env = Ok t ->
  session env (calls st) (copy_request b t u (generator env (generated st))) =
    Response resp ->
  status resp <> 404 ->
  json resp = Ok (VDict kv) ->
  let new_uri := generator env (generated st) in
  let st' := {| dm := dm st;
                calls := calls st ++ [Http (copy_request b t u new_uri)];
                generated := S (generated st);
                logged := logged st |} in
  (forall content_type size n,
     dict_get kv "name" = Some (VStr new_uri) ->
     dict_get kv "contentType" = Some content_type ->
     dict_get kv "size" = Some size ->
     int size = Ok n ->
     copy env st =
       (Ok {| copy_content_type := content_type; copy_size := n;
              copy_uri := new_uri; copy_filename := filename_or_unknown file |},
        st')) /\
  (forall name,
     dict_get kv "name" = Some name ->
     value_is_str name new_uri = false ->
     copy env st = (Raise AssertionError, st')).
Proof.
  intros Hf Hu Hb Ht Hr Hs Hj new_uri st'. unfold st', new_uri. clear st' new_uri.
  assert (H404 : (status resp =? 404) = false) by (apply Z.eqb_neq; exact Hs).
  split.
  - intros ct size n Hn Hc Hz Hi.
    unfold copy, on_exception. apply retry_returns.
    rewrite (@copy_try_request env st file u b t Hf Hu Hb Ht). cbv zeta.
    unfold bind at 1, http. cbn [calls]. rewrite Hr, H404.
    unfold bind, lift, ret, getitem. rewrite Hj, Hn.
    cbn [value_is_str]. rewrite String.eqb_refl. cbn [negb].
    rewrite Hc, Hz, Hi. reflexivity.
  - intros name Hn Hv.
    unfold copy, on_exception. apply retry_not_retriable; [|reflexivity].
    rewrite (@copy_try_request env st file u b t Hf Hu Hb Ht). cbv zeta.
    unfold bind at 1, http. cbn [calls]. rewrite Hr, H404.
    unfold bind, lift, ret, raise, getitem. rewrite Hj, Hn, Hv. reflexivity.
Qed.

Lemma copy_hands_over_metadata_witness :
  fst (copy Copies.copied Scenario.st0) =
    Ok {| copy_content_type := VStr "text/plain"; copy_size := 8;
          copy_uri := "container/upload-0"; copy_filename := "doc.txt" |} /\
  dm (snd (copy Copies.copied Scenario.st0)) = Scenario.dm0.
Proof.
  destruct (@copy_hands_over_metadata Copies.copied Scenario.st0 Scenario.doc_file
              "container/doc" "container_bucket" (Some "token")
              (Scenario.answer 200 []
                 (Ok (VDict [("kind", VStr "storage#object");
                             ("name", VStr "container/upload-0");
                             ("contentType", VStr "text/plain");
                             ("size", VStr "8")])))
              [("kind", VStr "storage#object");
               ("name", VStr "container/upload-0");
               ("contentType", VStr "text/plain");
               ("size", VStr "8")]
              eq_refl eq_refl eq_refl eq_refl eq_refl) as (H & _).
  - simpl. lia.
  - reflexivity.
  - rewrite (H (VStr "text/plain") (VStr "8") 8 eq_refl eq_refl eq_refl eq_refl).
    split; reflexivity.
Defined.

(** ** Object URLs *)

Lemma hex_digit_inj a b :
  (a < 16)%nat -> (b < 16)%nat -> hex_digit a = hex_digit b -> a = b.
Proof.
  intros Ha Hb H. apply (f_equal nat_of_ascii) in H. unfold hex_digit in H.
  destruct (Nat.ltb a 10) eqn:Ea; destruct (Nat.ltb b 10) eqn:Eb;
    rewrite !nat_ascii_embedding in H by lia;
    try apply Nat.ltb_lt in Ea; try apply Nat.ltb_lt in Eb;
    try apply Nat.ltb_ge in Ea; try apply Nat.ltb_ge in Eb; lia.
Qed.

Lemma hex_digit_safe n : (n < 16)%nat -> always_safe (hex_digit n) = true.
Proof.
  intros H. do 16 (destruct n as [|n]; [reflexivity|]). lia.
Qed.

Lemma nat_of_ascii_inj c1 c2 : nat_of_ascii c1 = nat_of_ascii c2 -> c1 = c2.
Proof.
  intros H. apply (f_equal ascii_of_nat) in H.
  rewrite !ascii_nat_embedding in H. exact H.
Qed.

Lemma nat_of_ascii_lt c : (nat_of_ascii c < 256)%nat.
Proof. apply nat_ascii_bounded. Qed.

Lemma always_safe_plus : always_safe "+" = false.
Proof. reflexivity. Qed.

Lemma always_safe_percent : always_safe "%" = false.
Proof. reflexivity. Qed.

Lemma string_cons_inj c1 s1 c2 s2 :
  String c1 s1 = String c2 s2 -> c1 = c2 /\ s1 = s2.
Proof. intros H. inversion H. auto. Qed.

Lemma quote_plus_cons c s :
  quote_plus (String c s) =
    if Nat.eqb (nat_of_ascii c) 32 then String "+" (quote_plus s)
    else if always_safe c then String c (quote_plus s)
    else String "%" (String (hex_digit (Nat.div (nat_of_ascii c) 16))
                       (String (hex_digit (Nat.modulo (nat_of_ascii c) 16))
                          (quote_plus s))).
Proof. reflexivity. Qed.

Lemma quote_plus_inj s1 :
  forall s2, quote_plus s1 = quote_plus s2 -> s1 = s2.
Proof.
  induction s1 as [|c1 s1 IH]; intros [|c2 s2] H.
  - reflexivity.
  - rewrite ?quote_plus_cons in H.
    destruct (Nat.eqb (nat_of_ascii c2) 32); [discriminate|].
    destruct (always_safe c2); discriminate.
  - rewrite ?quote_plus_cons in H.
    destruct (Nat.eqb (nat_of_ascii c1) 32); [discriminate|].
    destruct (always_safe c1); discriminate.
  - rewrite ?quote_plus_cons in H.
    pose proof (nat_of_ascii_lt c1) as B1. pose proof (nat_of_ascii_lt c2) as B2.
    destruct (Nat.eqb (nat_of_ascii c1) 32) eqn:E1;
      destruct (Nat.eqb (nat_of_ascii c2) 32) eqn:E2.
    + inversion H as [Ht]. apply Nat.eqb_eq in E1, E2.
      f_equal; [apply nat_of_ascii_inj; congruence | apply IH; exact Ht].
    + destruct (always_safe c2) eqn:S2; [|discriminate].
      inversion H as [[Hc Ht]]. rewrite <- Hc, always_safe_plus in S2. discriminate.
    + destruct (always_safe c1) eqn:S1; [|discriminate].
      inversion H as [[Hc Ht]]. rewrite Hc, always_safe_plus in S1. discriminate.
    + destruct (always_safe c1) eqn:S1; destruct (always_safe c2) eqn:S2.
      * inversion H as [[Hc Ht]]. f_equal. apply IH. exact Ht.
      * inversion H as [[Hc Ht]]. rewrite Hc, always_safe_percent in S1. discriminate.
      * inversion H as [[Hc Ht]]. rewrite <- Hc, always_safe_percent in S2. discriminate.
      * apply string_cons_inj in H. destruct H as [_ H].
        apply string_cons_inj in H. destruct H as [Hh H].
        apply string_cons_inj in H. destruct H as [Hl Ht].
        apply hex_digit_inj in Hh;
          [|apply Nat.Div0.div_lt_upper_bound; lia
           |apply Nat.Div0.div_lt_upper_bound; lia].
        apply hex_digit_inj in Hl;
          [|apply Nat.mod_upper_bound; lia | apply Nat.mod_upper_bound; lia].
        f_equal; [|apply IH; exact Ht].
        apply nat_of_ascii_inj.
        rewrite (Nat.div_mod_eq (nat_of_ascii c1) 16),
                (Nat.div_mod_eq (nat_of_ascii c2) 16), Hh, Hl.
        reflexivity.
Qed.

Lemma quote_plus_chars s : all_chars encoded_char (quote_plus s) = true.
Proof.
  induction s as [|c s IH]; [reflexivity|]. rewrite quote_plus_cons.
  pose proof (nat_of_ascii_lt c) as B.
  destruct (Nat.eqb (nat_of_ascii c) 32); [exact IH|].
  destruct (always_safe c) eqn:S.
  - cbn [all_chars]. unfold encoded_char at 1. rewrite S. exact IH.
  - cbn [all_chars]. unfold encoded_char at 1 2 3.
    rewrite !hex_digit_safe
      by (first [apply Nat.Div0.div_lt_upper_bound; lia | apply Nat.mod_upper_bound; lia]).
    exact IH.
Qed.

Lemma append_cancel p a b : (p ++ a)%string = (p ++ b)%string -> a = b.
Proof.
  induction p as [|c p IH]; intros H; [exact H|]. inversion H. auto.
Qed.

(** X24. Two different object names never share an object URL in a
    bucket, so a request on one object never lands on another; and the
    part of the URL that encodes the name is made of letters, digits,
    [_.-~], [+] and [%] only (no [/], [?], [#] or space of the name comes
    through). *)
Theorem object_url_separates b u1 u2 :
  u1 <> u2 ->
  object_url b u1 <> object_url b u2 /\
  all_chars encoded_char (quote_plus u1) = true /\
  exists encoded, object_url b u1 = (OBJECT_BASE_URL ++ "/" ++ b ++ "/o/" ++ encoded)%string /\
                  encoded = quote_plus u1.
Proof.
  intros Hne. split; [|split; [apply quote_plus_chars | eexists; split; reflexivity]].
  intros H. apply Hne. unfold object_url in H.
  apply append_cancel in H. apply append_cancel in H.
  apply append_cancel in H. apply append_cancel in H.
  apply quote_plus_inj. exact H.
Qed.

Lemma object_url_separates_witness :
  object_url "container_bucket" "a b" <> object_url "container_bucket" "a+b" /\
  object_url "container_bucket" "a/b c" =
    "https://www.googleapis.com/storage/v1/b/container_bucket/o/a%2Fb+c".
Proof.
  destruct (@object_url_separates "container_bucket" "a b" "a+b") as (H & _).
  - discriminate.
  - split; [exact H | reflexivity].
Defined.

(** ** The bucket resolver *)

Lemma retrying_returns {A} (target : Buckets.R A) more st a st' :
  target st = (Buckets.Fine a, st') ->
  Buckets.retrying more target st = (Buckets.Fine a, st').
Proof.
  intros H. destruct more; simpl; rewrite H; reflexivity.
Qed.

Lemma retrying_not_retriable {A} (target : Buckets.R A) more st f st' :
  target st = (Buckets.Failed f, st') ->
  Buckets.retriable f = false ->
  Buckets.retrying more target st = (Buckets.Failed f, st').
Proof.
  intros H Hf. destruct more; simpl; rewrite H, Hf; reflexivity.
Qed.

Lemma override_is_used container o :
  Buckets.bucket_override container = Some o ->
  o <> EmptyString ->
  forall settings client,
    Buckets.get_bucket_name_try settings client container =
      Buckets.and_then (Buckets.check_bucket_accessibility client o) (fun accessible =>
        if negb accessible
        then Buckets.and_then (Buckets.said ERROR Buckets.override_error)
               (fun _ => Buckets.fail (Buckets.Framework HTTPPreconditionFailed))
        else Buckets.pure o).
Proof.
  intros Ho Hne settings client. unfold Buckets.get_bucket_name_try.
  rewrite Ho. apply String.eqb_neq in Hne. rewrite Hne. reflexivity.
Qed.

(** X25. An override is checked, and never replaced.  When the container
    carries a bucket override, [get_bucket_name] asks the client for that
    bucket, once: if the client answers, the override is the name returned,
    and it is not put in the cache; if the call raises, whatever the
    exception, [HTTPPreconditionFailed] is raised, without a retry, after an
    error in the log.  In both cases no other call is made on the client: no
    bucket is created, and the name the settings would give is not tried. *)
Theorem override_is_checked settings client container o st :
  Buckets.bucket_override container = Some o ->
  o <> EmptyString ->
  Buckets.get_client client = Buckets.Fine tt ->
  (forall bucket,
     Buckets.get_bucket client (Buckets.client_calls st) o = Buckets.Fine bucket ->
     Buckets.get_bucket_name settings client container st =
       (Buckets.Fine o, Buckets.called (Buckets.GetBucket o) st)) /\
  (forall f,
     Buckets.get_bucket client (Buckets.client_calls st) o = Buckets.Failed f ->
     exists st',
       Buckets.get_bucket_name settings client container st =
         (Buckets.Failed (Buckets.Framework HTTPPreconditionFailed), st') /\
       Buckets.client_calls st' = (Buckets.client_calls st ++ [Buckets.GetBucket o])%list /\
       Buckets._cached_buckets st' = Buckets._cached_buckets st /\
       List.last (Buckets.messages st') (WARNING, EmptyString) =
         (ERROR, Buckets.override_error)).
Proof.
  intros Ho Hne Hc. split.
  - intros bucket Hb. unfold Buckets.get_bucket_name. apply retrying_returns.
    rewrite (override_is_used _ Ho Hne).
    unfold Buckets.check_bucket_accessibility, Buckets.and_then, Buckets.the_client,
      Buckets.rescue, Buckets.on_client, Buckets.pure.
    rewrite Hc, Hb. reflexivity.
  - intros f Hb. unfold Buckets.get_bucket_name.
    assert (Htry : exists st',
               Buckets.get_bucket_name_try settings client container st =
                 (Buckets.Failed (Buckets.Framework HTTPPreconditionFailed), st') /\
               Buckets.client_calls st' =
                 (Buckets.client_calls st ++ [Buckets.GetBucket o])%list /\
               Buckets._cached_buckets st' = Buckets._cached_buckets st /\
               List.last (Buckets.messages st') (WARNING, EmptyString) =
                 (ERROR, Buckets.override_error)).
    { rewrite (override_is_used _ Ho Hne).
      unfold Buckets.check_bucket_accessibility, Buckets.and_then, Buckets.the_client,
        Buckets.rescue, Buckets.on_client, Buckets.pure, Buckets.said, Buckets.fail.
      rewrite Hc, Hb.
      destruct f as [e|[]]; (eexists; split; [reflexivity|]);
        cbn [Buckets.client_calls Buckets._cached_buckets Buckets.messages Buckets.called];
        (split; [reflexivity|]; split; [reflexivity|]);
        rewrite last_last; reflexivity. }
    destruct Htry as (st' & H & rest). exists st'. split; [|exact rest].
    apply retrying_not_retriable; [exact H | reflexivity].
Qed.

Lemma override_is_checked_witness :
  fst (Buckets.get_bucket_name Resolving.settings0 Resolving.denied Resolving.overridden
         Resolving.fresh) =
    Buckets.Failed (Buckets.Framework HTTPPreconditionFailed) /\
  Buckets.get_bucket_name Resolving.settings0 Resolving.steady Resolving.overridden
    Resolving.fresh =
    (Buckets.Fine "shared-bucket",
     Buckets.called (Buckets.GetBucket "shared-bucket") Resolving.fresh).
Proof.
  destruct (@override_is_checked Resolving.settings0 Resolving.denied Resolving.overridden
              "shared-bucket" Resolving.fresh eq_refl) as (_ & H1); [discriminate|reflexivity|].
  destruct (@override_is_checked Resolving.settings0 Resolving.steady Resolving.overridden
              "shared-bucket" Resolving.fresh eq_refl) as (H2 & _); [discriminate|reflexivity|].
  destruct (H1 (Buckets.Google Buckets.Forbidden) eq_refl) as (st' & E & _).
  split; [rewrite E; reflexivity | apply (H2 Resolving.settled eq_refl)].
Defined.

Lemma retrying_fine {A} (target : Buckets.R A) more :
  forall st a st',
    Buckets.retrying more target st = (Buckets.Fine a, st') ->
    exists s, target s = (Buckets.Fine a, st').
Proof.
  induction more as [|more IH]; intros st a st' H; simpl in H;
    destruct (target st) as [[x|f] s1] eqn:E.
  - inversion H; subst. exists st. exact E.
  - destruct (Buckets.retriable f); discriminate.
  - inversion H; subst. exists st. exact E.
  - destruct (Buckets.retriable f); [|discriminate]. apply (IH _ _ _ H).
Qed.

Lemma existsb_eqb_in n l : existsb (String.eqb n) l = true <-> In n l.
Proof.
  rewrite existsb_exists. split.
  - intros (x & Hx & E). apply String.eqb_eq in E. subst. exact Hx.
  - intros H. exists n. split; [exact H | apply String.eqb_refl].
Qed.

Lemma append_empty_r (s : string) : (s ++ EmptyString)%string = s.
Proof. induction s as [|c s IH]; simpl; [reflexivity | rewrite IH; reflexivity]. Qed.

Lemma no_override_try settings client container :
  no_override container ->
  Buckets.get_bucket_name_try settings client container =
    (let bucket_name := Buckets.formatted_name settings container in
     fun st =>
       if existsb (String.eqb bucket_name) (Buckets._cached_buckets st)
       then (Buckets.Fine bucket_name, st)
       else
         Buckets.and_then (Buckets.the_client client) (fun _ =>
         Buckets.and_then
           (Buckets._get_or_create_bucket settings client container bucket_name)
           (fun _ st' =>
              (Buckets.Fine bucket_name,
               {| Buckets._cached_buckets := Buckets._cached_buckets st' ++ [bucket_name];
                  Buckets.client_calls := Buckets.client_calls st';
                  Buckets.messages := Buckets.messages st' |}))) st).
Proof.
  intros [H|H]; unfold Buckets.get_bucket_name_try; rewrite H; reflexivity.
Qed.

Lemma get_bucket_name_try_fine settings client container st n st' :
  no_override container ->
  Buckets.get_bucket_name_try settings client container st = (Buckets.Fine n, st') ->
  n = Buckets.formatted_name settings container /\ In n (Buckets._cached_buckets st').
Proof.
  intros Hno H. rewrite (no_override_try settings client Hno) in H.
  cbv beta zeta in H.
  destruct (existsb (String.eqb (Buckets.formatted_name settings container))
              (Buckets._cached_buckets st)) eqn:E.
  - inversion H; subst. split; [reflexivity|]. apply existsb_eqb_in. exact E.
  - unfold Buckets.and_then, Buckets.the_client in H.
    destruct (Buckets.get_client client) as [[]|f]; [|discriminate].
    destruct (Buckets._get_or_create_bucket settings client container _ st)
      as [[bucket|f] s1]; [|discriminate].
    inversion H; subst. split; [reflexivity|].
    cbn [Buckets._cached_buckets]. apply in_or_app. right. left. reflexivity.
Qed.

(** X26. Without an override, the name [get_bucket_name] returns is the
    one the settings give to the container, and it is resolved once: a name
    that is in the cache is returned without a call on the client; a
    resolution that returns leaves the name in the cache, so that the next
    one returns the same name and changes nothing.  With the default format
    the name is the id of the container in lower case, a [.] when the base
    name has one and a [_] otherwise, and the base name. *)
Theorem resolved_name_is_cached settings client container st :
  no_override container ->
  (In (Buckets.formatted_name settings container) (Buckets._cached_buckets st) ->
   Buckets.get_bucket_name settings client container st =
     (Buckets.Fine (Buckets.formatted_name settings container), st)) /\
  (forall n st',
     Buckets.get_bucket_name settings client container st = (Buckets.Fine n, st') ->
     n = Buckets.formatted_name settings container /\
     In n (Buckets._cached_buckets st') /\
     Buckets.get_bucket_name settings client container st' = (Buckets.Fine n, st')) /\
  (Buckets._bucket_name_format settings = Buckets.default_format ->
   Buckets.formatted_name settings container =
     (lower (Buckets.id container)
      ++ (if str_in "." (Buckets._bucket_name settings) then "." else "_")
      ++ Buckets._bucket_name settings)%string).
Proof.
  intros Hno.
  assert (Hhit : forall s,
             In (Buckets.formatted_name settings container) (Buckets._cached_buckets s) ->
             Buckets.get_bucket_name settings client container s =
               (Buckets.Fine (Buckets.formatted_name settings container), s)).
  { intros s Hin. unfold Buckets.get_bucket_name. apply retrying_returns.
    rewrite (no_override_try settings client Hno). cbv beta zeta.
    apply existsb_eqb_in in Hin. rewrite Hin. reflexivity. }
  split; [apply Hhit|]. split.
  - intros n st' H. unfold Buckets.get_bucket_name in H.
    apply retrying_fine in H. destruct H as (s & H).
    destruct (@get_bucket_name_try_fine _ _ _ _ _ _ Hno H) as (Hn & Hin).
    split; [exact Hn|]. split; [exact Hin|].
    subst n. apply Hhit. exact Hin.
  - intros Hf. unfold Buckets.formatted_name. rewrite Hf.
    cbn [Buckets.format Buckets.default_format].
    rewrite append_empty_r. reflexivity.
Qed.

Lemma resolved_name_is_cached_witness :
  no_override Resolving.container0 /\
  Buckets.formatted_name Resolving.settings0 Resolving.container0 =
    "container.files.example.com" /\
  exists st',
    Buckets.get_bucket_name Resolving.settings0 Resolving.steady Resolving.container0
      Resolving.fresh = (Buckets.Fine "container.files.example.com", st') /\
    Buckets.get_bucket_name Resolving.settings0 Resolving.steady Resolving.container0 st' =
      (Buckets.Fine "container.files.example.com", st').
Proof.
  assert (Hno : no_override Resolving.container0) by (left; reflexivity).
  destruct (@resolved_name_is_cached Resolving.settings0 Resolving.steady
              Resolving.container0 Resolving.fresh Hno) as (_ & H & Hname).
  split; [exact Hno|]. split; [rewrite (Hname eq_refl); reflexivity|].
  exists (snd (Buckets.get_bucket_name Resolving.settings0 Resolving.steady
                 Resolving.container0 Resolving.fresh)).
  assert (E : Buckets.get_bucket_name Resolving.settings0 Resolving.steady
                Resolving.container0 Resolving.fresh =
              (Buckets.Fine "container.files.example.com",
               snd (Buckets.get_bucket_name Resolving.settings0 Resolving.steady
                      Resolving.container0 Resolving.fresh))) by reflexivity.
  destruct (H _ _ E) as (_ & _ & Hagain).
  split; [exact E | exact Hagain].
Defined.

(** ** A bucket that is missing, and a bucket to reconcile *)

Lemma reconciled_condition settings container bucket :
  (negb (Buckets.dict_eqb
           (match Buckets.labels bucket with Some l => l | None => [] end)
           (Buckets.wanted_labels settings container bucket)) ||
   negb (Bool.eqb (Buckets.bucket_policy_only_enabled bucket)
           (Buckets._uniform_bucket_level_access settings)))%bool =
  negb (reconciled settings container bucket).
Proof.
  unfold reconciled.
  destruct (Buckets.dict_eqb _ _), (Bool.eqb _ _); reflexivity.
Qed.

Lemma create_bucket_messages client name st :
  Buckets.messages (snd (Buckets._create_bucket client name st)) = Buckets.messages st.
Proof.
  unfold Buckets._create_bucket, Buckets.rescue, Buckets.on_client.
  destruct (Buckets.create client (Buckets.client_calls st) name true) as [b|[e|g]];
    try reflexivity.
  destruct e; reflexivity.
Qed.



Lemma found_reconciled settings client container name st bucket :
  Buckets.get_bucket client (Buckets.client_calls st) name = Buckets.Fine bucket ->
  reconciled settings container bucket = true ->
  Buckets._get_or_create_bucket settings client container name st =
    (Buckets.Fine bucket, Buckets.called (Buckets.GetBucket name) st).
Proof.
  intros Hb Hrec. unfold Buckets._get_or_create_bucket.
  unfold Buckets.and_then at 1. unfold Buckets.rescue at 1.
  unfold Buckets.on_client at 1. rewrite Hb. cbv beta iota.
  rewrite reconciled_condition, Hrec. reflexivity.
Qed.

Lemma found_patched settings client container name st bucket :
  Buckets.get_bucket client (Buckets.client_calls st) name = Buckets.Fine bucket ->
  reconciled settings container bucket = false ->
  Buckets._get_or_create_bucket settings client container name st =
    (let wanted := Buckets.wanted_labels settings container bucket in
     let policy := Buckets._uniform_bucket_level_access settings in
     let st1 := Buckets.called (Buckets.Patch name wanted policy)
                  (Buckets.called (Buckets.GetBucket name) st) in
     let patched := {| Buckets.labels := Some wanted;
                       Buckets.bucket_policy_only_enabled := policy |} in
     match Buckets.patch client (Buckets.client_calls st ++ [Buckets.GetBucket name])
             name wanted policy with
     | Buckets.Fine _ => (Buckets.Fine patched, st1)
     | Buckets.Failed (Buckets.Google Buckets.Conflict)
     | Buckets.Failed (Buckets.Google Buckets.TooManyRequests)
     | Buckets.Failed (Buckets.Google Buckets.ServiceUnavailable) =>
         (Buckets.Fine patched, st1)
     | Buckets.Failed (Buckets.Google Buckets.Forbidden) =>
         (Buckets.Fine patched,
          {| Buckets._cached_buckets := Buckets._cached_buckets st1;
             Buckets.client_calls := Buckets.client_calls st1;
             Buckets.messages :=
               (Buckets.messages st1 ++ [(WARNING, Buckets.patch_warning)])%list |})
     | Buckets.Failed f => (Buckets.Failed f, st1)
     end).
Proof.
  intros Hb Hrec. unfold Buckets._get_or_create_bucket.
  unfold Buckets.and_then at 1. unfold Buckets.rescue at 1.
  unfold Buckets.on_client at 1. rewrite Hb. cbv beta iota zeta.
  rewrite reconciled_condition, Hrec. cbn [negb].
  unfold Buckets.and_then, Buckets.rescue, Buckets.on_client, Buckets.pure, Buckets.said.
  cbn [Buckets.client_calls Buckets.called].
  destruct (Buckets.patch client _ name _ _) as [[]|[e|[]]]; reflexivity.
Qed.

Lemma try_miss settings client container st :
  no_override container ->
  ~ In (Buckets.formatted_name settings container) (Buckets._cached_buckets st) ->
  Buckets.get_client client = Buckets.Fine tt ->
  Buckets.get_bucket_name_try settings client container st =
    match Buckets._get_or_create_bucket settings client container
            (Buckets.formatted_name settings container) st with
    | (Buckets.Fine _, st') =>
        (Buckets.Fine (Buckets.formatted_name settings container),
         {| Buckets._cached_buckets :=
              (Buckets._cached_buckets st' ++ [Buckets.formatted_name settings container])%list;
            Buckets.client_calls := Buckets.client_calls st';
            Buckets.messages := Buckets.messages st' |})
    | (Buckets.Failed f, st') => (Buckets.Failed f, st')
    end.
Proof.
  intros Hno Hnin Hc. rewrite (no_override_try settings client Hno). cbv beta zeta.
  destruct (existsb (String.eqb (Buckets.formatted_name settings container))
              (Buckets._cached_buckets st)) eqn:E.
  - apply existsb_eqb_in in E. contradiction.
  - unfold Buckets.and_then, Buckets.the_client. rewrite Hc. reflexivity.
Qed.

(** X28. A bucket that is found is brought in line with the settings, and
    a patch that is refused does not fail the resolution.  When the bucket
    of the container is not in the cache and the client has it,
    [get_bucket_name] patches it only if its labels or its access flag
    differ from what the settings want, with one call that carries the
    wanted labels and flag.  A patch that raises [Conflict],
    [TooManyRequests] or [ServiceUnavailable] is ignored, one that raises
    [Forbidden] is logged as a warning: in both cases the name is returned
    and cached as if the patch had passed.  Any other exception of the patch
    is raised, and the name is not cached. *)
Theorem bucket_is_reconciled settings client container st bucket :
  no_override container ->
  ~ In (Buckets.formatted_name settings container) (Buckets._cached_buckets st) ->
  Buckets.get_client client = Buckets.Fine tt ->
  Buckets.get_bucket client (Buckets.client_calls st)
    (Buckets.formatted_name settings container) = Buckets.Fine bucket ->
  (reconciled settings container bucket = true ->
   Buckets.get_bucket_name settings client container st =
     (Buckets.Fine (Buckets.formatted_name settings container),
      resolved st (Buckets.formatted_name settings container)
        [Buckets.GetBucket (Buckets.formatted_name settings container)] [])) /\
  (reconciled settings container bucket = false ->
   forall answer,
     Buckets.patch client
       (Buckets.client_calls st ++
        [Buckets.GetBucket (Buckets.formatted_name settings container)])
       (Buckets.formatted_name settings container)
       (Buckets.wanted_labels settings container bucket)
       (Buckets._uniform_bucket_level_access settings) = answer ->
     (answer = Buckets.Fine tt \/
      answer = Buckets.Failed (Buckets.Google Buckets.Conflict) \/
      answer = Buckets.Failed (Buckets.Google Buckets.TooManyRequests) \/
      answer = Buckets.Failed (Buckets.Google Buckets.ServiceUnavailable) ->
      Buckets.get_bucket_name settings client container st =
        (Buckets.Fine (Buckets.formatted_name settings container),
         resolved st (Buckets.formatted_name settings container)
           [Buckets.GetBucket (Buckets.formatted_name settings container);
            Buckets.Patch (Buckets.formatted_name settings container)
              (Buckets.wanted_labels settings container bucket)
              (Buckets._uniform_bucket_level_access settings)] [])) /\
     (answer = Buckets.Failed (Buckets.Google Buckets.Forbidden) ->
      Buckets.get_bucket_name settings client container st =
        (Buckets.Fine (Buckets.formatted_name settings container),
         resolved st (Buckets.formatted_name settings container)
           [Buckets.GetBucket (Buckets.formatted_name settings container);
            Buckets.Patch (Buckets.formatted_name settings container)
              (Buckets.wanted_labels settings container bucket)
              (Buckets._uniform_bucket_level_access settings)]
           [(WARNING, Buckets.patch_warning)])) /\
     (forall f,
        answer = Buckets.Failed f ->
        f <> Buckets.Google Buckets.Conflict ->
        f <> Buckets.Google Buckets.TooManyRequests ->
        f <> Buckets.Google Buckets.ServiceUnavailable ->
        f <> Buckets.Google Buckets.Forbidden ->
        Buckets.retriable f = false ->
        Buckets.get_bucket_name settings client container st =
          (Buckets.Failed f,
           {| Buckets._cached_buckets := Buckets._cached_buckets st;
              Buckets.client_calls :=
                (Buckets.client_calls st ++
                 [Buckets.GetBucket (Buckets.formatted_name settings container);
                  Buckets.Patch (Buckets.formatted_name settings container)
                    (Buckets.wanted_labels settings container bucket)
                    (Buckets._uniform_bucket_level_access settings)])%list;
              Buckets.messages := Buckets.messages st |}))).
Proof.
  intros Hno Hnin Hc Hb. split.
  - intros Hrec. unfold Buckets.get_bucket_name. apply retrying_returns.
    rewrite (@try_miss settings client container st Hno Hnin Hc).
    rewrite (@found_reconciled settings client container _ st bucket Hb Hrec).
    unfold resolved, Buckets.called.
    cbn [Buckets._cached_buckets Buckets.client_calls Buckets.messages].
    rewrite app_nil_r. reflexivity.
  - intros Hrec answer Hanswer. subst answer.
    pose proof (@try_miss settings client container st Hno Hnin Hc) as Htry.
    rewrite (@found_patched settings client container _ st bucket Hb Hrec) in Htry.
    cbv zeta in Htry.
    unfold Buckets.called in Htry.
    cbn [Buckets._cached_buckets Buckets.client_calls Buckets.messages] in Htry.
    rewrite <- app_assoc in Htry. cbn [app] in Htry.
    split; [|split].
    + intros Hans. unfold Buckets.get_bucket_name. apply retrying_returns.
      rewrite Htry. unfold resolved. rewrite app_nil_r.
      destruct Hans as [H|[H|[H|H]]]; rewrite H; reflexivity.
    + intros Hans. unfold Buckets.get_bucket_name. apply retrying_returns.
      rewrite Htry, Hans. reflexivity.
    + intros f Hans H1 H2 H3 H4 Hr. unfold Buckets.get_bucket_name.
      apply retrying_not_retriable; [|exact Hr].
      rewrite Htry, Hans.
      destruct f as [e|[]]; try reflexivity; exfalso;
        [apply H1|apply H4|apply H2|apply H3]; reflexivity.
Qed.

Lemma bucket_is_reconciled_witness :
  Buckets.get_bucket_name Resolving.settings0 Resolving.unpatchable Resolving.container0
    Resolving.fresh =
    (Buckets.Fine "container.files.example.com",
     {| Buckets._cached_buckets := ["container.files.example.com"];
        Buckets.client_calls :=
          [Buckets.GetBucket "container.files.example.com";
           Buckets.Patch "container.files.example.com"
             [("container", "container"); ("team", "storage")] true];
        Buckets.messages := [(WARNING, Buckets.patch_warning)] |}) /\
  Buckets.get_bucket_name Resolving.settings0 Resolving.steady Resolving.container0
    Resolving.fresh =
    (Buckets.Fine "container.files.example.com",
     {| Buckets._cached_buckets := ["container.files.example.com"];
        Buckets.client_calls := [Buckets.GetBucket "container.files.example.com"];
        Buckets.messages := [] |}).
Proof.
  assert (Hno : no_override Resolving.container0) by (left; reflexivity).
  assert (Hnin : ~ In (Buckets.formatted_name Resolving.settings0 Resolving.container0)
                     (Buckets._cached_buckets Resolving.fresh)) by (intros []).
  destruct (@bucket_is_reconciled Resolving.settings0 Resolving.unpatchable
              Resolving.container0 Resolving.fresh Resolving.bare Hno Hnin eq_refl eq_refl)
    as (_ & H1).
  destruct (@bucket_is_reconciled Resolving.settings0 Resolving.steady
              Resolving.container0 Resolving.fresh Resolving.settled Hno Hnin eq_refl eq_refl)
    as (H2 & _).
  destruct (H1 eq_refl _ eq_refl) as (_ & Hf & _).
  split; [exact (Hf eq_refl) | exact (H2 eq_refl)].
Defined.

(** ** The cache of bucket names *)

Lemma keeps_pure {A} (a : A) : keeps_cache (Buckets.pure a).
Proof. intros st. reflexivity. Qed.

Lemma keeps_fail {A} f : keeps_cache (@Buckets.fail A f).
Proof. intros st. reflexivity. Qed.

Lemma keeps_said l msg : keeps_cache (Buckets.said l msg).
Proof. intros st. reflexivity. Qed.

Lemma keeps_on_client {A} c (answer : list Buckets.client_call -> Buckets.Outcome A) :
  keeps_cache (Buckets.on_client c answer).
Proof. intros st. reflexivity. Qed.

Lemma keeps_the_client client : keeps_cache (Buckets.the_client client).
Proof. intros st. reflexivity. Qed.

Lemma keeps_and_then {A B} (c : Buckets.R A) (k : A -> Buckets.R B) :
  keeps_cache c -> (forall a, keeps_cache (k a)) -> keeps_cache (Buckets.and_then c k).
Proof.
  intros Hc Hk st. unfold Buckets.and_then. specialize (Hc st).
  destruct (c st) as [[a|f] s1]; cbn [snd] in *; [rewrite Hk|]; exact Hc.
Qed.

Lemma keeps_rescue {A} (c : Buckets.R A) handler :
  keeps_cache c ->
  (forall f h, handler f = Some h -> keeps_cache h) ->
  keeps_cache (Buckets.rescue c handler).
Proof.
  intros Hc Hh st. unfold Buckets.rescue. specialize (Hc st).
  destruct (c st) as [[a|f] s1]; cbn [snd] in *; [exact Hc|].
  destruct (handler f) as [h|] eqn:E; [|exact Hc].
  rewrite (Hh f h E). exact Hc.
Qed.

Create HintDb keeps.

#[local] Hint Resolve keeps_pure keeps_fail keeps_said keeps_on_client keeps_the_client
  : keeps.

Lemma keeps_check client name :
  keeps_cache (Buckets.check_bucket_accessibility client name).
Proof.
  unfold Buckets.check_bucket_accessibility.
  apply keeps_and_then; [apply keeps_the_client|]. intros _.
  apply keeps_rescue.
  - apply keeps_and_then; auto with keeps.
  - intros f h Hh. inversion Hh; subst.
    destruct f as [e|[]]; apply keeps_and_then; auto with keeps.
Qed.

Lemma keeps_create client name : keeps_cache (Buckets._create_bucket client name).
Proof.
  unfold Buckets._create_bucket. apply keeps_rescue; [apply keeps_on_client|].
  intros f h Hh. destruct f as [e|g]; [|discriminate].
  destruct e; try discriminate. inversion Hh; subst. apply keeps_on_client.
Qed.

Lemma keeps_get_or_create settings client container name :
  keeps_cache (Buckets._get_or_create_bucket settings client container name).
Proof.
  unfold Buckets._get_or_create_bucket. apply keeps_and_then.
  - apply keeps_rescue; [apply keeps_on_client|].
    intros f h Hh. destruct f as [e|[]]; try discriminate.
    inversion Hh; subst. apply keeps_rescue.
    + apply keeps_and_then; [apply keeps_create|]. intros b.
      apply keeps_and_then; auto with keeps.
    + intros f h Hh'. destruct f as [e|[]]; try discriminate.
      inversion Hh'; subst. apply keeps_on_client.
  - intros bucket. cbv zeta.
    destruct (_ || _)%bool; [|apply keeps_pure].
    apply keeps_and_then; [|auto with keeps].
    apply keeps_rescue; [apply keeps_on_client|].
    intros f h Hh. destruct f as [e|[]]; try discriminate;
      inversion Hh; subst; auto with keeps.
Qed.

Lemma nodup_snoc {A} (l : list A) (a : A) :
  NoDup l -> ~ In a l -> NoDup (l ++ [a]).
Proof.
  induction l as [|x l IH]; intros Hnd Hnin; simpl.
  - constructor; [intros [] | constructor].
  - inversion Hnd as [|? ? Hx Hl]; subst. constructor.
    + intros Hin. apply in_app_or in Hin. destruct Hin as [Hin|[Hin|[]]].
      * contradiction.
      * subst. apply Hnin. left. reflexivity.
    + apply IH; [exact Hl|]. intros Hin. apply Hnin. right. exact Hin.
Qed.

Lemma get_bucket_name_try_cache settings client container st :
  match Buckets.get_bucket_name_try settings client container st with
  | (Buckets.Failed _, st') => Buckets._cached_buckets st' = Buckets._cached_buckets st
  | (Buckets.Fine n, st') =>
      Buckets._cached_buckets st' = Buckets._cached_buckets st \/
      (Buckets._cached_buckets st' = (Buckets._cached_buckets st ++ [n])%list /\
       ~ In n (Buckets._cached_buckets st) /\
       no_override container /\
       n = Buckets.formatted_name settings container)
  end.
Proof.
  assert (Hmiss : no_override container ->
            match Buckets.get_bucket_name_try settings client container st with
            | (Buckets.Failed _, st') =>
                Buckets._cached_buckets st' = Buckets._cached_buckets st
            | (Buckets.Fine n, st') =>
                Buckets._cached_buckets st' = Buckets._cached_buckets st \/
                (Buckets._cached_buckets st' = (Buckets._cached_buckets st ++ [n])%list /\
                 ~ In n (Buckets._cached_buckets st) /\
                 no_override container /\
                 n = Buckets.formatted_name settings container)
            end).
  { intros Hno. rewrite (no_override_try settings client Hno). cbv beta zeta.
    destruct (existsb (String.eqb (Buckets.formatted_name settings container))
                (Buckets._cached_buckets st)) eqn:E.
    - left. reflexivity.
    - unfold Buckets.and_then, Buckets.the_client.
      destruct (Buckets.get_client client) as [[]|f]; [|reflexivity].
      pose proof (@keeps_get_or_create settings client container
                    (Buckets.formatted_name settings container) st) as Hk.
      destruct (Buckets._get_or_create_bucket settings client container _ st)
        as [[bucket|f] s1]; cbn [snd] in Hk; [|exact Hk].
      right. cbn [Buckets._cached_buckets]. rewrite Hk.
      split; [reflexivity|]. split; [|split; [exact Hno | reflexivity]].
      intros Hin. apply existsb_eqb_in in Hin. rewrite Hin in E. discriminate. }
  destruct (Buckets.bucket_override container) as [o|] eqn:Ho;
    [destruct (String.eqb o EmptyString) eqn:Eo|].
  - apply Hmiss. right. apply String.eqb_eq in Eo. subst o. exact Ho.
  - apply String.eqb_neq in Eo. rewrite (@override_is_used container o Ho Eo).
    assert (Hk : keeps_cache
                   (Buckets.and_then (Buckets.check_bucket_accessibility client o)
                      (fun accessible =>
                         if negb accessible
                         then Buckets.and_then (Buckets.said ERROR Buckets.override_error)
                                (fun _ => Buckets.fail
                                            (Buckets.Framework HTTPPreconditionFailed))
                         else Buckets.pure o))).
    { apply keeps_and_then; [apply keeps_check|].
      intros [|]; cbn [negb]; [apply keeps_pure|].
      apply keeps_and_then; auto with keeps. }
    specialize (Hk st).
    destruct (Buckets.and_then _ _ st) as [[n|f] s1]; cbn [snd] in Hk;
      [left|]; exact Hk.
  - apply Hmiss. left. exact Ho.
Qed.

Lemma retrying_last {A} (target : Buckets.R A) :
  (forall s f s', target s = (Buckets.Failed f, s') ->
                  Buckets._cached_buckets s' = Buckets._cached_buckets s) ->
  forall more st out st',
    Buckets.retrying more target st = (out, st') ->
    exists s, Buckets._cached_buckets s = Buckets._cached_buckets st /\
              target s = (out, st').
Proof.
  intros Hfail. induction more as [|more IH]; intros st out st' H; simpl in H;
    destruct (target st) as [[a|f] s1] eqn:E.
  - exists st. split; [reflexivity|]. rewrite E. exact H.
  - exists st. split; [reflexivity|]. rewrite E.
    destruct (Buckets.retriable f); exact H.
  - exists st. split; [reflexivity|]. rewrite E. exact H.
  - destruct (Buckets.retriable f).
    + destruct (IH _ _ _ H) as (s & Hs & Ht). exists s.
      split; [|exact Ht]. rewrite Hs. apply (Hfail _ _ _ E).
    + exists st. split; [reflexivity|]. rewrite E. exact H.
Qed.


